(** * scuba-tools: the dive-table core of [js/script.js]

    [js/script.js] holds two revisions of the calculator one after the
    other.  This development embeds the later one (the one that introduces
    the "corrected version" of the surface-interval table and the Nitrox
    helpers): unit conversions, Dalton's triangle, the three U.S. Navy
    tables and the lookups over them.

    JavaScript numbers are binary64 floats, so they are modelled by Rocq's
    primitive [float], whose operations and comparisons are the IEEE-754
    ones ([NaN] compares false with everything).  The integer literals of
    the tables are kept in [Z] and injected with [Z2F] where the code
    compares them with an argument.  [null] is [None].

    The table lookups only compare their arguments, and their properties
    rest on the order of binary64.  The Nitrox formulas compute; their
    round trip is proved from the specification of the four operations
    (each rounds its exact result once), measured in the real numbers. *)

From Stdlib Require Import ZArith Bool List Sorted String Ascii Lia.
From Stdlib Require Import DecimalString.
From Stdlib Require Import Reals Lra Psatz.
From Stdlib Require Import Floats.
Import ListNotations.

Open Scope string_scope.
Open Scope Z_scope.

(* Decimal literals such as 0.79 denote the nearest binary64 value, as in
   JavaScript. *)
Set Warnings "-inexact-float".

(** ** Numbers *)

(** The binary64 value nearest to an integer (exact below 2^53). *)
Definition Z2F (z : Z) : float := SF2Prim (binary_normalize prec emax z 0 false).
Arguments Z2F z%_Z.

(** Integer part of the magnitude of a finite float. *)
Definition floorAbs (x : float) : Z :=
  match Prim2SF x with
  | S754_finite _ m e => if 0 <=? e then Z.shiftl (Zpos m) e else Z.shiftr (Zpos m) (- e)
  | _ => 0
  end.

(** [String(z)] for an integer-valued number. *)
Definition showZ (z : Z) : string := NilZero.string_of_int (Z.to_int z).

(** The outcome of a call that may throw. *)
Inductive outcome (A : Type) : Type :=
| Return (a : A)
| Throw (message : string).
Arguments Return {A} a.
Arguments Throw {A} message.

(** ** Strings read as numbers

    Strings are sequences of code units below 256. *)

Definition isWhiteSpace (c : ascii) : bool :=
  let n := Z.of_nat (nat_of_ascii c) in
  ((9 <=? n) && (n <=? 13)) || (n =? 32) || (n =? 160).

Definition isDigit (c : ascii) : bool :=
  let n := Z.of_nat (nat_of_ascii c) in (48 <=? n) && (n <=? 57).

Definition digitValue (c : ascii) : Z := Z.of_nat (nat_of_ascii c) - 48.

Definition hexValue (c : ascii) : option Z :=
  let n := Z.of_nat (nat_of_ascii c) in
  if (48 <=? n) && (n <=? 57) then Some (n - 48)
  else if (65 <=? n) && (n <=? 70) then Some (n - 55)
  else if (97 <=? n) && (n <=? 102) then Some (n - 87)
  else None.

Fixpoint trimStart (s : string) : string :=
  match s with
  | String c r => if isWhiteSpace c then trimStart r else s
  | EmptyString => EmptyString
  end.

Fixpoint rev_string (acc s : string) : string :=
  match s with
  | EmptyString => acc
  | String c r => rev_string (String c acc) r
  end.

Definition trim (s : string) : string :=
  rev_string "" (trimStart (rev_string "" (trimStart s))).

(** Value of a string made of decimal digits only; [None] if another
    character occurs. *)
Fixpoint allDigits (acc : Z) (s : string) : option Z :=
  match s with
  | EmptyString => Some acc
  | String c r => if isDigit c then allDigits (10 * acc + digitValue c) r else None
  end.

(** Value of the longest prefix of digits in the given radix, and whether
    that prefix is non-empty. *)
Fixpoint digitPrefix (radix : Z) (digit : ascii -> option Z) (seen : bool) (acc : Z)
    (s : string) : bool * Z :=
  match s with
  | EmptyString => (seen, acc)
  | String c r =>
      match digit c with
      | Some d => digitPrefix radix digit true (radix * acc + d) r
      | None => (seen, acc)
      end
  end.

Definition decValue (c : ascii) : option Z :=
  if isDigit c then Some (digitValue c) else None.

(** [Number(s)] on the strings the time format is made of: blanks around
    an optionally signed run of decimal digits, or nothing at all (which
    is 0).  [None] marks a string outside this fragment (a fraction, an
    exponent, a radix prefix, [Infinity], or text that is no number): the
    embedding says nothing of those. *)
Definition Number_ (s : string) : option float :=
  match trim s with
  | EmptyString => Some 0%float
  | String c r =>
      let '(neg, body) :=
        if Ascii.eqb c "-" then (true, r)
        else if Ascii.eqb c "+" then (false, r)
        else (false, String c r) in
      match body with
      | EmptyString => None
      | _ =>
          match allDigits 0 body with
          | Some v => Some (if neg then (- Z2F v)%float else Z2F v)
          | None => None
          end
      end
  end.

(** [s.split(sep)] for a one-character separator. *)
Fixpoint split (sep : ascii) (s : string) : list string :=
  match s with
  | EmptyString => [EmptyString]
  | String c r =>
      if Ascii.eqb c sep then EmptyString :: split sep r
      else match split sep r with
           | h :: t => String c h :: t
           | [] => [String c EmptyString]
           end
  end.

(** A value handed to [parseInt]: a string or a number. *)
Inductive jsval : Type :=
| VStr (s : string)
| VNum (x : float).

(** [parseInt(s)] without a radix: leading blanks, a sign, an optional
    [0x] prefix, then the longest run of digits; [NaN] without a digit. *)
Definition parseInt_string (s : string) : float :=
  let t := trimStart s in
  let '(neg, t1) :=
    match t with
    | String c r => if Ascii.eqb c "-" then (true, r)
                    else if Ascii.eqb c "+" then (false, r) else (false, t)
    | EmptyString => (false, t)
    end in
  let '(seen, v) :=
    match t1 with
    | String "0" (String x r) =>
        if Ascii.eqb x "x" || Ascii.eqb x "X"
        then digitPrefix 16 hexValue false 0 r
        else digitPrefix 10 decValue false 0 t1
    | _ => digitPrefix 10 decValue false 0 t1
    end in
  if seen then (if neg then (- Z2F v)%float else Z2F v) else nan.

(** [parseInt(x)] for a number goes through [String(x)].  From 1e-6 up to
    (not including) 1e21 that string is positional and its integer part is
    the truncation of [x]; [NaN] and the infinities print as words, which
    parse to [NaN]; zero prints as [0].  Outside that range the string is
    in exponent notation and the result is its leading digit, which is
    outside the embedding ([None]). *)
Definition parseInt (v : jsval) : option float :=
  match v with
  | VStr s => Some (parseInt_string s)
  | VNum x =>
      if is_nan x || is_infinity x then Some nan
      else if is_zero x then Some 0%float
      else if (1e-6 <=? abs x)%float && (abs x <? 1e21)%float
      then Some (if (x <? 0)%float then (- Z2F (floorAbs x))%float else Z2F (floorAbs x))
      else None
  end.

(** ** Unit conversions *)

Definition ftToATA (feet : float) : float := (1 + feet / 33)%float.

Definition ataToFT (ata : float) : float := ((ata - 1) * 33)%float.

Definition percentToDecimal (percent : float) : float := (percent / 100)%float.

Definition decimalToPercent (decimal : float) : float := (decimal * 100)%float.

(** ** Dalton's triangle *)

(** [parseFloat(x.toFixed(2))].  [toFixed(2)] prints the integer [n]
    nearest to 100 times the magnitude (the larger one at a tie) over 100,
    with the sign of [x] in front, and [parseFloat] reads that decimal
    back as the nearest float, which is the correctly rounded quotient
    [n / 100] since [n] is exact below 2^53.  From 2^46 on binary64 has
    fewer than two decimals, and from 1e21 on [toFixed] prints the number
    itself: both read back as [x].  [NaN] and the infinities print as
    words that [parseFloat] reads back. *)
Definition roundTo2 (x : float) : float :=
  if is_nan x || is_infinity x then x
  else if (Z2F (2 ^ 46) <=? abs x)%float then x
  else
    let n :=
      match Prim2SF x with
      | S754_finite _ m e =>
          if 0 <=? e then Z.shiftl (Zpos m) e * 100
          else (Zpos m * 200 + 2 ^ (- e)) / 2 ^ (1 - e)
      | _ => 0
      end in
    let y := (Z2F n / 100)%float in
    if (x <? 0)%float then (- y)%float else y.

Module Dalton.

(** The [inputs] object: an absent ([undefined]) property is [None]; a
    present one holds a number, as the form handler passes the results of
    [parseFloat]. *)
Record Inputs : Type := {
  depth : option float;
  fO2 : option float;
  pO2 : option float
}.

(** The [result] object, with its properties [depth], [fO2], [pressure],
    [pO2] and [pN2]. *)
Record Result : Type := {
  r_depth : float;
  r_fO2 : float;
  r_pressure : float;
  r_pO2 : float;
  r_pN2 : float
}.

(** The closing loop of [calculateDaltonsTriangle]: every property of
    the result is a number and is rounded to two decimals. *)
Definition format (r : Result) : Result :=
  {| r_depth := roundTo2 (r_depth r);
     r_fO2 := roundTo2 (r_fO2 r);
     r_pressure := roundTo2 (r_pressure r);
     r_pO2 := roundTo2 (r_pO2 r);
     r_pN2 := roundTo2 (r_pN2 r) |}.

Definition invalidMessage : string :=
  "Invalid input combination. Provide exactly 2 of the 3 values: depth, fO2, pO2".

(** The three tests of the [if]/[else if] chain exclude one another;
    they are the first three branches, and the final [else] throws. *)
Definition calculateDaltonsTriangle (inputs : Inputs) : outcome Result :=
  match depth inputs, fO2 inputs, pO2 inputs with
  | Some d, Some f, None =>
      (* Case 1: pO2 from depth and fO2 *)
      let pressure := ftToATA d in
      Return (format {| r_depth := d; r_fO2 := f; r_pressure := pressure;
                        r_pO2 := (pressure * f)%float;
                        r_pN2 := (pressure * (1 - f))%float |})
  | None, Some f, Some p =>
      (* Case 2: depth from fO2 and pO2 *)
      let pressure := (p / f)%float in
      Return (format {| r_depth := ataToFT pressure; r_fO2 := f; r_pressure := pressure;
                        r_pO2 := p;
                        r_pN2 := (pressure * (1 - f))%float |})
  | Some d, None, Some p =>
      (* Case 3: fO2 from depth and pO2 *)
      let pressure := ftToATA d in
      let f := (p / pressure)%float in
      Return (format {| r_depth := d; r_fO2 := f; r_pressure := pressure;
                        r_pO2 := p;
                        r_pN2 := (pressure * (1 - f))%float |})
  | _, _, _ => Throw invalidMessage
  end.

Definition isPresent (v : option float) : nat :=
  match v with Some _ => 1%nat | None => 0%nat end.

(** How many of the three inputs are present. *)
Definition presentCount (inputs : Inputs) : nat :=
  (isPresent (depth inputs) + isPresent (fO2 inputs) + isPresent (pO2 inputs))%nat.

End Dalton.

(** ** The tables *)

(** Table 1: depth -> (no-decompression limit, {minutes: group}). *)
Definition navyTable1 : list (Z * (Z * list (Z * string))) :=
  [ (10, (60 * 5, [(60, "A"); (120, "B"); (210, "C"); (300, "D")]));
    (15, (60 * 5, [(35, "A"); (70, "B"); (110, "C"); (160, "D"); (225, "E"); (350, "F")]));
    (20, (325, [(25, "A"); (50, "B"); (75, "C"); (100, "D"); (135, "E"); (180, "F");
                (240, "G"); (325, "H")]));
    (25, (245, [(20, "A"); (35, "B"); (55, "C"); (75, "D"); (100, "E"); (125, "F");
                (160, "G"); (195, "H"); (245, "I")]));
    (30, (205, [(15, "A"); (30, "B"); (45, "C"); (60, "D"); (75, "E"); (95, "F");
                (120, "G"); (145, "H"); (170, "I"); (205, "J")]));
    (35, (160, [(5, "A"); (15, "B"); (25, "C"); (40, "D"); (50, "E"); (60, "F");
                (80, "G"); (100, "H"); (120, "I"); (140, "J"); (160, "K")]));
    (40, (130, [(5, "A"); (15, "B"); (25, "C"); (30, "D"); (40, "E"); (50, "F");
                (70, "G"); (80, "H"); (100, "I"); (110, "J"); (130, "K")]));
    (50, (70, [(10, "B"); (15, "C"); (25, "D"); (30, "E"); (40, "F"); (50, "G");
               (60, "H"); (70, "I")]));
    (60, (50, [(10, "B"); (15, "C"); (20, "D"); (25, "E"); (30, "F"); (40, "G"); (50, "H")]));
    (70, (40, [(5, "B"); (10, "C"); (15, "D"); (20, "E"); (30, "F"); (35, "G"); (40, "H")]));
    (80, (30, [(5, "B"); (10, "C"); (15, "D"); (20, "E"); (25, "F"); (30, "G")]));
    (90, (25, [(5, "B"); (10, "C"); (12, "D"); (15, "E"); (20, "F"); (25, "G")]));
    (100, (20, [(5, "B"); (7, "C"); (10, "D"); (15, "E"); (20, "F")]));
    (110, (15, [(5, "B"); (10, "C"); (13, "D"); (15, "E")]));
    (120, (10, [(5, "C"); (10, "D")]));
    (130, (5, [(5, "D")])) ].

(** Table 2: current group -> {new group: [min time, max time]}. *)
Definition navyTable2 : list (string * list (string * (string * string))) :=
  [ ("K", [("K", ("0:10", "0:28")); ("J", ("0:29", "0:49")); ("I", ("0:50", "1:11"));
           ("H", ("1:12", "1:35")); ("G", ("1:36", "2:03")); ("F", ("2:04", "2:38"));
           ("E", ("2:39", "3:21")); ("D", ("3:22", "4:19")); ("C", ("4:20", "5:48"));
           ("B", ("5:49", "8:58")); ("A", ("8:59", "11:59")); ("None", ("12:00", "--"))]);
    ("J", [("J", ("0:10", "0:31")); ("I", ("0:32", "0:54")); ("H", ("0:55", "1:19"));
           ("G", ("1:20", "1:47")); ("F", ("1:48", "2:20")); ("E", ("2:21", "3:04"));
           ("D", ("3:05", "4:02")); ("C", ("4:03", "5:40")); ("B", ("5:41", "8:50"));
           ("A", ("8:51", "11:59")); ("None", ("12:00", "--"))]);
    ("I", [("I", ("0:10", "0:33")); ("H", ("0:34", "0:59")); ("G", ("1:00", "1:29"));
           ("F", ("1:30", "2:02")); ("E", ("2:03", "2:44")); ("D", ("2:45", "3:43"));
           ("C", ("3:44", "5:12")); ("B", ("5:13", "8:21")); ("A", ("8:22", "11:59"));
           ("None", ("12:00", "--"))]);
    ("H", [("H", ("0:10", "0:36")); ("G", ("0:37", "1:06")); ("F", ("1:07", "1:41"));
           ("E", ("1:42", "2:23")); ("D", ("2:24", "3:20")); ("C", ("3:21", "4:49"));
           ("B", ("4:50", "7:59")); ("A", ("8:00", "11:59")); ("None", ("12:00", "--"))]);
    ("G", [("G", ("0:10", "0:40")); ("F", ("0:41", "1:15")); ("E", ("1:16", "1:59"));
           ("D", ("2:00", "2:58")); ("C", ("2:59", "4:25")); ("B", ("4:26", "7:35"));
           ("A", ("7:36", "11:59")); ("None", ("12:00", "--"))]);
    ("F", [("F", ("0:10", "0:45")); ("E", ("0:46", "1:29")); ("D", ("1:30", "2:28"));
           ("C", ("2:29", "3:57")); ("B", ("3:58", "7:05")); ("A", ("7:06", "11:59"));
           ("None", ("12:00", "--"))]);
    ("E", [("E", ("0:10", "0:54")); ("D", ("0:55", "1:57")); ("C", ("1:58", "3:24"));
           ("B", ("3:25", "6:34")); ("A", ("6:35", "11:59")); ("None", ("12:00", "--"))]);
    ("D", [("D", ("0:10", "1:09")); ("C", ("1:10", "2:38")); ("B", ("2:39", "5:48"));
           ("A", ("5:49", "11:59")); ("None", ("12:00", "--"))]);
    ("C", [("C", ("0:10", "1:39")); ("B", ("1:40", "4:49")); ("A", ("4:50", "11:59"));
           ("None", ("12:00", "--"))]);
    ("B", [("B", ("0:10", "3:20")); ("A", ("3:21", "11:59")); ("None", ("12:00", "--"))]);
    ("A", [("A", ("0:10", "11:59")); ("None", ("12:00", "--"))]) ].

(** A cell of table 3: minutes, or the string ['N/L']. *)
Inductive cell : Type :=
| Minutes (z : Z)
| NL.

(** Table 3: depth -> {group: [RNT, ANDL]}. *)
Definition navyTable3 : list (Z * list (string * (cell * cell))) :=
  let m := Minutes in
  [ (10, [("A", (m 39, NL)); ("B", (m 88, NL)); ("C", (m 159, NL)); ("D", (m 279, NL));
          ("E", (NL, NL)); ("F", (NL, NL)); ("G", (NL, NL)); ("H", (NL, NL));
          ("I", (NL, NL)); ("J", (NL, NL)); ("K", (NL, NL))]);
    (20, [("A", (m 18, NL)); ("B", (m 39, NL)); ("C", (m 62, NL)); ("D", (m 88, NL));
          ("E", (m 120, NL)); ("F", (m 159, NL)); ("G", (m 208, NL)); ("H", (m 279, NL));
          ("I", (m 399, NL)); ("J", (NL, NL)); ("K", (NL, NL))]);
    (30, [("A", (m 12, m 193)); ("B", (m 25, m 180)); ("C", (m 39, m 166)); ("D", (m 54, m 151));
          ("E", (m 70, m 135)); ("F", (m 88, m 117)); ("G", (m 109, m 96)); ("H", (m 132, m 73));
          ("I", (m 159, m 46)); ("J", (m 190, m 15)); ("K", (NL, m 0))]);
    (40, [("A", (m 7, m 123)); ("B", (m 17, m 113)); ("C", (m 25, m 105)); ("D", (m 37, m 93));
          ("E", (m 49, m 81)); ("F", (m 61, m 69)); ("G", (m 73, m 57)); ("H", (m 87, m 43));
          ("I", (m 101, m 29)); ("J", (m 116, m 14)); ("K", (m 138, m 0))]);
    (50, [("A", (m 6, m 64)); ("B", (m 13, m 57)); ("C", (m 21, m 49)); ("D", (m 29, m 41));
          ("E", (m 38, m 32)); ("F", (m 47, m 23)); ("G", (m 56, m 14)); ("H", (m 66, m 4));
          ("I", (NL, m 0)); ("J", (NL, m 0)); ("K", (NL, m 0))]);
    (60, [("A", (m 5, m 45)); ("B", (m 11, m 39)); ("C", (m 17, m 33)); ("D", (m 24, m 26));
          ("E", (m 30, m 20)); ("F", (m 36, m 14)); ("G", (m 44, m 6)); ("H", (NL, m 0));
          ("I", (NL, m 0)); ("J", (NL, m 0)); ("K", (NL, m 0))]);
    (70, [("A", (m 4, m 36)); ("B", (m 9, m 31)); ("C", (m 15, m 25)); ("D", (m 20, m 20));
          ("E", (m 26, m 14)); ("F", (m 31, m 9)); ("G", (m 37, m 3)); ("H", (NL, m 0));
          ("I", (NL, m 0)); ("J", (NL, m 0)); ("K", (NL, m 0))]);
    (80, [("A", (m 4, m 26)); ("B", (m 8, m 22)); ("C", (m 13, m 17)); ("D", (m 18, m 12));
          ("E", (m 23, m 7)); ("F", (m 28, m 2)); ("G", (NL, m 0)); ("H", (NL, m 0));
          ("I", (NL, m 0)); ("J", (NL, m 0)); ("K", (NL, m 0))]);
    (90, [("A", (m 3, m 22)); ("B", (m 7, m 18)); ("C", (m 11, m 14)); ("D", (m 16, m 9));
          ("E", (m 20, m 5)); ("F", (m 24, m 1)); ("G", (NL, m 0)); ("H", (NL, m 0));
          ("I", (NL, m 0)); ("J", (NL, m 0)); ("K", (NL, m 0))]);
    (100, [("A", (m 3, m 17)); ("B", (m 7, m 13)); ("C", (m 10, m 10)); ("D", (m 14, m 6));
           ("E", (m 18, m 2)); ("F", (NL, m 0)); ("G", (NL, m 0)); ("H", (NL, m 0));
           ("I", (NL, m 0)); ("J", (NL, m 0)); ("K", (NL, m 0))]);
    (110, [("A", (m 3, m 12)); ("B", (m 6, m 9)); ("C", (m 9, m 6)); ("D", (m 12, m 3));
           ("E", (m 15, m 0)); ("F", (NL, m 0)); ("G", (NL, m 0)); ("H", (NL, m 0));
           ("I", (NL, m 0)); ("J", (NL, m 0)); ("K", (NL, m 0))]);
    (120, [("A", (m 3, m 7)); ("B", (m 6, m 4)); ("C", (m 9, m 1)); ("D", (NL, m 0));
           ("E", (NL, m 0)); ("F", (NL, m 0)); ("G", (NL, m 0)); ("H", (NL, m 0));
           ("I", (NL, m 0)); ("J", (NL, m 0)); ("K", (NL, m 0))]);
    (130, [("A", (m 3, m 2)); ("B", (NL, m 0)); ("C", (NL, m 0)); ("D", (NL, m 0));
           ("E", (NL, m 0)); ("F", (NL, m 0)); ("G", (NL, m 0)); ("H", (NL, m 0));
           ("I", (NL, m 0)); ("J", (NL, m 0)); ("K", (NL, m 0))]) ].

(** ** Property access

    [obj[key]] on an object literal: the value of the own property, or
    [undefined] ([None]).  The literals above list each key once. *)
Fixpoint assoc {K V : Type} (eqb : K -> K -> bool) (key : K) (obj : list (K * V)) : option V :=
  match obj with
  | [] => None
  | (k, v) :: rest => if eqb key k then Some v else assoc eqb key rest
  end.

(** [Object.keys(obj)].  Integer keys come in ascending order and string
    keys in the order they were written; the integer-keyed literals above
    are written in ascending order (see [navyTable1_keys_ascending]), so
    both are the order of the list. *)
Definition keys {K V : Type} (obj : list (K * V)) : list K := map fst obj.

(** The names every object inherits from [Object.prototype]: [obj[name]]
    is a function (or the prototype itself) for these, not [undefined]. *)
Definition inheritedNames : list string :=
  [ "constructor"; "__defineGetter__"; "__defineSetter__"; "hasOwnProperty";
    "__lookupGetter__"; "__lookupSetter__"; "isPrototypeOf"; "propertyIsEnumerable";
    "toString"; "valueOf"; "__proto__"; "toLocaleString" ].

Definition isInherited (name : string) : bool :=
  existsb (String.eqb name) inheritedNames.

(** [times.sort((a, b) => a - b)]: ascending numeric order. *)
Fixpoint insertAscending (x : Z) (l : list Z) : list Z :=
  match l with
  | [] => [x]
  | y :: r => if x <=? y then x :: l else y :: insertAscending x r
  end.

Definition sortAscending (l : list Z) : list Z := fold_right insertAscending [] l.

(** ** Depth normalization *)

(** The loop of [findClosestDepth]: the first depth the argument does not
    exceed, and the fallback -1 after the loop. *)
Fixpoint firstDepthAtLeast (depth : float) (depths : list Z) : Z :=
  match depths with
  | [] => -1
  | d :: rest => if (depth <=? Z2F d)%float then d else firstDepthAtLeast depth rest
  end.

Definition findClosestDepth (depth : float) : Z :=
  let depths := keys navyTable1 in
  let shallowest := nth 0 depths 0 in
  let deepest := last depths 0 in
  if (depth <? Z2F shallowest)%float then shallowest
  else if (Z2F deepest <? depth)%float then -1
  else firstDepthAtLeast depth depths.

(** ** Single dive *)

Record SingleDiveInfo : Type := {
  noDecoLimit : Z;
  pressureGroup : option string;
  isExceeded : bool;
  message : string
}.

(** The loop of [getSingleDiveInfo] over the sorted thresholds: the group
    of the first threshold the bottom time does not exceed, [null] if
    there is none. *)
Fixpoint findPressureGroup (bottomTime : float) (timeGroups : list (Z * string))
    (times : list Z) : option string :=
  match times with
  | [] => None
  | t :: rest =>
      if (bottomTime <=? Z2F t)%float then assoc Z.eqb t timeGroups
      else findPressureGroup bottomTime timeGroups rest
  end.

Definition showGroup (g : option string) : string :=
  match g with Some s => s | None => "null" end.

Definition getSingleDiveInfo (depth bottomTime : float) : SingleDiveInfo :=
  let tableDepth := findClosestDepth depth in
  if tableDepth =? -1 then
    {| noDecoLimit := 0; pressureGroup := None; isExceeded := true;
       message := "Depth exceeds maximum table depth of 130 feet." |}
  else
    (* [findClosestDepth] only returns keys of [navyTable1]
       ([findClosestDepth_key]), so the second branch is never taken *)
    let '(maxNDL, timeGroups) :=
      match assoc Z.eqb tableDepth navyTable1 with
      | Some band => band
      | None => (0, [])
      end in
    if (Z2F maxNDL <? bottomTime)%float then
      {| noDecoLimit := maxNDL; pressureGroup := None; isExceeded := true;
         message := "Bottom time exceeds the no-decompression limit of " ++ showZ maxNDL
                    ++ " minutes for " ++ showZ tableDepth ++ " feet." |}
    else
      let times := sortAscending (keys timeGroups) in
      let pressureGroup := findPressureGroup bottomTime timeGroups times in
      {| noDecoLimit := maxNDL; pressureGroup := pressureGroup; isExceeded := false;
         message := "No-decompression limit: " ++ showZ maxNDL
                    ++ " minutes. Pressure group: " ++ showGroup pressureGroup ++ "." |}.

(** ** Surface interval *)

(** [parseTimeToMinutes]: the first two fields between colons, read as
    numbers; a missing second field is [undefined] and makes the sum
    [NaN].  [None] when a field is outside the fragment of [Number_]. *)
Definition parseTimeToMinutes (timeStr : string) : option float :=
  match split ":" timeStr with
  | hours :: minutes :: _ =>
      match Number_ hours, Number_ minutes with
      | Some h, Some m => Some (h * 60 + m)%float
      | _, _ => None
      end
  | _ => Some nan
  end.

(** The bounds the loop of [getNewPressureGroup] computes for one entry:
    [minMinutes] and [maxMinutes], where a maximum written [--] is
    [Infinity]. *)
Definition rangeBounds (minTime maxTime : string) : option (float * float) :=
  match parseTimeToMinutes minTime,
        (if String.eqb maxTime "--" then Some infinity else parseTimeToMinutes maxTime) with
  | Some minMinutes, Some maxMinutes => Some (minMinutes, maxMinutes)
  | _, _ => None
  end.

(** The test of that loop:
    [surfaceIntervalMinutes >= minMinutes && surfaceIntervalMinutes < maxMinutes]. *)
Definition inRange (surfaceIntervalMinutes : float) (minTime maxTime : string) : option bool :=
  match rangeBounds minTime maxTime with
  | Some (minMinutes, maxMinutes) =>
      Some ((minMinutes <=? surfaceIntervalMinutes)%float
            && (surfaceIntervalMinutes <? maxMinutes)%float)
  | None => None
  end.

(** The loop of [getNewPressureGroup] over the entries of the current
    group, in the order they are written: the first range that holds the
    surface interval decides, and without one the result stays [null]. *)
Fixpoint findNewGroup (surfaceIntervalMinutes : float)
    (entries : list (string * (string * string))) : option (option string) :=
  match entries with
  | [] => Some None
  | (group, (minTime, maxTime)) :: rest =>
      match inRange surfaceIntervalMinutes minTime maxTime with
      | Some true => Some (if String.eqb group "None" then None else Some group)
      | Some false => findNewGroup surfaceIntervalMinutes rest
      | None => None
      end
  end.

(** The entries whose range holds the surface interval (what the loop
    would find without its [break]). *)
Definition matchingRanges (surfaceIntervalMinutes : float)
    (entries : list (string * (string * string))) : list (string * (string * string)) :=
  filter (fun '(_, (minTime, maxTime)) =>
            match inRange surfaceIntervalMinutes minTime maxTime with
            | Some b => b
            | None => false
            end) entries.

(** [getNewPressureGroup].  The outer [option] is [None] only when the
    surface interval is a string outside the fragment of [Number_]; the
    inner one is the returned group or [null].  A current group that
    names an inherited property has no entries to loop over and gives
    [null] like an unknown one. *)
Definition getNewPressureGroup (currentGroup surfaceInterval : string)
    : option (option string) :=
  match assoc String.eqb currentGroup navyTable2 with
  | None => Some None
  | Some entries =>
      match parseTimeToMinutes surfaceInterval with
      | Some surfaceIntervalMinutes => findNewGroup surfaceIntervalMinutes entries
      | None => None
      end
  end.

(** ** Repetitive dive *)

(** The object [getRepetitiveDiveInfo] returns; its [isExceeded] and
    [message] properties are [repIsExceeded] and [repMessage] here. *)
Record RepetitiveDiveInfo : Type := {
  residualNitrogenTime : option cell;
  adjustedNoDecoLimit : option cell;
  repIsExceeded : bool;
  repMessage : string
}.

Definition showCell (c : cell) : string :=
  match c with Minutes z => showZ z | NL => "N/L" end.

Definition isZeroCell (c : cell) : bool :=
  match c with Minutes z => z =? 0 | NL => false end.

Definition isNL (c : cell) : bool :=
  match c with NL => true | Minutes _ => false end.

(** [getRepetitiveDiveInfo]; the pressure group is a string or [null].
    A group that names an inherited property passes the guard and the
    destructuring of a non-iterable value throws. *)
Definition getRepetitiveDiveInfo (pressureGroup : option string) (depth : float)
    : outcome RepetitiveDiveInfo :=
  let tableDepth := findClosestDepth depth in
  let invalid :=
    {| residualNitrogenTime := None; adjustedNoDecoLimit := None; repIsExceeded := true;
       repMessage := "Invalid depth or pressure group for repetitive dive." |} in
  if tableDepth =? -1 then Return invalid
  else
    match assoc Z.eqb tableDepth navyTable3 with
    | None => Return invalid
    | Some row =>
        let name := showGroup pressureGroup in
        match assoc String.eqb name row with
        | None =>
            if isInherited name then Throw "TypeError: not iterable" else Return invalid
        | Some (rnt, andl) =>
            if isNL rnt || isZeroCell andl then
              Return {| residualNitrogenTime := Some rnt; adjustedNoDecoLimit := Some andl;
                        repIsExceeded := true;
                        repMessage := "Repetitive dive not recommended at this depth with current pressure group." |}
            else
              Return {| residualNitrogenTime := Some rnt; adjustedNoDecoLimit := Some andl;
                        repIsExceeded := false;
                        repMessage := "Residual nitrogen time: " ++ showCell rnt
                                      ++ " minutes. Adjusted no-decompression limit: "
                                      ++ showCell andl ++ " minutes." |}
        end
    end.

(** ** Final pressure group *)

(** [getFinalPressureGroup]: [None] only when a time is a number that
    [parseInt] reads through its exponent notation. *)
Definition getFinalPressureGroup (depth : float) (actualBottomTime residualNitrogenTime : jsval)
    : option (option string) :=
  let tableDepth := findClosestDepth depth in
  match parseInt actualBottomTime, parseInt residualNitrogenTime with
  | Some a, Some r =>
      let totalBottomTime := (a + r)%float in
      Some (pressureGroup (getSingleDiveInfo (Z2F tableDepth) totalBottomTime))
  | _, _ => None
  end.

(** ** Nitrox *)

Definition calculateEAD (depth o2Percentage : float) : float :=
  let n2Fraction := ((100 - o2Percentage) / 100)%float in
  ((depth + 10) * (n2Fraction / 0.79) - 10)%float.

Definition calculateActualDepthFromEAD (ead o2Percentage : float) : float :=
  ((((ead + 10) * 0.79) / (1 - (o2Percentage / 100))) - 10)%float.

(** [calculateMOD]; the source defaults [pO2Limit] to 1.4. *)
Definition calculateMOD (o2Percentage pO2Limit : float) : float :=
  let o2Fraction := (o2Percentage / 100)%float in
  let pressure := (pO2Limit / o2Fraction)%float in
  ataToFT pressure.

Definition isNarcosisRisk (depth : float) : bool := (100 <=? depth)%float.

(** ** Minimum surface interval *)

(** [groups.indexOf(x)], counting from [i]. *)
Fixpoint indexOf (x : string) (l : list string) (i : Z) : Z :=
  match l with
  | [] => -1
  | y :: rest => if String.eqb x y then i else indexOf x rest (i + 1)
  end.

(** [calculateMinimumSurfaceInterval]; a group is a string or [null].
    The outer [option] is [None] when a look-up reaches a property
    inherited from [Object.prototype], which the embedding does not
    follow; the inner one is the returned time or [null]. *)
Definition calculateMinimumSurfaceInterval (startGroup targetGroup : option string)
    : option (option string) :=
  match startGroup, targetGroup with
  | Some startGroup, Some targetGroup =>
      if String.eqb startGroup "" || String.eqb targetGroup "" then Some None
      else
        let groups := ["A"; "B"; "C"; "D"; "E"; "F"; "G"; "H"; "I"; "J"; "K"] in
        let startIndex := indexOf startGroup groups 0 in
        let targetIndex := indexOf targetGroup groups 0 in
        if targetIndex <=? startIndex then
          match assoc String.eqb startGroup navyTable2 with
          | Some entries =>
              match assoc String.eqb targetGroup entries with
              | Some (minTime, _) => Some (Some minTime)
              | None => if isInherited targetGroup then None else Some None
              end
          | None => if isInherited startGroup then None else Some None
          end
        else Some None
  | _, _ => Some None
  end.

(** ** Selecting a depth in Nitrox mode *)

(** [Math.round]: the nearest integer, the larger one at a tie; the
    result is computed exactly.  Integers, zeros, infinities and [NaN]
    are returned as they are; a result of zero keeps the sign of the
    argument. *)
Definition Math_round (x : float) : float :=
  match Prim2SF x with
  | S754_finite s m e =>
      if 0 <=? e then x
      else
        let n := ((if s then Z.neg m else Z.pos m) * 2 + 2 ^ (- e)) / 2 ^ (1 - e) in
        if n =? 0 then (if s then (- 0)%float else 0%float) else Z2F n
  | _ => x
  end.

(** The depth a row of the tables shows in Nitrox mode:
    [Math.round(calculateActualDepthFromEAD(d, diveState.nitroxO2))]. *)
Definition nitroxDepthOf (d : Z) (nitroxO2 : float) : float :=
  Math_round (calculateActualDepthFromEAD (Z2F d) nitroxO2).

(** The first loop of [selectDepth]: the first air depth whose Nitrox
    depth is the rounded depth asked for. *)
Fixpoint findExactDepth (depths : list Z) (nitroxO2 actualDepth : float) : option Z :=
  match depths with
  | [] => None
  | d :: rest =>
      if (nitroxDepthOf d nitroxO2 =? Math_round actualDepth)%float then Some d
      else findExactDepth rest nitroxO2 actualDepth
  end.

(** The second loop of [selectDepth].  It assigns [actualDepth] as it
    goes, so each difference is taken from the Nitrox depth chosen so
    far. *)
Fixpoint findNearestDepth (depths : list Z) (nitroxO2 : float)
    (minDiff : float) (airDepth : option Z) (actualDepth : float) : option Z * float :=
  match depths with
  | [] => (airDepth, actualDepth)
  | d :: rest =>
      let nitroxDepth := nitroxDepthOf d nitroxO2 in
      let diff := abs (nitroxDepth - Math_round actualDepth) in
      if (diff <? minDiff)%float
      then findNearestDepth rest nitroxO2 diff (Some d) nitroxDepth
      else findNearestDepth rest nitroxO2 minDiff airDepth actualDepth
  end.

(** The search [selectDepth] makes in Nitrox mode before it tests the
    maximum operating depth: the air depth and the actual depth it goes
    on with. *)
Definition selectDepthSearch (nitroxO2 depth : float) : option Z * float :=
  let depths := sortAscending (keys navyTable1) in
  match findExactDepth depths nitroxO2 depth with
  | Some d => (Some d, depth)
  | None => findNearestDepth depths nitroxO2 infinity None depth
  end.

(** * Definitions for the statements and the proofs *)

(** ** The order and the values of binary64 *)

(** The comparison of two positive finite floats: exponents first, then
    mantissas. *)
Definition lexCompare (e1 : Z) (m1 : positive) (e2 : Z) (m2 : positive) : comparison :=
  match e1 ?= e2 with
  | Lt => Lt
  | Gt => Gt
  | Eq => Pos.compare_cont Eq m1 m2
  end.

Definition SFle (a b : spec_float) : Prop := SFleb a b = true.
Definition SFlt (a b : spec_float) : Prop := SFltb a b = true.

(** Powers of two as real numbers. *)
Definition p2 (e : Z) : R := powerRZ 2 e.

(** The real number a finite float stands for (0 for the others). *)
Definition SF2R (f : spec_float) : R :=
  match f with
  | S754_finite s m e => ((if s then - IZR (Zpos m) else IZR (Zpos m)) * p2 e)%R
  | _ => 0%R
  end.

Definition F2R (x : float) : R := SF2R (Prim2SF x).

Definition magnitude (m : positive) (e : Z) : R := (IZR (Zpos m) * p2 e)%R.

(** Zero or finite: neither [NaN] nor an infinity. *)
Definition finiteSF (f : spec_float) : bool :=
  match f with
  | S754_finite _ _ _ | S754_zero _ => true
  | _ => false
  end.

Definition finite (x : float) : bool := finiteSF (Prim2SF x).

(** One unit in the last place of a number between 1 and 2. *)
Definition eps : R := p2 (-52).

(** [a] is [v] rounded: within [eps] of it, relatively. *)
Definition close (a v : R) : Prop := (Rabs (a - v) <= eps * Rabs v)%R.

(** A value is in the working range when it is between 2^-500 and 2^500:
    a float with such a value is a positive normal number. *)
Definition inRangeR (v : R) : Prop := (p2 (-500) <= v <= p2 500)%R.

(** ** The tables *)

Definition depths : list Z := keys navyTable1.

(** What [getSingleDiveInfo] returns in a band of table 1. *)
Definition singleDiveInBand (tableDepth maxNDL : Z) (timeGroups : list (Z * string))
    (bottomTime : float) : SingleDiveInfo :=
  if (Z2F maxNDL <? bottomTime)%float then
    {| noDecoLimit := maxNDL; pressureGroup := None; isExceeded := true;
       message := "Bottom time exceeds the no-decompression limit of " ++ showZ maxNDL
                  ++ " minutes for " ++ showZ tableDepth ++ " feet." |}
  else
    let pressureGroup := findPressureGroup bottomTime timeGroups (keys timeGroups) in
    {| noDecoLimit := maxNDL; pressureGroup := pressureGroup; isExceeded := false;
       message := "No-decompression limit: " ++ showZ maxNDL
                  ++ " minutes. Pressure group: " ++ showGroup pressureGroup ++ "." |}.

(** The entries of table 1, one by one: a band and one of its
    thresholds. *)
Definition table1Entries : list (Z * Z * Z * string) :=
  flat_map (fun '(depth, (maxNDL, timeGroups)) =>
              map (fun '(t, g) => (depth, maxNDL, t, g)) timeGroups) navyTable1.

(** Equality of two results, decided field by field. *)
Definition sameInfo (a b : SingleDiveInfo) : bool :=
  (noDecoLimit a =? noDecoLimit b)
  && match pressureGroup a, pressureGroup b with
     | Some x, Some y => String.eqb x y
     | None, None => true
     | _, _ => false
     end
  && Bool.eqb (isExceeded a) (isExceeded b)
  && String.eqb (message a) (message b).

(** The group [getSingleDiveInfo] gives a bottom time of 0 in each band:
    the one of the smallest threshold. *)
Definition shallowestGroup (tableDepth : Z) : string :=
  if tableDepth <=? 40 then "A"
  else if tableDepth <=? 110 then "B"
  else if tableDepth <=? 120 then "C"
  else "D".

(** Along [times], the groups the thresholds are mapped to never go back
    in the alphabet. *)
Fixpoint groupsAscending (timeGroups : list (Z * string)) (times : list Z) : bool :=
  match times with
  | [] => true
  | x :: rest =>
      forallb (fun y => match assoc Z.eqb x timeGroups, assoc Z.eqb y timeGroups with
                        | Some gx, Some gy => String.leb gx gy
                        | _, _ => true
                        end) rest
      && groupsAscending timeGroups rest
  end.


(** Every range ends before the ranges written after it begin. *)
Fixpoint rangesDisjoint (entries : list (string * (string * string))) : bool :=
  match entries with
  | [] => true
  | (_, (mn, mx)) :: rest =>
      match rangeBounds mn mx with
      | Some (_, hi) =>
          forallb (fun '(_, (mn', mx')) =>
                     match rangeBounds mn' mx' with
                     | Some (lo', _) => (hi <=? lo')%float
                     | None => false
                     end) rest
          && rangesDisjoint rest
      | None => false
      end
  end.

(** The entries of table 3, one by one. *)
Definition table3Entries : list (Z * string * cell * cell) :=
  flat_map (fun '(depth, row) =>
              map (fun '(group, (rnt, andl)) => (depth, group, rnt, andl)) row) navyTable3.

(** ** More about the tables and the strings *)

(** The pressure groups, A to K. *)
Definition groupLetters : list string :=
  ["A"; "B"; "C"; "D"; "E"; "F"; "G"; "H"; "I"; "J"; "K"].

(** The integers from 0 to [n - 1]. *)
Definition upTo (n : nat) : list Z := map Z.of_nat (seq 0 n).

(** A band whose thresholds all have a group and reach its limit. *)
Definition bandComplete (maxNDL : Z) (timeGroups : list (Z * string)) : bool :=
  negb (is_nan (Z2F maxNDL))
  && forallb (fun x => match assoc Z.eqb x timeGroups with Some _ => true | None => false end)
       (keys timeGroups)
  && existsb (fun x => (Z2F maxNDL <=? Z2F x)%float) (keys timeGroups).

(** A shallower band covers a deeper one when every threshold of the
    deeper band, cut at the limits of the two bands, is matched in the
    shallower band by a threshold at least as long whose group comes no
    later. *)
Definition bandCovers (shallowLimit : Z) (shallow : list (Z * string))
    (deepLimit : Z) (deep : list (Z * string)) : bool :=
  forallb (fun '(x2, g2) =>
             existsb (fun '(x1, g1) =>
                        (Z2F (Z.min (Z.min x2 deepLimit) shallowLimit) <=? Z2F x1)%float
                        && String.leb g1 g2
                        && match assoc Z.eqb x1 shallow with
                           | Some g => String.eqb g g1
                           | None => false
                           end) shallow) deep.

(** The ranges of a starting group are written from the shortest
    interval to the longest and from the latest group to the earliest:
    every range written after another begins no sooner, and its group,
    unless it is [None], comes strictly earlier in the alphabet. *)
Fixpoint orderedRanges (entries : list (string * (string * string))) : bool :=
  match entries with
  | [] => true
  | (g, (mn, mx)) :: rest =>
      match rangeBounds mn mx with
      | Some (lo, _) =>
          forallb (fun '(g', (mn', mx')) =>
                     match rangeBounds mn' mx' with
                     | Some (lo', _) =>
                         (lo <=? lo')%float && (String.eqb g' "None" || negb (String.leb g g'))
                     | None => false
                     end) rest
          && orderedRanges rest
      | None => false
      end
  end.

(** Whether the character [c] occurs in [s]. *)
Fixpoint containsChar (c : ascii) (s : string) : bool :=
  match s with
  | EmptyString => false
  | String x r => Ascii.eqb x c || containsChar c r
  end.

(** Decimal digits only. *)
Fixpoint digitsOnly (s : string) : bool :=
  match s with
  | EmptyString => true
  | String c r => isDigit c && digitsOnly r
  end.

(** A non-empty run of decimal digits. *)
Definition isNumeral (s : string) : bool :=
  match s with EmptyString => false | _ => digitsOnly s end.

(** What [getRepetitiveDiveInfo] returns for a depth or group it does not
    find. *)
Definition invalidRepetitiveDive : RepetitiveDiveInfo :=
  {| residualNitrogenTime := None; adjustedNoDecoLimit := None; repIsExceeded := true;
     repMessage := "Invalid depth or pressure group for repetitive dive." |}.

(** Within a row of table 3, a later group has no shorter residual
    nitrogen time and no longer adjusted limit than an earlier one, and
    is not allowed where the earlier one is not. *)
Definition rowOrdered (row : list (string * (cell * cell))) : bool :=
  forallb (fun '(g1, (rnt1, andl1)) =>
    forallb (fun '(g2, (rnt2, andl2)) =>
      negb (String.leb g1 g2) ||
      ((isNL rnt2 || isZeroCell andl2) ||
       (negb (isNL rnt1 || isZeroCell andl1)
        && match rnt1, rnt2 with
           | Minutes a1, Minutes a2 => a1 <=? a2
           | _, _ => true
           end
        && match andl1, andl2 with
           | Minutes b1, Minutes b2 => b2 <=? b1
           | _, _ => true
           end))) row) row.

(** ** The formulas and the values they are compared with *)

(** The maximum operating depth of a mix with a whole percentage of
    oxygen, at the default limit of 1.4 ATA. *)
Definition modOfPercent (n : Z) : float := calculateMOD (Z2F n) 1.4.

(** The equivalent air depth as a real number:
    (depth + 10) (1 - percentage / 100) / 0.79 - 10. *)
Definition eadFormula (depth o2Percentage : R) : R :=
  ((depth + 10) * ((100 - o2Percentage) / 100) / (79 / 100) - 10)%R.

(** The depth that has a given equivalent air depth, as a real number:
    (ead + 10) 0.79 / (1 - percentage / 100) - 10. *)
Definition actualDepthFormula (ead o2Percentage : R) : R :=
  ((ead + 10) * (79 / 100) / (1 - o2Percentage / 100) - 10)%R.

(** The integer [n] of [roundTo2]: the whole number of hundredths that
    [toFixed(2)] prints for the magnitude of [x]. *)
Definition hundredthsOf (x : float) : Z :=
  match Prim2SF x with
  | S754_finite _ m e =>
      if 0 <=? e then Z.shiftl (Zpos m) e * 100
      else (Zpos m * 200 + 2 ^ (- e)) / 2 ^ (1 - e)
  | _ => 0
  end.

(** Equality of two results of the search, decided by computation. *)
Definition sameSelection (a b : option Z * float) : bool :=
  match fst a, fst b with
  | Some x, Some y => x =? y
  | None, None => true
  | _, _ => false
  end && PrimFloat.Leibniz.eqb (snd a) (snd b).

(** * Properties *)

(** ** The order of binary64

    [<=?] and [<?] on floats are read through their specification on
    [spec_float]: signs first, then exponents, then mantissas. *)

Section FloatOrder.

Ltac close_cmp := intros; split; [congruence | intros [?|?]; congruence].

Lemma lexCompare_trans e1 m1 e2 m2 e3 m3 :
  lexCompare e1 m1 e2 m2 <> Gt -> lexCompare e2 m2 e3 m3 <> Gt ->
  lexCompare e1 m1 e3 m3 <> Gt /\
  (lexCompare e1 m1 e2 m2 = Lt \/ lexCompare e2 m2 e3 m3 = Lt ->
   lexCompare e1 m1 e3 m3 = Lt).
Proof.
  unfold lexCompare.
  change (Pos.compare_cont Eq m1 m2) with (Pos.compare m1 m2).
  change (Pos.compare_cont Eq m2 m3) with (Pos.compare m2 m3).
  change (Pos.compare_cont Eq m1 m3) with (Pos.compare m1 m3).
  destruct (Z.compare_spec e1 e2), (Z.compare_spec e2 e3), (Z.compare_spec e1 e3);
    try lia; try close_cmp;
    destruct (Pos.compare_spec m1 m2), (Pos.compare_spec m2 m3), (Pos.compare_spec m1 m3);
    try lia; try close_cmp.
Qed.

Lemma lexCompare_antisym e1 m1 e2 m2 :
  lexCompare e2 m2 e1 m1 = CompOpp (lexCompare e1 m1 e2 m2).
Proof.
  unfold lexCompare.
  change (Pos.compare_cont Eq m1 m2) with (Pos.compare m1 m2).
  change (Pos.compare_cont Eq m2 m1) with (Pos.compare m2 m1).
  rewrite (Z.compare_antisym e1 e2), (Pos.compare_antisym m1 m2).
  destruct (e1 ?= e2); reflexivity.
Qed.

Lemma SFcompare_finite s1 m1 e1 s2 m2 e2 :
  SFcompare (S754_finite s1 m1 e1) (S754_finite s2 m2 e2) =
  Some (match s1, s2 with
        | true, false => Lt
        | false, true => Gt
        | false, false => lexCompare e1 m1 e2 m2
        | true, true => lexCompare e2 m2 e1 m1
        end).
Proof.
  destruct s1, s2; simpl; try reflexivity.
  rewrite lexCompare_antisym. unfold lexCompare. destruct (e1 ?= e2); reflexivity.
Qed.

Lemma SFle_trans a b c :
  SFle a b -> SFle b c -> SFle a c /\ (SFlt a b \/ SFlt b c -> SFlt a c).
Proof.
  unfold SFle, SFlt, SFleb, SFltb.
  destruct a as [sa|sa| |sa ma ea], b as [sb|sb| |sb mb eb], c as [sc|sc| |sc mc ec];
    rewrite ?SFcompare_finite;
    try (destruct sa); try (destruct sb); try (destruct sc); simpl;
    try close_cmp.
  - intros H1 H2.
    destruct (lexCompare_trans ec mc eb mb ea ma) as [N L].
    + destruct (lexCompare ec mc eb mb); congruence.
    + destruct (lexCompare eb mb ea ma); congruence.
    + split.
      * destruct (lexCompare ec mc ea ma); congruence.
      * intros [E|E]; rewrite L; auto.
        -- right. destruct (lexCompare eb mb ea ma); congruence.
        -- left. destruct (lexCompare ec mc eb mb); congruence.
  - intros H1 H2.
    destruct (lexCompare_trans ea ma eb mb ec mc) as [N L].
    + destruct (lexCompare ea ma eb mb); congruence.
    + destruct (lexCompare eb mb ec mc); congruence.
    + split.
      * destruct (lexCompare ea ma ec mc); congruence.
      * intros [E|E]; rewrite L; auto.
        -- left. destruct (lexCompare ea ma eb mb); congruence.
        -- right. destruct (lexCompare eb mb ec mc); congruence.
Qed.

Lemma SFcompare_antisym a b c :
  SFcompare a b = Some c -> SFcompare b a = Some (CompOpp c).
Proof.
  destruct a as [sa|sa| |sa ma ea], b as [sb|sb| |sb mb eb];
    rewrite ?SFcompare_finite;
    try (destruct sa); try (destruct sb); simpl; intros H; inversion H; try reflexivity;
    rewrite (lexCompare_antisym ea ma eb mb); rewrite ?CompOpp_involutive; reflexivity.
Qed.

Lemma ltb_leb (x y : float) : (x <? y)%float = true -> (x <=? y)%float = true.
Proof.
  rewrite ltb_spec, leb_spec. unfold SFltb, SFleb.
  destruct (SFcompare (Prim2SF x) (Prim2SF y)) as [[]|]; congruence.
Qed.

Lemma leb_trans (x y z : float) :
  (x <=? y)%float = true -> (y <=? z)%float = true -> (x <=? z)%float = true.
Proof.
  rewrite !leb_spec. intros H1 H2. apply (SFle_trans _ _ _ H1 H2).
Qed.

Lemma ltb_leb_trans (x y z : float) :
  (x <? y)%float = true -> (y <=? z)%float = true -> (x <? z)%float = true.
Proof.
  intros H1 H2. pose proof (ltb_leb _ _ H1) as H0.
  rewrite ltb_spec in *. rewrite leb_spec in *.
  apply (SFle_trans _ _ _ H0 H2). left. exact H1.
Qed.

Lemma leb_ltb_trans (x y z : float) :
  (x <=? y)%float = true -> (y <? z)%float = true -> (x <? z)%float = true.
Proof.
  intros H1 H2. pose proof (ltb_leb _ _ H2) as H0.
  rewrite ltb_spec in *. rewrite leb_spec in *.
  apply (SFle_trans _ _ _ H1 H0). right. exact H2.
Qed.

Lemma ltb_not_leb (x y : float) : (x <? y)%float = true -> (y <=? x)%float = false.
Proof.
  rewrite ltb_spec, leb_spec. unfold SFltb, SFleb.
  destruct (SFcompare (Prim2SF x) (Prim2SF y)) as [[]|] eqn:E; try congruence.
  rewrite (SFcompare_antisym _ _ _ E). reflexivity.
Qed.

Lemma leb_not_ltb (x y : float) : (x <=? y)%float = true -> (y <? x)%float = false.
Proof.
  rewrite ltb_spec, leb_spec. unfold SFltb, SFleb.
  destruct (SFcompare (Prim2SF x) (Prim2SF y)) as [[]|] eqn:E; try congruence;
    rewrite (SFcompare_antisym _ _ _ E); reflexivity.
Qed.

End FloatOrder.

(** ** The values of binary64

    The four operations are read through their specification on
    [spec_float]: each computes the exact result and rounds it once.  The
    lemmas below bound that rounding by one unit in the last place, which
    is all the depth formulas need. *)

(** *** Digits *)

(** A mantissa of [d] binary digits lies between 2^(d-1) and 2^d. *)
Lemma digits2_pos_bounds (m : positive) :
  2 ^ (Zpos (digits2_pos m) - 1) <= Zpos m < 2 ^ Zpos (digits2_pos m).
Proof.
  induction m as [m IH|m IH|]; simpl digits2_pos.
  - rewrite Pos2Z.inj_succ.
    replace (Z.succ (Zpos (digits2_pos m)) - 1) with (Zpos (digits2_pos m)) by lia.
    rewrite Z.pow_succ_r by lia.
    assert (E : 2 ^ Zpos (digits2_pos m) = 2 * 2 ^ (Zpos (digits2_pos m) - 1)).
    { rewrite <- Z.pow_succ_r by lia. f_equal. lia. }
    lia.
  - rewrite Pos2Z.inj_succ.
    replace (Z.succ (Zpos (digits2_pos m)) - 1) with (Zpos (digits2_pos m)) by lia.
    rewrite Z.pow_succ_r by lia.
    assert (E : 2 ^ Zpos (digits2_pos m) = 2 * 2 ^ (Zpos (digits2_pos m) - 1)).
    { rewrite <- Z.pow_succ_r by lia. f_equal. lia. }
    lia.
  - simpl. lia.
Qed.

Lemma digits2_pos_unique (m : positive) (k : Z) :
  2 ^ (k - 1) <= Zpos m < 2 ^ k -> Zpos (digits2_pos m) = k.
Proof.
  intros [H1 H2]. pose proof (digits2_pos_bounds m) as [B1 B2].
  assert (K : 0 < k).
  { destruct (Z_lt_le_dec 0 k); [assumption|].
    assert (2 ^ k <= 1).
    { destruct (Z.eq_dec k 0) as [->|]; [simpl; lia|]. rewrite Z.pow_neg_r by lia. lia. }
    lia. }
  destruct (Z_lt_le_dec (Zpos (digits2_pos m)) k) as [L|L].
  - assert (2 ^ Zpos (digits2_pos m) <= 2 ^ (k - 1)) by (apply Z.pow_le_mono_r; lia). lia.
  - destruct (Z_lt_le_dec k (Zpos (digits2_pos m))) as [L'|L']; [|lia].
    assert (2 ^ k <= 2 ^ (Zpos (digits2_pos m) - 1)) by (apply Z.pow_le_mono_r; lia). lia.
Qed.

(** *** Shifting right *)

(** One shift halves the mantissa, whatever the bits it keeps aside. *)
Lemma shr_1_m (mrs : shr_record) :
  0 <= shr_m mrs -> shr_m (shr_1 mrs) = shr_m mrs / 2.
Proof.
  destruct mrs as [m r s]. simpl. intros H.
  destruct m as [|[p|p|]|p]; simpl; try reflexivity; try lia.
  - rewrite Pos2Z.inj_xI. apply Z.div_unique with (r := 1); lia.
  - rewrite Pos2Z.inj_xO. apply Z.div_unique with (r := 0); lia.
Qed.

Lemma pow2_xO (p : positive) : 2 ^ Zpos p~0 = 2 ^ Zpos p * 2 ^ Zpos p.
Proof. rewrite Pos2Z.inj_xO, <- Z.pow_add_r by lia. f_equal. lia. Qed.

Lemma pow2_xI (p : positive) : 2 ^ Zpos p~1 = 2 * (2 ^ Zpos p * 2 ^ Zpos p).
Proof.
  rewrite Pos2Z.inj_xI. replace (2 * Zpos p + 1) with (Z.succ (Zpos p + Zpos p)) by lia.
  rewrite Z.pow_succ_r, Z.pow_add_r by lia. reflexivity.
Qed.

Lemma pow2_pos (n : Z) : 0 <= n -> 0 < 2 ^ n.
Proof. intros. apply Z.pow_pos_nonneg; lia. Qed.

Lemma iter_pos_shr_1_m (p : positive) :
  forall mrs, 0 <= shr_m mrs ->
    shr_m (iter_pos shr_1 p mrs) = shr_m mrs / 2 ^ Zpos p.
Proof.
  induction p as [p IH|p IH|]; intros mrs H; simpl iter_pos.
  - assert (P : 0 < 2 ^ Zpos p) by (apply pow2_pos; lia).
    assert (H1 : 0 <= shr_m (shr_1 mrs)) by (rewrite shr_1_m by assumption; apply Z.div_pos; lia).
    assert (H2 : 0 <= shr_m (iter_pos shr_1 p (shr_1 mrs)))
      by (rewrite IH by assumption; apply Z.div_pos; lia).
    rewrite IH, IH, shr_1_m by assumption.
    rewrite !Z.div_div by lia. rewrite pow2_xI. reflexivity.
  - assert (P : 0 < 2 ^ Zpos p) by (apply pow2_pos; lia).
    assert (H2 : 0 <= shr_m (iter_pos shr_1 p mrs))
      by (rewrite IH by assumption; apply Z.div_pos; lia).
    rewrite IH, IH by assumption.
    rewrite !Z.div_div by lia. rewrite pow2_xO. reflexivity.
  - rewrite shr_1_m by assumption. reflexivity.
Qed.

Lemma round_nearest_even_cases (m : Z) (l : location) :
  round_nearest_even m l = m \/ round_nearest_even m l = m + 1.
Proof. destruct l as [|[]]; simpl; auto. destruct (Z.even m); auto. Qed.

Lemma loc_of_shr_record_of_loc (m : Z) (l : location) :
  loc_of_shr_record (shr_record_of_loc m l) = l.
Proof. destruct l as [|[]]; reflexivity. Qed.

Lemma shr_m_of_loc (m : Z) (l : location) : shr_m (shr_record_of_loc m l) = m.
Proof. destruct l as [|[]]; reflexivity. Qed.

(** *** One rounding *)

Lemma fexp_eq (x : Z) : fexp prec emax x = Z.max (x - 53) (-1074).
Proof. reflexivity. Qed.

Lemma shr_nonpos (mrs : shr_record) (e n : Z) : n <= 0 -> shr mrs e n = (mrs, e).
Proof. destruct n; simpl; try reflexivity. lia. Qed.

Lemma shr_one (mrs : shr_record) (e : Z) : shr mrs e 1 = (shr_1 mrs, e + 1).
Proof. reflexivity. Qed.

(** A mantissa that fits its exponent is left as it is. *)
Lemma binary_round_aux_exact (s : bool) (m : positive) (e : Z) :
  fexp prec emax (Zpos (digits2_pos m) + e) <= e ->
  e <= emax - prec ->
  binary_round_aux prec emax s (Zpos m) e loc_Exact = S754_finite s m e.
Proof.
  intros H1 H2. unfold binary_round_aux, shr_fexp. simpl Zdigits2.
  rewrite shr_nonpos by lia. simpl shr_m. simpl loc_of_shr_record.
  simpl round_nearest_even. simpl Zdigits2.
  rewrite shr_nonpos by lia. simpl shr_m.
  apply Z.leb_le in H2. rewrite H2. reflexivity.
Qed.

Lemma shr_fexp_m (m : positive) (e : Z) (l : location) :
  let d := Zpos (digits2_pos m) in
  53 <= d -> -1074 <= e + d - 53 ->
  exists mrs,
    shr_fexp prec emax (Zpos m) e l = (mrs, e + d - 53) /\
    shr_m mrs = Zpos m / 2 ^ (d - 53).
Proof.
  intros d Hd He. unfold shr_fexp. simpl Zdigits2. fold d. rewrite fexp_eq.
  replace (Z.max (d + e - 53) (-1074) - e) with (d - 53) by lia.
  destruct (d - 53) as [|p|p] eqn:K; try lia.
  - simpl. eexists. split; [f_equal; lia|]. rewrite shr_m_of_loc. now rewrite Z.div_1_r.
  - simpl. eexists. split; [f_equal; lia|].
    rewrite iter_pos_shr_1_m by (rewrite shr_m_of_loc; lia).
    now rewrite shr_m_of_loc.
Qed.

(** A mantissa of 53 digits or more is cut to 53 digits: the result is the
    truncated mantissa or the next one, at the exponent that goes with it. *)
Lemma binary_round_aux_round (s : bool) (m : positive) (e : Z) (l : location) :
  let d := Zpos (digits2_pos m) in
  53 <= d -> -1074 <= e + d - 53 -> d + e < 1024 ->
  exists m' e',
    binary_round_aux prec emax s (Zpos m) e l = S754_finite s m' e' /\
    e + d - 53 <= e' /\
    2 ^ 52 <= Zpos m / 2 ^ (d - 53) /\
    (Zpos m' * 2 ^ (e' - (e + d - 53)) = Zpos m / 2 ^ (d - 53) \/
     Zpos m' * 2 ^ (e' - (e + d - 53)) = Zpos m / 2 ^ (d - 53) + 1).
Proof.
  intros d Hd He Ho.
  destruct (shr_fexp_m m e l Hd He) as [mrs [E1 E2]]. fold d in E1, E2.
  pose proof (digits2_pos_bounds m) as [B1 B2]. fold d in B1, B2.
  set (m0 := Zpos m / 2 ^ (d - 53)) in *.
  assert (P : 0 < 2 ^ (d - 53)) by (apply pow2_pos; lia).
  assert (S : 2 ^ (d - 1) = 2 ^ 52 * 2 ^ (d - 53))
    by (rewrite <- Z.pow_add_r by lia; f_equal; lia).
  assert (T : 2 ^ d = 2 ^ 53 * 2 ^ (d - 53))
    by (rewrite <- Z.pow_add_r by lia; f_equal; lia).
  assert (M0 : 2 ^ 52 <= m0 < 2 ^ 53).
  { unfold m0. split.
    - apply Z.div_le_lower_bound; lia.
    - apply Z.div_lt_upper_bound; lia. }
  unfold binary_round_aux. rewrite E1.
  set (m1 := round_nearest_even (shr_m mrs) (loc_of_shr_record mrs)).
  assert (M1 : m1 = m0 \/ m1 = m0 + 1)
    by (unfold m1; rewrite E2; apply round_nearest_even_cases).
  assert (R : 2 ^ 52 <= m1 <= 2 ^ 53) by lia.
  destruct m1 as [|q|q] eqn:Q; try (exfalso; lia).
  destruct (Z_lt_le_dec (Zpos q) (2 ^ 53)) as [Lq|Lq].
  - assert (D : Zpos (digits2_pos q) = 53) by (apply digits2_pos_unique; lia).
    unfold shr_fexp. simpl Zdigits2. rewrite D, fexp_eq.
    rewrite shr_nonpos by lia. simpl shr_m.
    assert (Le : (e + d - 53 <=? emax - prec) = true) by (apply Z.leb_le; unfold emax, prec; lia).
    rewrite Le. exists q, (e + d - 53).
    split; [reflexivity|]. split; [lia|]. split; [lia|].
    rewrite Z.sub_diag. simpl (2 ^ 0). lia.
  - assert (Eq : Zpos q = 2 ^ 53) by lia.
    assert (D : Zpos (digits2_pos q) = 54) by (apply digits2_pos_unique; lia).
    unfold shr_fexp. simpl Zdigits2. rewrite D, fexp_eq.
    replace (Z.max (54 + (e + d - 53) - 53) (-1074) - (e + d - 53)) with 1 by lia.
    rewrite shr_one, shr_1_m by (rewrite shr_m_of_loc; lia). rewrite shr_m_of_loc, Eq.
    change (2 ^ 53 / 2) with (Zpos (2 ^ 52)).
    assert (Le : (e + d - 53 + 1 <=? emax - prec) = true) by (apply Z.leb_le; unfold emax, prec; lia).
    rewrite Le. exists (2 ^ 52)%positive, (e + d - 53 + 1).
    split; [reflexivity|]. split; [lia|]. split; [lia|].
    replace (e + d - 53 + 1 - (e + d - 53)) with 1 by lia.
    change (Zpos (2 ^ 52) * 2 ^ 1) with (2 ^ 53). lia.
Qed.

(** *** Real values *)

Lemma p2_pos (e : Z) : (0 < p2 e)%R.
Proof. apply powerRZ_lt. lra. Qed.

Lemma p2_add (a b : Z) : p2 (a + b) = (p2 a * p2 b)%R.
Proof. apply powerRZ_add. lra. Qed.

Lemma p2_IZR (n : Z) : 0 <= n -> p2 n = IZR (2 ^ n).
Proof.
  intros H. unfold p2. rewrite <- (Z2Nat.id n H) at 1 2.
  rewrite <- pow_powerRZ. rewrite pow_IZR. reflexivity.
Qed.

Lemma p2_ge_1 (n : Z) : 0 <= n -> (1 <= p2 n)%R.
Proof.
  intros H. rewrite p2_IZR by assumption. apply IZR_le.
  pose proof (pow2_pos n H). lia.
Qed.

Lemma p2_le (a b : Z) : a <= b -> (p2 a <= p2 b)%R.
Proof.
  intros H. replace b with (a + (b - a)) by lia. rewrite p2_add.
  pose proof (p2_pos a). pose proof (p2_ge_1 (b - a)). 
  assert (1 <= p2 (b - a))%R by (apply H1; lia). nra.
Qed.

Lemma p2_lt (a b : Z) : a < b -> (p2 a < p2 b)%R.
Proof.
  intros H. replace b with (a + 1 + (b - a - 1)) by lia. rewrite !p2_add.
  pose proof (p2_pos a). pose proof (p2_ge_1 (b - a - 1)).
  assert (1 <= p2 (b - a - 1))%R by (apply H1; lia).
  assert (p2 1 = 2)%R by (unfold p2; simpl; lra). nra.
Qed.

Lemma p2_lt_inv (a b : Z) : (p2 a < p2 b)%R -> a < b.
Proof.
  intros H. destruct (Z_lt_le_dec a b) as [L|L]; [assumption|].
  pose proof (p2_le b a L). lra.
Qed.

Lemma p2_le_inv (a b : Z) : (p2 a <= p2 b)%R -> a <= b.
Proof.
  intros H. destruct (Z_lt_le_dec b a) as [L|L]; [|assumption].
  pose proof (p2_lt b a L). lra.
Qed.

(** The real value of a rounded mantissa. *)
Lemma round_value (s : bool) (m : positive) (e : Z) (l : location) (v : R) :
  let d := Zpos (digits2_pos m) in
  53 <= d -> -1074 <= e + d - 53 -> d + e < 1024 ->
  (IZR (Zpos m) * p2 e <= v < IZR (Zpos m + 1) * p2 e)%R ->
  exists m' e',
    binary_round_aux prec emax s (Zpos m) e l = S754_finite s m' e' /\
    (Rabs (IZR (Zpos m') * p2 e' - v) <= eps * v)%R.
Proof.
  intros d Hd He Ho Hv.
  destruct (binary_round_aux_round s m e l Hd He Ho) as [m' [e' [E [Le [M0 Hm]]]]].
  fold d in Le, M0, Hm. exists m', e'. split; [exact E|].
  set (k := d - 53) in *. set (m0 := Zpos m / 2 ^ k) in *. set (E0 := e + d - 53) in *.
  assert (P : 0 < 2 ^ k) by (apply pow2_pos; lia).
  assert (V : (IZR (Zpos m') * p2 e' = IZR (Zpos m' * 2 ^ (e' - E0)) * p2 E0)%R).
  { rewrite mult_IZR, <- p2_IZR by lia. rewrite Rmult_assoc, <- p2_add. do 2 f_equal. lia. }
  assert (D1 : m0 * 2 ^ k <= Zpos m) by (unfold m0; pose proof (Z.mul_div_le (Zpos m) (2 ^ k) P); lia).
  assert (D2 : Zpos m + 1 <= (m0 + 1) * 2 ^ k).
  { unfold m0. pose proof (Z.mul_succ_div_gt (Zpos m) (2 ^ k) P). lia. }
  assert (PE2 : (p2 E0 = p2 e * IZR (2 ^ k))%R).
  { rewrite <- p2_IZR by lia. rewrite <- p2_add. f_equal. unfold E0, k. lia. }
  pose proof (p2_pos E0) as PE0. pose proof (p2_pos e) as Pe.
  assert (L1 : (IZR m0 * p2 E0 <= v)%R).
  { apply Rle_trans with (IZR (Zpos m) * p2 e)%R; [|tauto].
    rewrite PE2. apply IZR_le in D1. rewrite mult_IZR in D1. nra. }
  assert (L2 : (v < IZR (m0 + 1) * p2 E0)%R).
  { apply Rlt_le_trans with (IZR (Zpos m + 1) * p2 e)%R; [tauto|].
    rewrite PE2. apply IZR_le in D2. rewrite mult_IZR in D2. nra. }
  assert (L3 : (p2 E0 <= eps * v)%R).
  { unfold eps. assert (A : (p2 52 * p2 E0 <= v)%R).
    { rewrite p2_IZR by lia. apply IZR_le in M0. nra. }
    assert (B : (p2 (-52) * p2 52 = 1)%R) by (rewrite <- p2_add; reflexivity).
    pose proof (p2_pos (-52)). nra. }
  rewrite V. rewrite plus_IZR in L2.
  destruct Hm as [-> | ->]; [|rewrite plus_IZR]; apply Rabs_le; lra.
Qed.

(** A valid finite float has at most 53 digits, and exactly 53 above the
    least exponent. *)
Lemma valid_finite (s : bool) (m : positive) (e : Z) :
  valid_binary (S754_finite s m e) = true ->
  -1074 <= e <= 971 /\ Zpos (digits2_pos m) <= 53 /\
  (-1074 < e -> Zpos (digits2_pos m) = 53).
Proof.
  simpl. unfold bounded, canonical_mantissa. rewrite andb_true_iff, Z.eqb_eq, Z.leb_le, fexp_eq.
  unfold emax, prec. lia.
Qed.

Lemma iter_xO_value (m d : positive) : Zpos (Pos.iter xO m d) = Zpos m * 2 ^ Zpos d.
Proof.
  induction d as [|d IH] using Pos.peano_ind.
  - simpl. lia.
  - rewrite Pos.iter_succ, Pos2Z.inj_xO, IH, Pos2Z.inj_succ, Z.pow_succ_r by lia. lia.
Qed.

Lemma shl_align_value (mx : positive) (ex ex' : Z) :
  snd (shl_align mx ex ex') = Z.min ex ex' /\
  Zpos (fst (shl_align mx ex ex')) = Zpos mx * 2 ^ (ex - Z.min ex ex').
Proof.
  unfold shl_align. destruct (ex' - ex) as [|p|p] eqn:E; simpl.
  - replace (Z.min ex ex') with ex by lia. rewrite Z.sub_diag. simpl. lia.
  - replace (Z.min ex ex') with ex by lia. rewrite Z.sub_diag. simpl. lia.
  - replace (Z.min ex ex') with ex' by lia. split; [reflexivity|].
    rewrite iter_xO_value. replace (ex - ex') with (Zpos p) by lia. reflexivity.
Qed.

(** Rounding an exact value [m * 2^e]. *)
Lemma binary_round_value (s : bool) (m : positive) (e : Z) :
  -1074 <= e -> Zpos (digits2_pos m) + e < 1024 ->
  exists m' e',
    binary_round prec emax s m e = S754_finite s m' e' /\
    (Rabs (IZR (Zpos m') * p2 e' - IZR (Zpos m) * p2 e) <= eps * (IZR (Zpos m) * p2 e))%R.
Proof.
  intros He Ho. unfold binary_round.
  set (d := Zpos (digits2_pos m)) in *.
  pose proof (shl_align_value m e (fexp prec emax (d + e))) as [A1 A2].
  destruct (shl_align m e (fexp prec emax (d + e))) as [mz ez]. cbn [fst snd] in A1, A2.
  pose proof (digits2_pos_bounds m) as [B1 B2]. fold d in B1, B2.
  assert (Dpos : 0 < d) by (unfold d; lia).
  pose proof (p2_pos e) as Pe.
  assert (V0 : (0 < IZR (Zpos m) * p2 e)%R).
  { apply Rmult_lt_0_compat; [apply IZR_lt; lia | exact Pe]. }
  assert (Eps : (0 < eps)%R) by apply p2_pos.
  rewrite fexp_eq in A1, A2.
  destruct (Z_le_gt_dec (Z.max (d + e - 53) (-1074)) e) as [L|G].
  - (* the mantissa fits: the result is exact *)
    assert (Ez : ez = Z.max (d + e - 53) (-1074)) by lia.
    assert (S : 0 <= e - ez) by lia.
    assert (Dz : Zpos (digits2_pos mz) = d + (e - ez)).
    { apply digits2_pos_unique. rewrite A2. replace (Z.min e (Z.max (d + e - 53) (-1074))) with ez by lia.
      assert (P : 0 < 2 ^ (e - ez)) by (apply pow2_pos; lia).
      replace (d + (e - ez) - 1) with (d - 1 + (e - ez)) by lia.
      rewrite !Z.pow_add_r by lia. nia. }
    exists mz, ez. split.
    + apply binary_round_aux_exact.
      * rewrite Dz, fexp_eq. lia.
      * unfold emax, prec. lia.
    + replace (IZR (Zpos mz) * p2 ez)%R with (IZR (Zpos m) * p2 e)%R.
      * rewrite Rminus_diag, Rabs_R0. nra.
      * rewrite A2, mult_IZR. replace (Z.min e (Z.max (d + e - 53) (-1074))) with ez by lia.
        rewrite <- p2_IZR by lia. rewrite Rmult_assoc, <- p2_add. do 2 f_equal. lia.
  - assert (Ez : ez = e) by lia. clear A1. subst ez.
    assert (Mz : mz = m).
    { replace (Z.min e (Z.max (d + e - 53) (-1074))) with e in A2 by lia.
      rewrite Z.sub_diag in A2. change (2 ^ 0) with 1 in A2. lia. }
    subst mz.
    apply round_value; fold d.
    + lia.
    + lia.
    + lia.
    + split; [lra|]. rewrite plus_IZR. nra.
Qed.

(** *** The four operations *)

Lemma eps_pos : (0 < eps)%R.
Proof. apply p2_pos. Qed.

Lemma close_refl (v : R) : close v v.
Proof.
  unfold close. rewrite Rminus_diag, Rabs_R0.
  pose proof eps_pos. pose proof (Rabs_pos v). nra.
Qed.

Lemma binary_normalize_value (z e : Z) :
  -1074 <= e -> (Rabs (IZR z * p2 e) < p2 1023)%R ->
  finiteSF (binary_normalize prec emax z e false) = true /\
  close (SF2R (binary_normalize prec emax z e false)) (IZR z * p2 e).
Proof.
  intros He Hb. pose proof (p2_pos e) as Pe.
  destruct z as [|m|m]; unfold binary_normalize.
  - split; [reflexivity|]. simpl. rewrite Rmult_0_l. apply close_refl.
  - assert (V : (0 < IZR (Zpos m) * p2 e)%R)
      by (apply Rmult_lt_0_compat; [apply IZR_lt; lia | exact Pe]).
    rewrite Rabs_pos_eq in Hb by lra.
    pose proof (digits2_pos_bounds m) as [B1 B2].
    assert (D : Zpos (digits2_pos m) + e < 1024).
    { assert (L : (p2 (Zpos (digits2_pos m) - 1 + e) < p2 1023)%R).
      { rewrite p2_add, p2_IZR by lia. apply IZR_le in B1. nra. }
      apply p2_lt_inv in L. lia. }
    destruct (binary_round_value false m e He D) as [m' [e' [E C]]].
    rewrite E. split; [reflexivity|]. unfold close. simpl.
    rewrite (Rabs_pos_eq (IZR (Zpos m) * p2 e)) by lra. exact C.
  - assert (V : (0 < IZR (Zpos m) * p2 e)%R)
      by (apply Rmult_lt_0_compat; [apply IZR_lt; lia | exact Pe]).
    assert (N : (IZR (Zneg m) * p2 e = - (IZR (Zpos m) * p2 e))%R).
    { change (Zneg m) with (- Zpos m). rewrite opp_IZR. ring. }
    rewrite N, Rabs_Ropp, Rabs_pos_eq in Hb by lra.
    pose proof (digits2_pos_bounds m) as [B1 B2].
    assert (D : Zpos (digits2_pos m) + e < 1024).
    { assert (L : (p2 (Zpos (digits2_pos m) - 1 + e) < p2 1023)%R).
      { rewrite p2_add, p2_IZR by lia. apply IZR_le in B1. nra. }
      apply p2_lt_inv in L. lia. }
    destruct (binary_round_value true m e He D) as [m' [e' [E C]]].
    rewrite E. split; [reflexivity|]. unfold close. simpl.
    rewrite N, Rabs_Ropp, (Rabs_pos_eq (IZR (Zpos m) * p2 e)) by lra.
    replace (- IZR (Zpos m') * p2 e' - - (IZR (Zpos m) * p2 e))%R
      with (- (IZR (Zpos m') * p2 e' - IZR (Zpos m) * p2 e))%R by ring.
    rewrite Rabs_Ropp. exact C.
Qed.

Lemma aligned_value (s : bool) (m : positive) (e ez : Z) :
  ez <= e ->
  (IZR (cond_Zopp s (Zpos (fst (shl_align m e ez)))) * p2 ez = SF2R (S754_finite s m e))%R.
Proof.
  intros H. pose proof (shl_align_value m e ez) as [_ A]. rewrite A.
  replace (Z.min e ez) with ez by lia.
  assert (P : (IZR (Zpos m * 2 ^ (e - ez)) * p2 ez = IZR (Zpos m) * p2 e)%R).
  { rewrite mult_IZR, <- p2_IZR by lia. rewrite Rmult_assoc, <- p2_add. do 2 f_equal. lia. }
  destruct s; cbn [SF2R cond_Zopp]; [rewrite opp_IZR|]; lra.
Qed.

Lemma SFadd_value (x y : spec_float) :
  valid_binary x = true -> valid_binary y = true ->
  finiteSF x = true -> finiteSF y = true ->
  (Rabs (SF2R x + SF2R y) < p2 1023)%R ->
  finiteSF (SF64add x y) = true /\ close (SF2R (SF64add x y)) (SF2R x + SF2R y).
Proof.
  intros Vx Vy Fx Fy Hb.
  destruct x as [sx|sx| |sx mx ex], y as [sy|sy| |sy my ey]; try discriminate.
  - split; [destruct sx, sy; reflexivity|].
    replace (SF2R (SF64add (S754_zero sx) (S754_zero sy))) with 0%R by (destruct sx, sy; reflexivity).
    simpl. rewrite Rplus_0_l. apply close_refl.
  - split; [reflexivity|]. simpl (SF64add _ _). simpl (SF2R (S754_zero _)).
    rewrite Rplus_0_l. apply close_refl.
  - split; [reflexivity|]. simpl (SF64add _ _). simpl (SF2R (S754_zero _)).
    rewrite Rplus_0_r. apply close_refl.
  - apply valid_finite in Vx, Vy.
    unfold SF64add, SFadd.
    rewrite <- (aligned_value sx mx ex (Z.min ex ey)), <- (aligned_value sy my ey (Z.min ex ey)) in * by lia.
    rewrite <- Rmult_plus_distr_r, <- plus_IZR in *.
    apply binary_normalize_value; [lia | exact Hb].
Qed.

Lemma SFsub_value (x y : spec_float) :
  valid_binary x = true -> valid_binary y = true ->
  finiteSF x = true -> finiteSF y = true ->
  (Rabs (SF2R x - SF2R y) < p2 1023)%R ->
  finiteSF (SF64sub x y) = true /\ close (SF2R (SF64sub x y)) (SF2R x - SF2R y).
Proof.
  intros Vx Vy Fx Fy Hb.
  destruct x as [sx|sx| |sx mx ex], y as [sy|sy| |sy my ey]; try discriminate.
  - split; [destruct sx, sy; reflexivity|].
    replace (SF2R (SF64sub (S754_zero sx) (S754_zero sy))) with 0%R by (destruct sx, sy; reflexivity).
    simpl. rewrite Rminus_0_r. apply close_refl.
  - split; [reflexivity|]. simpl (SF64sub _ _).
    replace (SF2R (S754_finite (negb sy) my ey)) with (SF2R (S754_zero sx) - SF2R (S754_finite sy my ey))%R.
    + apply close_refl.
    + simpl. destruct sy; simpl; ring.
  - split; [reflexivity|]. simpl (SF64sub _ _). simpl (SF2R (S754_zero _)).
    rewrite Rminus_0_r. apply close_refl.
  - apply valid_finite in Vx, Vy.
    unfold SF64sub, SFsub.
    rewrite <- (aligned_value sx mx ex (Z.min ex ey)), <- (aligned_value sy my ey (Z.min ex ey)) in * by lia.
    rewrite <- Rmult_minus_distr_r, <- minus_IZR in *.
    apply binary_normalize_value; [lia | exact Hb].
Qed.

Lemma positive_SF (f : spec_float) :
  (0 < SF2R f)%R -> exists m e, f = S754_finite false m e.
Proof.
  destruct f as [s|s| |s m e]; simpl; try lra.
  destruct s; [|now exists m, e].
  intros H. pose proof (p2_pos e). assert (0 < IZR (Zpos m))%R by (apply IZR_lt; lia). nra.
Qed.

Lemma normal_range (m : positive) (e : Z) :
  valid_binary (S754_finite false m e) = true ->
  inRangeR (SF2R (S754_finite false m e)) ->
  2 ^ 52 <= Zpos m < 2 ^ 53 /\ -553 < e <= 448.
Proof.
  intros V [L U]. apply valid_finite in V. destruct V as [V1 [V2 V3]].
  pose proof (digits2_pos_bounds m) as [B1 B2]. cbn [SF2R] in L, U.
  assert (M : Zpos m < 2 ^ 53).
  { apply Z.lt_le_trans with (1 := B2). apply Z.pow_le_mono_r; lia. }
  assert (E1 : -553 < e).
  { assert (A : (p2 (-500) < p2 (53 + e))%R).
    { rewrite p2_add, (p2_IZR 53) by lia. apply IZR_lt in M. pose proof (p2_pos e). nra. }
    apply p2_lt_inv in A. lia. }
  rewrite V3 in B1 by lia.
  assert (E2 : e <= 448).
  { assert (A : (p2 (52 + e) <= p2 500)%R).
    { rewrite p2_add, (p2_IZR 52) by lia. apply IZR_le in B1. pose proof (p2_pos e).
      change (53 - 1) with 52 in B1. nra. }
    apply p2_le_inv in A. lia. }
  change (53 - 1) with 52 in B1. lia.
Qed.

Lemma SFmul_value (x y : spec_float) :
  valid_binary x = true -> valid_binary y = true ->
  inRangeR (SF2R x) -> inRangeR (SF2R y) ->
  finiteSF (SF64mul x y) = true /\ close (SF2R (SF64mul x y)) (SF2R x * SF2R y).
Proof.
  intros Vx Vy Rx Ry.
  assert (Px : (0 < SF2R x)%R) by (destruct Rx; pose proof (p2_pos (-500)); lra).
  assert (Py : (0 < SF2R y)%R) by (destruct Ry; pose proof (p2_pos (-500)); lra).
  destruct (positive_SF x Px) as [mx [ex ->]]. destruct (positive_SF y Py) as [my [ey ->]].
  destruct (normal_range mx ex Vx Rx) as [Mx Ex]. destruct (normal_range my ey Vy Ry) as [My Ey].
  unfold SF64mul, SFmul. cbn [xorb].
  pose proof (digits2_pos_bounds (mx * my)) as [B1 B2].
  set (d := Zpos (digits2_pos (mx * my))) in *.
  assert (MM : 2 ^ 104 <= Zpos (mx * my) < 2 ^ 106).
  { rewrite Pos2Z.inj_mul. change (2 ^ 104) with (2 ^ 52 * 2 ^ 52).
    change (2 ^ 106) with (2 ^ 53 * 2 ^ 53). nia. }
  assert (D : 105 <= d <= 106).
  { split.
    - assert (2 ^ 104 < 2 ^ d) by lia. apply Z.pow_lt_mono_r_iff in H; lia.
    - assert (2 ^ (d - 1) < 2 ^ 106) by lia. apply Z.pow_lt_mono_r_iff in H; lia. }
  assert (V : (IZR (Zpos (mx * my)) * p2 (ex + ey) = SF2R (S754_finite false mx ex) * SF2R (S754_finite false my ey))%R).
  { cbn [SF2R]. rewrite Pos2Z.inj_mul, mult_IZR, p2_add. ring. }
  destruct (round_value false (mx * my) (ex + ey) loc_Exact
              (SF2R (S754_finite false mx ex) * SF2R (S754_finite false my ey)))
    as [m' [e' [E C]]]; fold d; try lia.
  - rewrite <- V. pose proof (p2_pos (ex + ey)). rewrite plus_IZR. split; [lra | nra].
  - rewrite E. split; [reflexivity|]. unfold close.
    rewrite (Rabs_pos_eq (_ * _)) by nra. exact C.
Qed.

Lemma SFdiv_value (x y : spec_float) :
  valid_binary x = true -> valid_binary y = true ->
  inRangeR (SF2R x) -> inRangeR (SF2R y) ->
  finiteSF (SF64div x y) = true /\ close (SF2R (SF64div x y)) (SF2R x / SF2R y).
Proof.
  intros Vx Vy Rx Ry.
  assert (Px : (0 < SF2R x)%R) by (destruct Rx; pose proof (p2_pos (-500)); lra).
  assert (Py : (0 < SF2R y)%R) by (destruct Ry; pose proof (p2_pos (-500)); lra).
  destruct (positive_SF x Px) as [mx [ex ->]]. destruct (positive_SF y Py) as [my [ey ->]].
  destruct (normal_range mx ex Vx Rx) as [Mx Ex]. destruct (normal_range my ey Vy Ry) as [My Ey].
  assert (Dx : Zpos (digits2_pos mx) = 53) by (apply digits2_pos_unique; lia).
  assert (Dy : Zpos (digits2_pos my) = 53) by (apply digits2_pos_unique; lia).
  unfold SF64div, SFdiv, SFdiv_core_binary. cbn [xorb Zdigits2].
  rewrite Dx, Dy, fexp_eq.
  replace (Z.min (Z.max (53 + ex - (53 + ey) - 53) (-1074)) (ex - ey)) with (ex - ey - 53) by lia.
  replace (ex - ey - (ex - ey - 53)) with 53 by lia.
  rewrite Z.shiftl_mul_pow2 by lia.
  pose proof (Z_div_mod (Zpos mx * 2 ^ 53) (Zpos my)) as DM.
  destruct (Z.div_eucl (Zpos mx * 2 ^ 53) (Zpos my)) as [q r].
  destruct DM as [DM1 DM2]; [lia|].
  assert (Q : 2 ^ 52 <= q < 2 ^ 54).
  { change (2 ^ 54) with (2 * 2 ^ 53). change (2 ^ 53) with (2 * 2 ^ 52) in *. nia. }
  destruct q as [|qp|qp]; try lia.
  pose proof (digits2_pos_bounds qp) as [B1 B2].
  set (d := Zpos (digits2_pos qp)) in *.
  assert (D : 53 <= d <= 54).
  { split.
    - assert (2 ^ 52 < 2 ^ d) by lia. apply Z.pow_lt_mono_r_iff in H; lia.
    - assert (2 ^ (d - 1) < 2 ^ 54) by lia. apply Z.pow_lt_mono_r_iff in H; lia. }
  pose proof (p2_pos ex) as Pex. pose proof (p2_pos ey) as Pey.
  pose proof (p2_pos (ex - ey - 53)) as Pe.
  assert (My0 : (0 < IZR (Zpos my))%R) by (apply IZR_lt; lia).
  assert (V : (SF2R (S754_finite false mx ex) / SF2R (S754_finite false my ey)
               = IZR (Zpos mx * 2 ^ 53) / IZR (Zpos my) * p2 (ex - ey - 53))%R).
  { cbn [SF2R]. rewrite mult_IZR, <- (p2_IZR 53) by lia.
    replace (p2 ex) with (p2 (ex - ey - 53) * p2 53 * p2 ey)%R
      by (rewrite <- !p2_add; f_equal; lia).
    pose proof (p2_pos 53). field. split; lra. }
  destruct (round_value false qp (ex - ey - 53) (new_location (Zpos my) r)
              (SF2R (S754_finite false mx ex) / SF2R (S754_finite false my ey)))
    as [m' [e' [E C]]]; fold d; try lia.
  - rewrite V. rewrite DM1, plus_IZR, mult_IZR.
    destruct DM2 as [DM3 DM4]. apply IZR_le in DM3. apply IZR_lt in DM4.
    assert (F : ((IZR (Zpos my) * IZR (Zpos qp) + IZR r) / IZR (Zpos my)
                 = IZR (Zpos qp) + IZR r / IZR (Zpos my))%R) by (field; lra).
    rewrite F, plus_IZR.
    assert (G : (0 <= IZR r / IZR (Zpos my) < 1)%R).
    { split.
      - apply Rmult_le_pos; [exact DM3 | left; now apply Rinv_0_lt_compat].
      - apply Rmult_lt_reg_r with (IZR (Zpos my)); [lra|].
        unfold Rdiv. rewrite Rmult_assoc, Rinv_l by lra. lra. }
    split; nra.
  - rewrite E. split; [reflexivity|]. unfold close.
    rewrite (Rabs_pos_eq (_ / _)); [exact C|].
    left. apply Rdiv_lt_0_compat; assumption.
Qed.

(** *** The order of valid floats is the order of their values *)

Lemma magnitude_pos m e : (0 < magnitude m e)%R.
Proof. apply Rmult_lt_0_compat; [apply IZR_lt; lia | apply p2_pos]. Qed.

Lemma lexCompare_Lt s1 m1 e1 s2 m2 e2 :
  valid_binary (S754_finite s1 m1 e1) = true ->
  valid_binary (S754_finite s2 m2 e2) = true ->
  lexCompare e1 m1 e2 m2 = Lt -> (magnitude m1 e1 < magnitude m2 e2)%R.
Proof.
  intros V1 V2. apply valid_finite in V1, V2.
  destruct V1 as [A1 [A2 A3]], V2 as [C1 [C2 C3]].
  pose proof (digits2_pos_bounds m1) as [B1 B2]. pose proof (digits2_pos_bounds m2) as [D1 D2].
  unfold lexCompare, magnitude.
  change (Pos.compare_cont Eq m1 m2) with (Pos.compare m1 m2).
  destruct (Z.compare_spec e1 e2) as [->|L|L]; try discriminate.
  - destruct (Pos.compare_spec m1 m2) as [|L|]; try discriminate. intros _.
    pose proof (p2_pos e2). assert (IZR (Zpos m1) < IZR (Zpos m2))%R by (apply IZR_lt; lia). nra.
  - intros _. rewrite C3 in D1 by lia. change (53 - 1) with 52 in D1.
    assert (M1 : Zpos m1 < 2 ^ 53).
    { apply Z.lt_le_trans with (1 := B2). apply Z.pow_le_mono_r; lia. }
    apply IZR_lt in M1. apply IZR_le in D1. rewrite <- p2_IZR in M1, D1 by lia.
    pose proof (p2_pos e1). pose proof (p2_pos e2).
    assert (P : (p2 53 * p2 e1 <= p2 52 * p2 e2)%R).
    { rewrite <- !p2_add. apply p2_le. lia. }
    nra.
Qed.

Lemma lexCompare_Eq m1 e1 m2 e2 :
  lexCompare e1 m1 e2 m2 = Eq -> magnitude m1 e1 = magnitude m2 e2.
Proof.
  unfold lexCompare. change (Pos.compare_cont Eq m1 m2) with (Pos.compare m1 m2).
  destruct (Z.compare_spec e1 e2) as [->|L|L]; try discriminate.
  destruct (Pos.compare_spec m1 m2) as [->| |]; try discriminate. reflexivity.
Qed.

Lemma lexCompare_Gt s1 m1 e1 s2 m2 e2 :
  valid_binary (S754_finite s1 m1 e1) = true ->
  valid_binary (S754_finite s2 m2 e2) = true ->
  lexCompare e1 m1 e2 m2 = Gt -> (magnitude m2 e2 < magnitude m1 e1)%R.
Proof.
  intros V1 V2 H. apply (lexCompare_Lt s2 m2 e2 s1 m1 e1 V2 V1).
  rewrite lexCompare_antisym, H. reflexivity.
Qed.

Lemma SF2R_finite s m e :
  SF2R (S754_finite s m e) = (if s then - magnitude m e else magnitude m e)%R.
Proof. unfold magnitude. destruct s; cbn [SF2R]; ring. Qed.

Lemma SFleb_real (a b : spec_float) :
  valid_binary a = true -> valid_binary b = true ->
  finiteSF a = true -> finiteSF b = true ->
  (SFleb a b = true <-> (SF2R a <= SF2R b)%R).
Proof.
  intros Va Vb Fa Fb. unfold SFleb.
  destruct a as [sa|sa| |sa ma ea], b as [sb|sb| |sb mb eb]; try discriminate.
  - simpl. split; [lra | reflexivity].
  - cbn [SFcompare]. rewrite SF2R_finite. cbn [SF2R]. pose proof (magnitude_pos mb eb).
    destruct sb; split; try discriminate; try reflexivity; lra.
  - cbn [SFcompare]. rewrite SF2R_finite. cbn [SF2R]. pose proof (magnitude_pos ma ea).
    destruct sa; split; try discriminate; try reflexivity; lra.
  - rewrite SFcompare_finite, !SF2R_finite.
    pose proof (magnitude_pos ma ea). pose proof (magnitude_pos mb eb).
    destruct sa, sb.
    + destruct (lexCompare eb mb ea ma) eqn:E.
      * apply lexCompare_Eq in E. split; [lra | reflexivity].
      * apply (lexCompare_Lt _ mb eb _ ma ea Vb Va) in E. split; [lra | reflexivity].
      * apply (lexCompare_Gt _ mb eb _ ma ea Vb Va) in E. split; [discriminate | lra].
    + split; [lra | reflexivity].
    + split; [discriminate | lra].
    + destruct (lexCompare ea ma eb mb) eqn:E.
      * apply lexCompare_Eq in E. split; [lra | reflexivity].
      * apply (lexCompare_Lt _ ma ea _ mb eb Va Vb) in E. split; [lra | reflexivity].
      * apply (lexCompare_Gt _ ma ea _ mb eb Va Vb) in E. split; [discriminate | lra].
Qed.

(** *** Primitive floats *)

Lemma finite_between (lo x hi : float) :
  finite lo = true -> finite hi = true ->
  (lo <=? x)%float = true -> (x <=? hi)%float = true -> finite x = true.
Proof.
  unfold finite. rewrite !leb_spec. unfold SFleb.
  destruct (Prim2SF lo) as [| | |], (Prim2SF x) as [|[]| |], (Prim2SF hi) as [| | |];
    simpl; congruence.
Qed.

Lemma leb_real (x y : float) :
  finite x = true -> finite y = true ->
  ((x <=? y)%float = true <-> (F2R x <= F2R y)%R).
Proof.
  intros Fx Fy. rewrite leb_spec. apply SFleb_real; auto using Prim2SF_valid.
Qed.

Lemma add_close (x y : float) :
  finite x = true -> finite y = true ->
  (Rabs (F2R x + F2R y) < p2 1023)%R ->
  finite (x + y) = true /\ close (F2R (x + y)) (F2R x + F2R y).
Proof.
  intros Fx Fy H. unfold finite, F2R. rewrite add_spec.
  apply SFadd_value; auto using Prim2SF_valid.
Qed.

Lemma sub_close (x y : float) :
  finite x = true -> finite y = true ->
  (Rabs (F2R x - F2R y) < p2 1023)%R ->
  finite (x - y) = true /\ close (F2R (x - y)) (F2R x - F2R y).
Proof.
  intros Fx Fy H. unfold finite, F2R. rewrite sub_spec.
  apply SFsub_value; auto using Prim2SF_valid.
Qed.

Lemma mul_close (x y : float) :
  inRangeR (F2R x) -> inRangeR (F2R y) ->
  finite (x * y) = true /\ close (F2R (x * y)) (F2R x * F2R y).
Proof.
  intros Rx Ry. unfold finite, F2R. rewrite mul_spec.
  apply SFmul_value; auto using Prim2SF_valid.
Qed.

Lemma div_close (x y : float) :
  inRangeR (F2R x) -> inRangeR (F2R y) ->
  finite (x / y) = true /\ close (F2R (x / y)) (F2R x / F2R y).
Proof.
  intros Rx Ry. unfold finite, F2R. rewrite div_spec.
  apply SFdiv_value; auto using Prim2SF_valid.
Qed.

Lemma abs_real (x : float) : finite x = true ->
  finite (abs x) = true /\ F2R (abs x) = Rabs (F2R x).
Proof.
  unfold finite, F2R. rewrite abs_spec.
  destruct (Prim2SF x) as [s|s| |s m e]; try discriminate; intros _.
  - split; [reflexivity|]. simpl. now rewrite Rabs_R0.
  - split; [reflexivity|]. cbn [SFabs]. rewrite !SF2R_finite.
    pose proof (magnitude_pos m e). destruct s.
    + rewrite Rabs_Ropp, Rabs_pos_eq; lra.
    + rewrite Rabs_pos_eq; lra.
Qed.

Lemma p2_neg (n : Z) : 0 <= n -> p2 (- n) = (/ IZR (2 ^ n))%R.
Proof.
  intros H. rewrite <- p2_IZR by assumption.
  pose proof (p2_pos n). apply Rmult_eq_reg_r with (p2 n); [|lra].
  rewrite <- p2_add, Rinv_l by lra. replace (- n + n) with 0 by lia. reflexivity.
Qed.

Lemma eps_small : (0 < eps <= 1 / 1000000000000000)%R.
Proof.
  split; [apply eps_pos|]. unfold eps.
  replace (p2 (-52)) with (/ IZR (2 ^ 52))%R by (symmetry; apply (p2_neg 52); lia).
  change (2 ^ 52) with 4503599627370496. lra.
Qed.

Lemma Rabs_le_both (x a : R) : (Rabs x <= a)%R -> (- a <= x <= a)%R.
Proof. unfold Rabs. destruct (Rcase_abs x); lra. Qed.

Lemma close_bound (a v B : R) :
  close a v -> (- B <= v <= B)%R -> (- (eps * B) <= a - v <= eps * B)%R.
Proof.
  unfold close. intros H Hv. pose proof eps_pos.
  assert (Rabs v <= B)%R by (apply Rabs_le; lra).
  apply Rabs_le_both in H. nra.
Qed.

Lemma inRangeR_intro (v : R) : (1 / 4 <= v <= 1024)%R -> inRangeR v.
Proof.
  intros [L U]. unfold inRangeR.
  assert (A : (p2 (-500) <= p2 (-2))%R) by (apply p2_le; lia).
  assert (B : (p2 10 <= p2 500)%R) by (apply p2_le; lia).
  replace (p2 (-2)) with (/ IZR (2 ^ 2))%R in A by (symmetry; apply (p2_neg 2); lia).
  rewrite (p2_IZR 10) in B by lia.
  change (2 ^ 2) with 4 in A. change (2 ^ 10) with 1024 in B. lra.
Qed.

Lemma small_sum (v : R) : (- 2048 <= v <= 2048)%R -> (Rabs v < p2 1023)%R.
Proof.
  intros H. assert (B : (p2 12 <= p2 1023)%R) by (apply p2_le; lia).
  rewrite (p2_IZR 12) in B by lia. change (2 ^ 12) with 4096 in B.
  assert (Rabs v <= 2048)%R by (apply Rabs_le; lra). lra.
Qed.

(** The real value of a float written as a literal. *)
Lemma SF2R_negative_exponent (m : positive) (e : Z) :
  e <= 0 -> SF2R (S754_finite false m e) = (IZR (Zpos m) / IZR (2 ^ (- e)))%R.
Proof.
  intros H. cbn [SF2R]. replace e with (- - e) at 1 by lia. rewrite p2_neg by lia. reflexivity.
Qed.

Ltac literal_value :=
  unfold F2R;
  match goal with
  | |- context [Prim2SF ?x] =>
      let f := eval vm_compute in (Prim2SF x) in
      change (Prim2SF x) with f
  end;
  rewrite SF2R_negative_exponent by lia;
  match goal with
  | |- context [(2 ^ ?n)%Z] => let v := eval vm_compute in (2 ^ n)%Z in change (2 ^ n)%Z with v
  end;
  lra.

Lemma F2R_10 : F2R 10 = 10%R.
Proof. literal_value. Qed.
Lemma F2R_100 : F2R 100 = 100%R.
Proof. literal_value. Qed.
Lemma F2R_1 : F2R 1 = 1%R.
Proof. literal_value. Qed.
Lemma F2R_130 : F2R 130 = 130%R.
Proof. literal_value. Qed.
Lemma F2R_21 : F2R 21 = 21%R.
Proof. literal_value. Qed.
Lemma F2R_50 : F2R 50 = 50%R.
Proof. literal_value. Qed.
Lemma F2R_0 : F2R 0 = 0%R.
Proof. reflexivity. Qed.
Lemma F2R_079 : (7899 / 10000 <= F2R 0.79 <= 7901 / 10000)%R.
Proof. literal_value. Qed.
Lemma F2R_01 : (9 / 100 <= F2R 0.1)%R.
Proof. literal_value. Qed.

Lemma product_bound (u v a b : R) :
  (- a <= u <= a)%R -> (- b <= v <= b)%R -> (- (a * b) <= u * v <= a * b)%R.
Proof. intros Hu Hv. split; nra. Qed.

(** The error of a product of two approximations. *)
Lemma mul_error (x x0 y y0 ex ey bx bY K : R) :
  (- ex <= x - x0 <= ex)%R -> (- ey <= y - y0 <= ey)%R ->
  (- bx <= x0 <= bx)%R -> (- bY <= y <= bY)%R ->
  (ex * bY + bx * ey <= K)%R ->
  (- K <= x * y - x0 * y0 <= K)%R.
Proof.
  intros Hx Hy Hx0 HY HK.
  replace (x * y - x0 * y0)%R with ((x - x0) * y + x0 * (y - y0))%R by ring.
  pose proof (product_bound (x - x0) y ex bY Hx HY).
  pose proof (product_bound x0 (y - y0) bx ey Hx0 Hy). lra.
Qed.

(** The error of a quotient of two approximations. *)
Lemma div_error (u b q0 u0 b0 eu eb bq lo K : R) :
  (q0 * b0 = u0)%R ->
  (- eu <= u - u0 <= eu)%R -> (- eb <= b - b0 <= eb)%R ->
  (- bq <= q0 <= bq)%R -> (0 < lo <= b)%R ->
  (eu + bq * eb <= K * lo)%R ->
  (- K <= u / b - q0 <= K)%R.
Proof.
  intros Hq Hu Hb Hq0 Hlo HK.
  set (x := (u / b)%R).
  assert (X : (x * b = u)%R) by (unfold x; field; lra).
  assert (Y : ((x - q0) * b = (u - u0) - q0 * (b - b0))%R) by (rewrite <- X, <- Hq; ring).
  pose proof (product_bound q0 (b - b0) bq eb Hq0 Hb) as P.
  assert (Z : (- (K * lo) <= (x - q0) * b <= K * lo)%R) by lra.
  assert (K0 : (0 <= K)%R) by nra.
  split.
  - destruct (Rle_lt_dec (- K) (x - q0)) as [|C]; [assumption|]. exfalso. nra.
  - destruct (Rle_lt_dec (x - q0) K) as [|C]; [assumption|]. exfalso. nra.
Qed.

Lemma div_bounds (x y lo hi : R) :
  (0 < y)%R -> (lo * y <= x <= hi * y)%R -> (lo <= x / y <= hi)%R.
Proof.
  intros Hy [L U].
  split; apply Rmult_le_reg_r with y; try lra;
    replace (x / y * y)%R with x by (field; lra); lra.
Qed.

(** ** Property access and the keys of the tables *)

Lemma assoc_In {K V : Type} (eqb : K -> K -> bool) (key : K) (obj : list (K * V)) (v : V) :
  (forall a b, eqb a b = true -> a = b) ->
  assoc eqb key obj = Some v -> In (key, v) obj.
Proof.
  intros Heq. induction obj as [|[k w] rest IH]; simpl; [discriminate|].
  destruct (eqb key k) eqn:E.
  - intros H. inversion H; subst. apply Heq in E. subst. now left.
  - intros H. right. now apply IH.
Qed.

Lemma In_keys_assoc {K V : Type} (eqb : K -> K -> bool) (key : K) (obj : list (K * V)) :
  (forall a, eqb a a = true) ->
  In key (keys obj) -> exists v, assoc eqb key obj = Some v.
Proof.
  intros Hrefl. induction obj as [|[k w] rest IH]; simpl; [tauto|].
  intros [E|H].
  - subst. rewrite Hrefl. now exists w.
  - destruct (eqb key k); [now exists w | now apply IH].
Qed.

(** The keys of table 1 are written in ascending order, which is the
    order [Object.keys] lists integer keys in. *)
Lemma navyTable1_keys_ascending : sortAscending (keys navyTable1) = keys navyTable1.
Proof. reflexivity. Qed.

Lemma depths_eq :
  depths = [10; 15; 20; 25; 30; 35; 40; 50; 60; 70; 80; 90; 100; 110; 120; 130].
Proof. reflexivity. Qed.

(** The thresholds of every band are written in ascending order too, so
    the sort of [getSingleDiveInfo] leaves them in place. *)
Lemma navyTable1_times_ascending :
  forall depth maxNDL timeGroups,
    In (depth, (maxNDL, timeGroups)) navyTable1 ->
    sortAscending (keys timeGroups) = keys timeGroups.
Proof.
  intros depth maxNDL timeGroups H.
  assert (A : forallb (fun '(_, (_, tg)) =>
                if list_eq_dec Z.eq_dec (sortAscending (keys tg)) (keys tg) then true else false)
              navyTable1 = true) by (vm_compute; reflexivity).
  rewrite forallb_forall in A. specialize (A _ H). simpl in A.
  destruct (list_eq_dec Z.eq_dec (sortAscending (keys timeGroups)) (keys timeGroups));
    [assumption | discriminate].
Qed.

(** ** Depth normalization *)

Lemma firstDepthAtLeast_key (depth : float) (l : list Z) :
  firstDepthAtLeast depth l = -1 \/ In (firstDepthAtLeast depth l) l.
Proof.
  induction l as [|d rest IH]; simpl; [now left|].
  destruct (depth <=? Z2F d)%float; [right; now left | destruct IH; auto].
Qed.

(** [findClosestDepth] returns a key of table 1 or -1. *)
Lemma findClosestDepth_key (depth : float) :
  findClosestDepth depth = -1 \/ In (findClosestDepth depth) depths.
Proof.
  unfold findClosestDepth. cbv zeta.
  destruct (depth <? _)%float; [right; simpl; now left|].
  destruct (_ <? depth)%float; [now left|].
  apply firstDepthAtLeast_key.
Qed.

(** On an ascending list the loop returns the least element the depth
    does not exceed, as soon as there is one. *)
Lemma firstDepthAtLeast_least (depth : float) (l : list Z) :
  StronglySorted Z.le l ->
  (exists k, In k l /\ (depth <=? Z2F k)%float = true) ->
  In (firstDepthAtLeast depth l) l /\
  (depth <=? Z2F (firstDepthAtLeast depth l))%float = true /\
  forall k, In k l -> (depth <=? Z2F k)%float = true -> firstDepthAtLeast depth l <= k.
Proof.
  induction 1 as [|d rest Hs IH Hd]; intros [k [Hk Hle]]; [destruct Hk|].
  simpl. destruct (depth <=? Z2F d)%float eqn:E.
  - split; [now left|]. split; [exact E|].
    intros k' [->|Hk'] _; [lia|]. rewrite Forall_forall in Hd. now apply Hd.
  - destruct Hk as [->|Hk]; [congruence|].
    destruct IH as [I1 [I2 I3]]; [now exists k|].
    split; [now right|]. split; [exact I2|].
    intros k' [->|Hk'] Hle'; [congruence | now apply I3].
Qed.

Lemma depths_sorted : StronglySorted Z.le depths.
Proof.
  rewrite depths_eq.
  repeat (apply SSorted_cons; [|repeat (apply Forall_cons; [lia|]); apply Forall_nil]).
  apply SSorted_nil.
Qed.

(** A table depth normalizes to itself. *)
Lemma findClosestDepth_fixed (k : Z) :
  In k depths -> findClosestDepth (Z2F k) = k.
Proof.
  rewrite depths_eq. simpl.
  intros H; repeat (destruct H as [<-|H]; [vm_compute; reflexivity|]); destruct H.
Qed.

(** -1 is no depth of the table: it normalizes to the shallowest band. *)
Lemma findClosestDepth_sentinel : findClosestDepth (Z2F (-1)) = 10.
Proof. vm_compute. reflexivity. Qed.

(** [NaN] fails every comparison and falls through to the fallback. *)
Lemma findClosestDepth_nan : findClosestDepth nan = -1.
Proof. vm_compute. reflexivity. Qed.

(** [getSingleDiveInfo] looks at its depth only through [findClosestDepth]. *)
Lemma getSingleDiveInfo_normalized (depth depth' bottomTime : float) :
  findClosestDepth depth = findClosestDepth depth' ->
  getSingleDiveInfo depth bottomTime = getSingleDiveInfo depth' bottomTime.
Proof. unfold getSingleDiveInfo. intros ->. reflexivity. Qed.

(** (C6) [findClosestDepth] rounds a depth up to the table: for a depth
    of at most 130 ft it returns the smallest depth of table 1 that is not
    below the requested one; below 10 ft that is 10 ft; above 130 ft it
    returns the sentinel -1, on which [getSingleDiveInfo] reports the
    dive as exceeded, with no pressure group, whatever the bottom time. *)
Theorem findClosestDepth_rounds_up (depth : float) :
  ((depth <=? 130)%float = true ->
     In (findClosestDepth depth) depths /\
     (depth <=? Z2F (findClosestDepth depth))%float = true /\
     forall k, In k depths -> (depth <=? Z2F k)%float = true -> findClosestDepth depth <= k) /\
  ((depth <? 10)%float = true -> findClosestDepth depth = 10) /\
  ((130 <? depth)%float = true ->
     findClosestDepth depth = -1 /\
     forall bottomTime,
       isExceeded (getSingleDiveInfo depth bottomTime) = true /\
       pressureGroup (getSingleDiveInfo depth bottomTime) = None /\
       message (getSingleDiveInfo depth bottomTime)
         = "Depth exceeds maximum table depth of 130 feet.").
Proof.
  assert (F : Z2F (nth 0 (keys navyTable1) 0) = 10%float) by (vm_compute; reflexivity).
  assert (L : Z2F (last (keys navyTable1) 0) = 130%float) by (vm_compute; reflexivity).
  assert (Below : (depth <? 10)%float = true -> findClosestDepth depth = 10).
  { intros H. unfold findClosestDepth. cbv zeta. rewrite F, H. reflexivity. }
  assert (Above : (130 <? depth)%float = true -> findClosestDepth depth = -1).
  { intros H. unfold findClosestDepth. cbv zeta. rewrite F, L, H.
    assert (N : (depth <? 10)%float = false).
    { destruct (depth <? 10)%float eqn:E; [|reflexivity].
      assert (C : (130 <? 10)%float = true)
        by (eapply ltb_leb_trans; [exact H | now apply ltb_leb]).
      vm_compute in C. discriminate. }
    rewrite N. reflexivity. }
  split; [|split; [exact Below|]].
  - intros H.
    destruct (depth <? 10)%float eqn:E.
    + rewrite (Below eq_refl). split; [rewrite depths_eq; simpl; now left|].
      split; [change (Z2F 10) with 10%float; now apply ltb_leb|].
      intros k Hk _. rewrite depths_eq in Hk. simpl in Hk.
      repeat (destruct Hk as [<-|Hk]; [lia|]). destruct Hk.
    + assert (R : findClosestDepth depth = firstDepthAtLeast depth depths).
      { unfold findClosestDepth. cbv zeta. rewrite F, L, E.
        rewrite (leb_not_ltb _ _ H). reflexivity. }
      rewrite R. apply firstDepthAtLeast_least; [apply depths_sorted|].
      exists 130. split; [rewrite depths_eq; simpl; tauto | exact H].
  - intros H. split; [now apply Above|].
    intros bottomTime. unfold getSingleDiveInfo. rewrite (Above H). simpl. auto.
Qed.

Lemma findClosestDepth_rounds_up_witness :
  (In (findClosestDepth 12) depths /\
   (12 <=? Z2F (findClosestDepth 12))%float = true /\
   forall k, In k depths -> (12 <=? Z2F k)%float = true -> findClosestDepth 12 <= k) /\
  findClosestDepth 5 = 10 /\
  findClosestDepth 131 = -1.
Proof.
  split; [|split].
  - exact (proj1 (findClosestDepth_rounds_up 12) eq_refl).
  - exact (proj1 (proj2 (findClosestDepth_rounds_up 5)) eq_refl).
  - exact (proj1 (proj2 (proj2 (findClosestDepth_rounds_up 131)) eq_refl)).
Defined.

(** ** Single dive *)

Lemma Z_eqb_true (a b : Z) : (a =? b) = true -> a = b.
Proof. apply Z.eqb_eq. Qed.

Lemma String_eqb_true (a b : string) : String.eqb a b = true -> a = b.
Proof. apply String.eqb_eq. Qed.

(** A depth that normalizes to a key of table 1 is looked up in the band
    of that key. *)
Lemma getSingleDiveInfo_band (depth : float) :
  In (findClosestDepth depth) depths ->
  exists maxNDL timeGroups,
    In (findClosestDepth depth, (maxNDL, timeGroups)) navyTable1 /\
    forall bottomTime,
      getSingleDiveInfo depth bottomTime
        = singleDiveInBand (findClosestDepth depth) maxNDL timeGroups bottomTime.
Proof.
  intros Hk.
  destruct (In_keys_assoc Z.eqb _ navyTable1 Z.eqb_refl Hk) as [[maxNDL timeGroups] Ha].
  exists maxNDL, timeGroups.
  pose proof (assoc_In Z.eqb _ _ _ Z_eqb_true Ha) as Hin.
  split; [exact Hin|]. intros bottomTime.
  unfold getSingleDiveInfo, singleDiveInBand.
  assert (N : (findClosestDepth depth =? -1) = false).
  { apply Z.eqb_neq. intros E. rewrite E, depths_eq in Hk. simpl in Hk.
    repeat (destruct Hk as [Hk|Hk]; [discriminate|]). destruct Hk. }
  rewrite N, Ha, (navyTable1_times_ascending _ _ _ Hin). reflexivity.
Qed.

Lemma table1Entries_In depth maxNDL timeGroups t g :
  In (depth, (maxNDL, timeGroups)) navyTable1 -> In (t, g) timeGroups ->
  In (depth, maxNDL, t, g) table1Entries.
Proof.
  intros H1 H2. unfold table1Entries. apply in_flat_map.
  exists (depth, (maxNDL, timeGroups)). split; [exact H1|].
  apply in_map_iff. exists (t, g). now split.
Qed.

Lemma sameInfo_eq (a b : SingleDiveInfo) : sameInfo a b = true -> a = b.
Proof.
  destruct a as [n1 g1 e1 m1], b as [n2 g2 e2 m2]. unfold sameInfo. simpl.
  rewrite !andb_true_iff. intros [[[Hn Hg] He] Hm].
  apply Z.eqb_eq in Hn. apply Bool.eqb_prop in He. apply String.eqb_eq in Hm. subst.
  destruct g1 as [x|], g2 as [y|]; try discriminate; [|reflexivity].
  apply String.eqb_eq in Hg. now subst.
Qed.











(** (C3, as the code has it) For every depth that normalizes to a band of
    table 1, a bottom time of 0 is within the limit and gets the pressure
    group of the band's smallest threshold: A down to 40 ft, B from 50 to
    110 ft, C at 120 ft and D at 130 ft.  It is never [null]. *)
Theorem getSingleDiveInfo_zero_time (depth : float) :
  findClosestDepth depth <> -1 ->
  isExceeded (getSingleDiveInfo depth 0) = false /\
  (exists maxNDL t g rest,
     In (findClosestDepth depth, (maxNDL, (t, g) :: rest)) navyTable1 /\
     pressureGroup (getSingleDiveInfo depth 0) = Some g) /\
  pressureGroup (getSingleDiveInfo depth 0) = Some (shallowestGroup (findClosestDepth depth)).
Proof.
  intros Hn.
  destruct (findClosestDepth_key depth) as [E|Hk]; [contradiction|].
  rewrite (getSingleDiveInfo_normalized depth (Z2F (findClosestDepth depth)))
    by (symmetry; now apply findClosestDepth_fixed).
  destruct (In_keys_assoc Z.eqb _ navyTable1 Z.eqb_refl Hk) as [[maxNDL timeGroups] Ha].
  pose proof (assoc_In Z.eqb _ _ _ Z_eqb_true Ha) as Hin.
  assert (A : forallb (fun '(d, (_, tg)) =>
                match tg with
                | (_, g) :: _ =>
                    negb (isExceeded (getSingleDiveInfo (Z2F d) 0))
                    && match pressureGroup (getSingleDiveInfo (Z2F d) 0) with
                       | Some g' => String.eqb g' g && String.eqb g' (shallowestGroup d)
                       | None => false
                       end
                | [] => false
                end) navyTable1 = true) by (vm_compute; reflexivity).
  rewrite forallb_forall in A. specialize (A _ Hin). simpl in A.
  destruct timeGroups as [|[t g] rest]; [discriminate|].
  apply andb_true_iff in A. destruct A as [A1 A2].
  apply negb_true_iff in A1.
  destruct (pressureGroup (getSingleDiveInfo (Z2F (findClosestDepth depth)) 0)) as [g'|];
    [|discriminate].
  apply andb_true_iff in A2. destruct A2 as [A2 A3].
  apply String.eqb_eq in A2, A3.
  split; [exact A1|]. split; [|now rewrite A3].
  exists maxNDL, t, g, rest. split; [exact Hin | now rewrite A2].
Qed.

Lemma getSingleDiveInfo_zero_time_witness :
  findClosestDepth 60 <> -1 /\
  isExceeded (getSingleDiveInfo 60 0) = false /\
  pressureGroup (getSingleDiveInfo 60 0) = Some "B".
Proof.
  assert (N : findClosestDepth 60 <> -1) by (vm_compute; discriminate).
  split; [exact N|].
  destruct (getSingleDiveInfo_zero_time 60 N) as [H1 [_ H3]].
  split; [exact H1 | exact H3].
Defined.

(** (C3, as claimed) A bottom time of 0 does not give [null]: at 60 ft it
    gives group B. *)
Lemma getSingleDiveInfo_zero_time_not_null :
  ~ (forall depth, findClosestDepth depth <> -1 ->
       pressureGroup (getSingleDiveInfo depth 0) = None).
Proof.
  intros H. specialize (H 60%float). vm_compute in H.
  assert (C : Some "B" = @None string) by (apply H; discriminate).
  discriminate C.
Qed.

(** ** Monotonicity in the bottom time *)

Lemma String_leb_refl (s : string) : String.leb s s = true.
Proof. destruct (String.leb_total s s); assumption. Qed.

Lemma findPressureGroup_some (bottomTime : float) timeGroups times g :
  findPressureGroup bottomTime timeGroups times = Some g ->
  exists y, In y times /\ assoc Z.eqb y timeGroups = Some g.
Proof.
  induction times as [|x rest IH]; simpl; [discriminate|].
  destruct (bottomTime <=? Z2F x)%float.
  - intros H. exists x. split; [now left | exact H].
  - intros H. destruct (IH H) as [y [Hy Ha]]. exists y. split; [now right | exact Ha].
Qed.

Lemma findPressureGroup_monotone (t1 t2 : float) timeGroups times g1 g2 :
  groupsAscending timeGroups times = true ->
  (t1 <=? t2)%float = true ->
  findPressureGroup t1 timeGroups times = Some g1 ->
  findPressureGroup t2 timeGroups times = Some g2 ->
  String.leb g1 g2 = true.
Proof.
  intros Hasc Hle. induction times as [|x rest IH]; simpl; [discriminate|].
  simpl in Hasc. apply andb_true_iff in Hasc. destruct Hasc as [Hx Hrest].
  destruct (t2 <=? Z2F x)%float eqn:E2.
  - rewrite (leb_trans _ _ _ Hle E2). intros H1 H2.
    rewrite H1 in H2. inversion H2. apply String_leb_refl.
  - destruct (t1 <=? Z2F x)%float eqn:E1.
    + intros H1 H2. destruct (findPressureGroup_some _ _ _ _ H2) as [y [Hy Ha]].
      rewrite forallb_forall in Hx. specialize (Hx _ Hy). now rewrite H1, Ha in Hx.
    + now apply IH.
Qed.

Lemma navyTable1_groups_ascending depth maxNDL timeGroups :
  In (depth, (maxNDL, timeGroups)) navyTable1 ->
  groupsAscending timeGroups (keys timeGroups) = true.
Proof.
  intros H.
  assert (A : forallb (fun '(_, (_, tg)) => groupsAscending tg (keys tg)) navyTable1 = true)
    by (vm_compute; reflexivity).
  rewrite forallb_forall in A. exact (A _ H).
Qed.

(** (C7) [getSingleDiveInfo] is monotone in the bottom time at every
    depth: when the bottom time grows, a pressure group that is returned
    never comes earlier in the alphabet than one returned before, and a
    dive that is exceeded stays exceeded. *)
Theorem getSingleDiveInfo_monotone (depth t1 t2 : float) :
  (t1 <=? t2)%float = true ->
  (forall g1 g2,
     pressureGroup (getSingleDiveInfo depth t1) = Some g1 ->
     pressureGroup (getSingleDiveInfo depth t2) = Some g2 ->
     String.leb g1 g2 = true) /\
  (isExceeded (getSingleDiveInfo depth t1) = true ->
   isExceeded (getSingleDiveInfo depth t2) = true).
Proof.
  intros Hle.
  destruct (findClosestDepth_key depth) as [E|Hk].
  - unfold getSingleDiveInfo. rewrite E. simpl. split; [discriminate | reflexivity].
  - destruct (getSingleDiveInfo_band depth Hk) as [maxNDL [timeGroups [Hin Hband]]].
    rewrite !Hband. unfold singleDiveInBand.
    destruct (Z2F maxNDL <? t1)%float eqn:X1.
    + rewrite (ltb_leb_trans _ _ _ X1 Hle). simpl. split; [discriminate | reflexivity].
    + destruct (Z2F maxNDL <? t2)%float eqn:X2; simpl; (split; [|auto]).
      * discriminate.
      * intros g1 g2. apply findPressureGroup_monotone; [|exact Hle].
        now apply (navyTable1_groups_ascending _ _ _ Hin).
Qed.

Lemma getSingleDiveInfo_monotone_witness :
  (20 <=? 45)%float = true /\
  pressureGroup (getSingleDiveInfo 60 20) = Some "D" /\
  pressureGroup (getSingleDiveInfo 60 45) = Some "H" /\
  String.leb "D" "H" = true /\
  (isExceeded (getSingleDiveInfo 60 20) = true -> isExceeded (getSingleDiveInfo 60 45) = true).
Proof.
  pose proof (getSingleDiveInfo_monotone 60 20 45 eq_refl) as [H1 H2].
  split; [reflexivity|]. split; [reflexivity|]. split; [reflexivity|].
  split; [apply H1; reflexivity | exact H2].
Defined.

(** ** Final pressure group *)


(** Beyond the table [findClosestDepth] gives -1, and
    [getFinalPressureGroup] hands that -1 to [getSingleDiveInfo] as a
    depth: the dive is looked up in the 10 ft band. *)
Lemma getFinalPressureGroup_beyond_table (depth : float) (actualBottomTime residualNitrogenTime : jsval)
    (a r : float) :
  findClosestDepth depth = -1 ->
  parseInt actualBottomTime = Some a ->
  parseInt residualNitrogenTime = Some r ->
  getFinalPressureGroup depth actualBottomTime residualNitrogenTime
    = Some (pressureGroup (getSingleDiveInfo 10 (a + r)%float)) /\
  pressureGroup (getSingleDiveInfo depth (a + r)%float) = None.
Proof.
  intros E Ha Hr. unfold getFinalPressureGroup. rewrite Ha, Hr, E. split.
  - rewrite (getSingleDiveInfo_normalized (Z2F (-1)) 10) by (vm_compute; reflexivity).
    reflexivity.
  - unfold getSingleDiveInfo. rewrite E. reflexivity.
Qed.


(** The click handler calls [getFinalPressureGroup] only in the branch
    where [getRepetitiveDiveInfo] has not reported the dive as exceeded,
    and that never happens for a depth beyond the table. *)
Lemma getRepetitiveDiveInfo_allowed_within_table (group : option string) (depth : float)
    (info : RepetitiveDiveInfo) :
  getRepetitiveDiveInfo group depth = Return info ->
  repIsExceeded info = false ->
  findClosestDepth depth <> -1.
Proof.
  intros H E C. unfold getRepetitiveDiveInfo in H. cbv zeta in H.
  rewrite C in H. cbn [Z.eqb] in H. simpl in H.
  inversion H; subst info. discriminate E.
Qed.




(** ** Surface interval *)

Lemma navyTable2_assoc (currentGroup : string) entries :
  assoc String.eqb currentGroup navyTable2 = Some entries ->
  In (currentGroup, entries) navyTable2.
Proof. apply assoc_In. exact String_eqb_true. Qed.

Lemma navyTable2_known (currentGroup : string) :
  In currentGroup (keys navyTable2) ->
  exists entries, assoc String.eqb currentGroup navyTable2 = Some entries.
Proof. apply In_keys_assoc. exact String.eqb_refl. Qed.

(** The loop returns the group of the first matching range. *)
Lemma findNewGroup_first_match (t : float) entries :
  forallb (fun '(_, (mn, mx)) => match rangeBounds mn mx with Some _ => true | None => false end)
          entries = true ->
  findNewGroup t entries =
    Some match matchingRanges t entries with
         | (group, _) :: _ => if String.eqb group "None" then None else Some group
         | [] => None
         end.
Proof.
  induction entries as [|[g [mn mx]] rest IH]; simpl; [reflexivity|].
  unfold inRange. destruct (rangeBounds mn mx) as [[lo hi]|]; [|discriminate].
  simpl. intros H. destruct ((lo <=? t)%float && (t <? hi)%float); [reflexivity | now apply IH].
Qed.

Lemma matchingRanges_none_after (t lo hi : float) rest :
  (lo <=? t)%float && (t <? hi)%float = true ->
  forallb (fun '(_, (mn', mx')) =>
             match rangeBounds mn' mx' with
             | Some (lo', _) => (hi <=? lo')%float
             | None => false
             end) rest = true ->
  matchingRanges t rest = [].
Proof.
  intros Hin. apply andb_true_iff in Hin. destruct Hin as [_ Hlt].
  induction rest as [|[g [mn mx]] rest IH]; simpl; [reflexivity|].
  unfold inRange. destruct (rangeBounds mn mx) as [[lo' hi']|]; [|discriminate].
  intros H. apply andb_true_iff in H. destruct H as [H1 H2].
  destruct (lo' <=? t)%float eqn:E.
  - pose proof (leb_trans _ _ _ H1 E) as C. apply leb_not_ltb in C. congruence.
  - simpl. now apply IH.
Qed.

Lemma rangesDisjoint_at_most_one (t : float) entries :
  rangesDisjoint entries = true -> (List.length (matchingRanges t entries) <= 1)%nat.
Proof.
  induction entries as [|[g [mn mx]] rest IH]; simpl; [lia|].
  unfold inRange. destruct (rangeBounds mn mx) as [[lo hi]|]; [|discriminate].
  intros H. apply andb_true_iff in H. destruct H as [H1 H2].
  destruct ((lo <=? t)%float && (t <? hi)%float) eqn:E.
  - simpl. fold (matchingRanges t rest).
    rewrite (matchingRanges_none_after _ _ _ _ E H1). simpl. lia.
  - now apply IH.
Qed.

(** No surface interval is in two ranges of a group of table 2. *)
Lemma matchingRanges_at_most_one (currentGroup : string) entries (t : float) :
  assoc String.eqb currentGroup navyTable2 = Some entries ->
  (List.length (matchingRanges t entries) <= 1)%nat.
Proof.
  intros H. apply navyTable2_assoc in H.
  assert (A : forallb (fun '(_, entries) => rangesDisjoint entries) navyTable2 = true)
    by (vm_compute; reflexivity).
  rewrite forallb_forall in A. apply rangesDisjoint_at_most_one. exact (A _ H).
Qed.

(** The maximum written for a range is not in that range, nor in any
    other: at every finite maximum of table 2 the result is [null]. *)
Lemma getNewPressureGroup_at_written_maximum (currentGroup : string) entries group minTime maxTime :
  assoc String.eqb currentGroup navyTable2 = Some entries ->
  In (group, (minTime, maxTime)) entries ->
  maxTime <> "--" ->
  exists t, parseTimeToMinutes maxTime = Some t /\
            matchingRanges t entries = [] /\
            getNewPressureGroup currentGroup maxTime = Some None.
Proof.
  intros H Hin Hne. apply navyTable2_assoc in H.
  assert (A : forallb (fun '(g, entries) =>
                forallb (fun '(_, (_, mx)) =>
                   String.eqb mx "--" ||
                   match parseTimeToMinutes mx, getNewPressureGroup g mx with
                   | Some t, Some None =>
                       match matchingRanges t entries with [] => true | _ => false end
                   | _, _ => false
                   end) entries) navyTable2 = true) by (vm_compute; reflexivity).
  rewrite forallb_forall in A. specialize (A _ H). simpl in A.
  rewrite forallb_forall in A. specialize (A _ Hin). simpl in A.
  apply orb_true_iff in A. destruct A as [A|A]; [apply String.eqb_eq in A; contradiction|].
  destruct (parseTimeToMinutes maxTime) as [t|]; [|discriminate].
  destruct (getNewPressureGroup currentGroup maxTime) as [[g|]|]; try discriminate.
  exists t. destruct (matchingRanges t entries); [auto | discriminate].
Qed.

(** From group K, 0:29 is the first minute of group J. *)
Example getNewPressureGroup_K_29_minutes : getNewPressureGroup "K" "0:29" = Some (Some "J").
Proof. vm_compute. reflexivity. Qed.

(** (C1) Starting from group K, a surface interval of 0:28, which is at
    least 10 minutes, is in no range of table 2: [K] ends before 28 and
    [J] begins at 29.  [getNewPressureGroup] returns [null] for it. *)
Theorem getNewPressureGroup_K_28_minutes :
  parseTimeToMinutes "0:28" = Some 28%float /\
  (10 <=? 28)%float = true /\
  (exists entries,
     assoc String.eqb "K" navyTable2 = Some entries /\
     matchingRanges 28 entries = []) /\
  getNewPressureGroup "K" "0:28" = Some None.
Proof.
  split; [vm_compute; reflexivity|]. split; [reflexivity|]. split.
  - eexists. split; [reflexivity | vm_compute; reflexivity].
  - vm_compute. reflexivity.
Qed.

Lemma findNewGroup_below_minimum (t : float) entries :
  forallb (fun '(_, (mn, mx)) =>
             match rangeBounds mn mx with
             | Some (lo, _) => (10 <=? lo)%float
             | None => false
             end) entries = true ->
  (t <? 10)%float = true ->
  findNewGroup t entries = Some None.
Proof.
  intros H Ht. induction entries as [|[g [mn mx]] rest IH]; simpl; [reflexivity|].
  simpl in H. unfold inRange. destruct (rangeBounds mn mx) as [[lo hi]|]; [|discriminate].
  apply andb_true_iff in H. destruct H as [H1 H2].
  destruct (lo <=? t)%float eqn:E.
  - pose proof (leb_trans _ _ _ H1 E) as C. apply leb_not_ltb in C. congruence.
  - simpl. now apply IH.
Qed.

Lemma findNewGroup_from_12_hours (t : float) entries :
  forallb (fun '(g, (mn, mx)) =>
             match rangeBounds mn mx with
             | Some (_, hi) => String.eqb g "None" || (hi <=? 720)%float
             | None => false
             end) entries = true ->
  (720 <=? t)%float = true ->
  findNewGroup t entries = Some None.
Proof.
  intros H Ht. induction entries as [|[g [mn mx]] rest IH]; simpl; [reflexivity|].
  simpl in H. unfold inRange. destruct (rangeBounds mn mx) as [[lo hi]|]; [|discriminate].
  apply andb_true_iff in H. destruct H as [H1 H2].
  destruct ((lo <=? t)%float && (t <? hi)%float) eqn:E; [|now apply IH].
  apply orb_true_iff in H1. destruct H1 as [H1|H1]; [now rewrite H1|].
  apply andb_true_iff in E. destruct E as [_ E].
  pose proof (leb_trans _ _ _ H1 Ht) as C. apply leb_not_ltb in C. congruence.
Qed.

Lemma assoc_not_In {V : Type} (key : string) (obj : list (string * V)) :
  ~ In key (keys obj) -> assoc String.eqb key obj = None.
Proof.
  induction obj as [|[k v] rest IH]; simpl; [reflexivity|].
  intros H. destruct (String.eqb key k) eqn:E.
  - apply String.eqb_eq in E. subst. exfalso. apply H. now left.
  - apply IH. intros C. apply H. now right.
Qed.

(** (C10) For a starting group of table 2, a surface interval that parses
    to fewer than 10 minutes gives [null]; so does a starting group that
    is not in the table, whatever the interval; and so does, for a
    starting group of the table, an interval of 12 hours or more (the
    [None] range).  The three outcomes are the same value. *)
Theorem getNewPressureGroup_null_outcomes :
  (forall currentGroup surfaceInterval t,
     In currentGroup (keys navyTable2) ->
     parseTimeToMinutes surfaceInterval = Some t ->
     (t <? 10)%float = true ->
     getNewPressureGroup currentGroup surfaceInterval = Some None) /\
  (forall currentGroup surfaceInterval,
     ~ In currentGroup (keys navyTable2) ->
     getNewPressureGroup currentGroup surfaceInterval = Some None) /\
  (forall currentGroup surfaceInterval t,
     In currentGroup (keys navyTable2) ->
     parseTimeToMinutes surfaceInterval = Some t ->
     (720 <=? t)%float = true ->
     getNewPressureGroup currentGroup surfaceInterval = Some None).
Proof.
  split; [|split].
  - intros g s t Hg Hp Ht. destruct (navyTable2_known g Hg) as [entries Ha].
    unfold getNewPressureGroup. rewrite Ha, Hp.
    apply findNewGroup_below_minimum; [|exact Ht].
    assert (A : forallb (fun '(_, entries) =>
                  forallb (fun '(_, (mn, mx)) =>
                             match rangeBounds mn mx with
                             | Some (lo, _) => (10 <=? lo)%float
                             | None => false
                             end) entries) navyTable2 = true) by (vm_compute; reflexivity).
    rewrite forallb_forall in A. exact (A _ (navyTable2_assoc _ _ Ha)).
  - intros g s Hg. unfold getNewPressureGroup. now rewrite (assoc_not_In g navyTable2 Hg).
  - intros g s t Hg Hp Ht. destruct (navyTable2_known g Hg) as [entries Ha].
    unfold getNewPressureGroup. rewrite Ha, Hp.
    apply findNewGroup_from_12_hours; [|exact Ht].
    assert (A : forallb (fun '(_, entries) =>
                  forallb (fun '(g, (mn, mx)) =>
                             match rangeBounds mn mx with
                             | Some (_, hi) => String.eqb g "None" || (hi <=? 720)%float
                             | None => false
                             end) entries) navyTable2 = true) by (vm_compute; reflexivity).
    rewrite forallb_forall in A. exact (A _ (navyTable2_assoc _ _ Ha)).
Qed.

Lemma getNewPressureGroup_null_outcomes_witness :
  (In "K" (keys navyTable2) /\ parseTimeToMinutes "0:09" = Some 9%float /\
   (9 <? 10)%float = true /\ getNewPressureGroup "K" "0:09" = Some None) /\
  (~ In "Z" (keys navyTable2) /\ getNewPressureGroup "Z" "0:30" = Some None) /\
  (In "K" (keys navyTable2) /\ parseTimeToMinutes "12:00" = Some 720%float /\
   (720 <=? 720)%float = true /\ getNewPressureGroup "K" "12:00" = Some None).
Proof.
  assert (K : In "K" (keys navyTable2)) by (simpl; tauto).
  assert (Z : ~ In "Z" (keys navyTable2)).
  { simpl. intros H. repeat (destruct H as [H|H]; [discriminate|]). exact H. }
  assert (P9 : parseTimeToMinutes "0:09" = Some 9%float) by (vm_compute; reflexivity).
  assert (P720 : parseTimeToMinutes "12:00" = Some 720%float) by (vm_compute; reflexivity).
  destruct getNewPressureGroup_null_outcomes as [H1 [H2 H3]].
  split; [|split].
  - split; [exact K|]. split; [exact P9|]. split; [reflexivity|].
    exact (H1 "K" "0:09" 9%float K P9 eq_refl).
  - split; [exact Z|]. exact (H2 "Z" "0:30" Z).
  - split; [exact K|]. split; [exact P720|]. split; [reflexivity|].
    exact (H3 "K" "12:00" 720%float K P720 eq_refl).
Defined.

(** ** Residual nitrogen *)

Lemma table3Entries_In depth row group rnt andl :
  In (depth, row) navyTable3 -> In (group, (rnt, andl)) row ->
  In (depth, group, rnt, andl) table3Entries.
Proof.
  intros H1 H2. unfold table3Entries. apply in_flat_map.
  exists (depth, row). split; [exact H1|].
  apply in_map_iff. exists (group, (rnt, andl)). now split.
Qed.

(** (C4, as the code has it) Wherever table 3 has ['N/L'] for the
    residual nitrogen time, the adjusted limit is 0 in the bands from
    30 ft on, and is ['N/L'] itself in the 10 ft and 20 ft bands. *)
Theorem navyTable3_not_allowed_limit depth row group rnt andl :
  In (depth, row) navyTable3 ->
  In (group, (rnt, andl)) row ->
  rnt = NL ->
  (30 <= depth /\ andl = Minutes 0) \/ (depth <= 20 /\ andl = NL).
Proof.
  intros H1 H2 ->.
  assert (A : forallb (fun '(d, _, rnt, andl) =>
                negb (isNL rnt) ||
                match andl with
                | Minutes z => (30 <=? d) && (z =? 0)
                | NL => d <=? 20
                end) table3Entries = true) by (vm_compute; reflexivity).
  rewrite forallb_forall in A.
  specialize (A _ (table3Entries_In _ _ _ _ _ H1 H2)). simpl in A.
  destruct andl as [z|].
  - apply andb_true_iff in A. destruct A as [A1 A2].
    apply Z.leb_le in A1. apply Z.eqb_eq in A2. subst. now left.
  - apply Z.leb_le in A. now right.
Qed.

Lemma navyTable3_not_allowed_limit_witness :
  (30 <= 60 /\ Minutes 0 = Minutes 0) \/ (60 <= 20 /\ Minutes 0 = NL).
Proof.
  refine (navyTable3_not_allowed_limit 60
            [("A", (Minutes 5, Minutes 45)); ("B", (Minutes 11, Minutes 39));
             ("C", (Minutes 17, Minutes 33)); ("D", (Minutes 24, Minutes 26));
             ("E", (Minutes 30, Minutes 20)); ("F", (Minutes 36, Minutes 14));
             ("G", (Minutes 44, Minutes 6)); ("H", (NL, Minutes 0));
             ("I", (NL, Minutes 0)); ("J", (NL, Minutes 0)); ("K", (NL, Minutes 0))]
            "H" NL (Minutes 0) _ _ _).
  - simpl. tauto.
  - simpl. tauto.
  - reflexivity.
Defined.

(** (C4, as claimed) Group E at 10 ft has ['N/L'] in both cells: the
    adjusted limit of a not-allowed entry is not always 0. *)
Lemma navyTable3_not_allowed_limit_not_zero :
  ~ (forall depth row group rnt andl,
       In (depth, row) navyTable3 -> In (group, (rnt, andl)) row ->
       rnt = NL -> andl = Minutes 0).
Proof.
  intros H.
  assert (C : NL = Minutes 0).
  { refine (H 10 _ "E" NL NL _ _ eq_refl).
    - simpl. left. reflexivity.
    - simpl. tauto. }
  discriminate C.
Qed.

(** A repetitive dive to 30 ft in group D: 54 minutes of residual
    nitrogen and an adjusted limit of 151 minutes. *)
Example getRepetitiveDiveInfo_D_30ft :
  getRepetitiveDiveInfo (Some "D") 30 =
    Return {| residualNitrogenTime := Some (Minutes 54);
              adjustedNoDecoLimit := Some (Minutes 151);
              repIsExceeded := false;
              repMessage := "Residual nitrogen time: 54 minutes. Adjusted no-decompression limit: 151 minutes." |}.
Proof. vm_compute. reflexivity. Qed.

(** On those entries [getRepetitiveDiveInfo] reports the dive as
    exceeded, whichever of the two the adjusted limit is. *)
Lemma getRepetitiveDiveInfo_not_allowed depth row group andl :
  In (depth, row) navyTable3 ->
  In (group, (NL, andl)) row ->
  getRepetitiveDiveInfo (Some group) (Z2F depth) =
    Return {| residualNitrogenTime := Some NL; adjustedNoDecoLimit := Some andl;
              repIsExceeded := true;
              repMessage := "Repetitive dive not recommended at this depth with current pressure group." |}.
Proof.
  intros H1 H2.
  assert (A : forallb (fun '(d, g, rnt, andl) =>
                negb (isNL rnt) ||
                match getRepetitiveDiveInfo (Some g) (Z2F d) with
                | Return r =>
                    match residualNitrogenTime r, adjustedNoDecoLimit r with
                    | Some NL, Some NL => isNL andl
                    | Some NL, Some (Minutes z) =>
                        match andl with Minutes z' => z =? z' | NL => false end
                    | _, _ => false
                    end
                    && repIsExceeded r
                    && String.eqb (repMessage r)
                         "Repetitive dive not recommended at this depth with current pressure group."
                | Throw _ => false
                end) table3Entries = true) by (vm_compute; reflexivity).
  rewrite forallb_forall in A.
  specialize (A _ (table3Entries_In _ _ _ _ _ H1 H2)). simpl in A.
  destruct (getRepetitiveDiveInfo (Some group) (Z2F depth)) as [[r a e m]|]; [|discriminate].
  simpl in A. rewrite !andb_true_iff in A. destruct A as [[A1 A2] A3].
  apply String.eqb_eq in A3. subst.
  destruct r as [[z|]|]; try discriminate.
  destruct a as [[z|]|]; try discriminate; destruct andl as [z'|]; try discriminate.
  - apply Z.eqb_eq in A1. now subst.
  - reflexivity.
Qed.

(** ** Dalton's triangle *)

(** (C9) [calculateDaltonsTriangle] throws its "Invalid input
    combination" error exactly when none, one, or all three of depth,
    fO2 and pO2 are present; with exactly two of them present it returns
    a result. *)
Theorem calculateDaltonsTriangle_needs_two (inputs : Dalton.Inputs) :
  ((Dalton.presentCount inputs = 0 \/ Dalton.presentCount inputs = 1
    \/ Dalton.presentCount inputs = 3)%nat
   <-> Dalton.calculateDaltonsTriangle inputs = Throw Dalton.invalidMessage) /\
  (Dalton.presentCount inputs = 2%nat
   <-> exists result, Dalton.calculateDaltonsTriangle inputs = Return result).
Proof.
  destruct inputs as [[d|] [f|] [p|]];
    unfold Dalton.calculateDaltonsTriangle, Dalton.presentCount; simpl;
    (split; split;
     [ try (intros [H|[H|H]]; discriminate H); try reflexivity
     | try discriminate; auto
     | try discriminate; try (intros _; eexists; reflexivity)
     | try reflexivity; try (intros [r H]; discriminate H) ]).
Qed.

(** The first scenario of the calculator: 99 ft on air is 4 ATA, with
    0.84 ATA of oxygen and 3.16 ATA of nitrogen. *)
Example calculateDaltonsTriangle_air_99ft :
  Dalton.calculateDaltonsTriangle
    {| Dalton.depth := Some 99%float; Dalton.fO2 := Some 0.21%float; Dalton.pO2 := None |}
  = Return {| Dalton.r_depth := 99; Dalton.r_fO2 := 0.21; Dalton.r_pressure := 4;
              Dalton.r_pO2 := 0.84; Dalton.r_pN2 := 3.16 |}.
Proof. vm_compute. reflexivity. Qed.

Lemma calculateDaltonsTriangle_needs_two_witness :
  Dalton.presentCount
    {| Dalton.depth := Some 99%float; Dalton.fO2 := None; Dalton.pO2 := None |} = 1%nat /\
  Dalton.calculateDaltonsTriangle
    {| Dalton.depth := Some 99%float; Dalton.fO2 := None; Dalton.pO2 := None |}
  = Throw Dalton.invalidMessage /\
  Dalton.presentCount
    {| Dalton.depth := Some 99%float; Dalton.fO2 := Some 0.21%float; Dalton.pO2 := None |}
  = 2%nat /\
  exists result,
    Dalton.calculateDaltonsTriangle
      {| Dalton.depth := Some 99%float; Dalton.fO2 := Some 0.21%float; Dalton.pO2 := None |}
    = Return result.
Proof.
  split; [reflexivity|]. split; [|split; [reflexivity|]].
  - apply (proj1 (calculateDaltonsTriangle_needs_two _)). right. left. reflexivity.
  - apply (proj2 (calculateDaltonsTriangle_needs_two _)). reflexivity.
Defined.

(** ** Nitrox *)

(** The maximum operating depth of a 32 percent mix at 1.4 ATA. *)
Example calculateMOD_32 : calculateMOD 32 1.4 = 111.375%float.
Proof. vm_compute. reflexivity. Qed.

(** (C8) [calculateActualDepthFromEAD] undoes [calculateEAD]: for every
    binary64 depth from 0 to 130 ft and every oxygen percentage from 21 to
    50, the actual depth computed back from the equivalent air depth is
    within 0.1 ft of the depth one started from. *)
Theorem ead_round_trip (d o : float) :
  (0 <=? d)%float = true -> (d <=? 130)%float = true ->
  (21 <=? o)%float = true -> (o <=? 50)%float = true ->
  (abs (calculateActualDepthFromEAD (calculateEAD d o) o - d) <=? 0.1)%float = true.
Proof.
  intros H0 H130 H21 H50.
  assert (Fd : finite d = true) by (apply (finite_between 0 d 130); auto).
  assert (Fo : finite o = true) by (apply (finite_between 21 o 50); auto).
  apply leb_real in H0, H130, H21, H50; auto.
  rewrite F2R_0 in H0. rewrite F2R_130 in H130. rewrite F2R_21 in H21. rewrite F2R_50 in H50.
  pose proof F2R_079 as Hc. pose proof eps_small as He.
  set (D := F2R d) in *. set (O := F2R o) in *. set (c := F2R 0.79) in *.
  unfold calculateActualDepthFromEAD, calculateEAD. cbv zeta.
  (* 100 - o *)
  set (a1 := (100 - o)%float).
  destruct (sub_close 100 o) as [F1 C1]; auto.
  { apply small_sum. rewrite F2R_100. fold O. lra. }
  fold a1 in F1, C1. rewrite F2R_100 in C1. fold O in C1.
  apply close_bound with (B := 79%R) in C1; [|lra].
  (* (100 - o) / 100 *)
  set (n2 := (a1 / 100)%float).
  destruct (div_close a1 100) as [F2 C2].
  { apply inRangeR_intro. lra. }
  { apply inRangeR_intro. rewrite F2R_100. lra. }
  fold n2 in F2, C2. rewrite F2R_100 in C2.
  apply close_bound with (B := 1%R) in C2; [|lra].
  set (B0 := ((100 - O) / 100)%R).
  assert (B0b : (1 / 2 <= B0 <= 79 / 100)%R) by (unfold B0; lra).
  assert (N2 : (- (2 * eps) <= F2R n2 - B0 <= 2 * eps)%R) by (unfold B0; lra).
  clear C1 C2.
  (* n2Fraction / 0.79 *)
  set (r := (n2 / 0.79)%float).
  destruct (div_close n2 0.79) as [F3 C3].
  { apply inRangeR_intro. lra. }
  { apply inRangeR_intro. fold c. lra. }
  fold r in F3, C3. fold c in C3.
  set (R0 := (B0 / c)%R).
  assert (R0b : (63 / 100 <= R0 <= 10003 / 10000)%R).
  { unfold R0. apply div_bounds; [lra|]. split; nra. }
  assert (R0c : (R0 * c = B0)%R) by (unfold R0; field; lra).
  assert (Q3 : (- (3 * eps) <= F2R n2 / c - R0 <= 3 * eps)%R).
  { apply (div_error (F2R n2) c R0 B0 c (2 * eps) 0 2 (78 / 100)); try lra. }
  apply close_bound with (B := 2%R) in C3; [|lra].
  assert (R3 : (- (5 * eps) <= F2R r - R0 <= 5 * eps)%R) by lra.
  clear C3 Q3.
  (* depth + 10 *)
  set (s := (d + 10)%float).
  destruct (add_close d 10) as [F4 C4]; auto.
  { apply small_sum. rewrite F2R_10. fold D. lra. }
  fold s in F4, C4. rewrite F2R_10 in C4. fold D in C4.
  apply close_bound with (B := 140%R) in C4; [|lra].
  (* (depth + 10) * (n2Fraction / 0.79) *)
  set (p := (s * r)%float).
  destruct (mul_close s r) as [F5 C5].
  { apply inRangeR_intro. lra. }
  { apply inRangeR_intro. lra. }
  fold p in F5, C5.
  set (P0 := ((D + 10) * R0)%R).
  assert (P0b : (63 / 10 <= P0 <= 14005 / 100)%R) by (unfold P0; split; nra).
  assert (Q5 : (- (1000 * eps) <= F2R s * F2R r - P0 <= 1000 * eps)%R).
  { unfold P0. apply (mul_error (F2R s) (D + 10) (F2R r) R0 (140 * eps) (5 * eps) 140 2); lra. }
  apply close_bound with (B := 142%R) in C5; [|lra].
  assert (P5 : (- (1200 * eps) <= F2R p - P0 <= 1200 * eps)%R) by lra.
  clear C5 Q5.
  (* ... - 10 *)
  set (ead := (p - 10)%float).
  destruct (sub_close p 10) as [F6 C6]; auto.
  { apply small_sum. rewrite F2R_10. lra. }
  fold ead in F6, C6. rewrite F2R_10 in C6.
  apply close_bound with (B := 132%R) in C6; [|lra].
  (* ead + 10 *)
  set (t := (ead + 10)%float).
  destruct (add_close ead 10) as [F7 C7]; auto.
  { apply small_sum. rewrite F2R_10. lra. }
  fold t in F7, C7. rewrite F2R_10 in C7.
  apply close_bound with (B := 142%R) in C7; [|lra].
  assert (T7 : (- (1500 * eps) <= F2R t - P0 <= 1500 * eps)%R) by lra.
  clear C6 C7 P5.
  (* (ead + 10) * 0.79 *)
  set (u := (t * 0.79)%float).
  destruct (mul_close t 0.79) as [F8 C8].
  { apply inRangeR_intro. lra. }
  { apply inRangeR_intro. fold c. lra. }
  fold u in F8, C8. fold c in C8.
  set (U0 := ((D + 10) * B0)%R).
  assert (U0e : (P0 * c = U0)%R) by (unfold P0, U0; rewrite Rmult_assoc, R0c; reflexivity).
  assert (U0b : (5 <= U0 <= 111)%R) by (unfold U0; split; nra).
  assert (Q8 : (- (1500 * eps) <= F2R t * c - U0 <= 1500 * eps)%R).
  { rewrite <- U0e. apply (mul_error (F2R t) P0 c c (1500 * eps) 0 141 1); lra. }
  apply close_bound with (B := 112%R) in C8; [|lra].
  assert (U8 : (- (1700 * eps) <= F2R u - U0 <= 1700 * eps)%R) by lra.
  clear C8 Q8 T7.
  (* o / 100 *)
  set (q := (o / 100)%float).
  destruct (div_close o 100) as [F9 C9].
  { apply inRangeR_intro. fold O. lra. }
  { apply inRangeR_intro. rewrite F2R_100. lra. }
  fold q in F9, C9. fold O in C9. rewrite F2R_100 in C9.
  apply close_bound with (B := 1%R) in C9; [|lra].
  (* 1 - o / 100 *)
  set (b := (1 - q)%float).
  destruct (sub_close 1 q) as [F10 C10]; auto.
  { apply small_sum. rewrite F2R_1. lra. }
  fold b in F10, C10. rewrite F2R_1 in C10.
  apply close_bound with (B := 1%R) in C10; [|lra].
  assert (B10 : (- (2 * eps) <= F2R b - B0 <= 2 * eps)%R) by (unfold B0; lra).
  clear C9 C10.
  (* ... / (1 - o / 100) *)
  set (w := (u / b)%float).
  destruct (div_close u b) as [F11 C11].
  { apply inRangeR_intro. lra. }
  { apply inRangeR_intro. lra. }
  fold w in F11, C11.
  assert (Q11 : (- (4100 * eps) <= F2R u / F2R b - (D + 10) <= 4100 * eps)%R).
  { apply (div_error (F2R u) (F2R b) (D + 10) U0 B0 (1700 * eps) (2 * eps) 140 (49 / 100));
      try lra. reflexivity. }
  apply close_bound with (B := 142%R) in C11; [|lra].
  assert (W11 : (- (4300 * eps) <= F2R w - (D + 10) <= 4300 * eps)%R) by lra.
  clear C11 Q11 U8 B10.
  (* ... - 10 *)
  set (res := (w - 10)%float).
  destruct (sub_close w 10) as [F12 C12]; auto.
  { apply small_sum. rewrite F2R_10. lra. }
  fold res in F12, C12. rewrite F2R_10 in C12.
  apply close_bound with (B := 132%R) in C12; [|lra].
  (* ... - d *)
  set (z := (res - d)%float).
  destruct (sub_close res d) as [F13 C13]; auto.
  { apply small_sum. fold D. lra. }
  fold z in F13, C13. fold D in C13.
  apply close_bound with (B := 1%R) in C13; [|lra].
  destruct (abs_real z F13) as [Fa Va].
  apply leb_real; auto.
  rewrite Va. pose proof F2R_01. apply Rle_trans with (9 / 100)%R; [|assumption].
  apply Rabs_le. lra.
Qed.

Lemma ead_round_trip_witness :
  (0 <=? 100)%float = true /\ (100 <=? 130)%float = true /\
  (21 <=? 32)%float = true /\ (32 <=? 50)%float = true /\
  (abs (calculateActualDepthFromEAD (calculateEAD 100 32) 32 - 100) <=? 0.1)%float = true.
Proof.
  repeat (split; [reflexivity|]).
  exact (ead_round_trip 100 32 eq_refl eq_refl eq_refl eq_refl).
Defined.

(** ** Numbers that are not [NaN]

    Two numbers that are not [NaN] are comparable, and [NaN] fails every
    comparison. *)

Lemma SFcompare_refl (a : spec_float) :
  a <> S754_nan -> SFcompare a a = Some Eq.
Proof.
  destruct a as [s|s| |s m e]; try (destruct s; reflexivity); [congruence|].
  intros _. rewrite SFcompare_finite.
  assert (L : lexCompare e m e m = Eq).
  { unfold lexCompare. rewrite Z.compare_refl.
    change (Pos.compare_cont Eq m m) with (Pos.compare m m). apply Pos.compare_refl. }
  destruct s; rewrite L; reflexivity.
Qed.

Lemma is_nan_spec (x : float) : is_nan x = true <-> Prim2SF x = S754_nan.
Proof.
  unfold is_nan. rewrite eqb_spec. unfold SFeqb. split.
  - intros H. destruct (Prim2SF x) as [s|s| |s m e] eqn:E; try reflexivity;
      rewrite SFcompare_refl in H by discriminate; discriminate.
  - intros ->. reflexivity.
Qed.

Lemma SFcompare_some (a b : spec_float) :
  a <> S754_nan -> b <> S754_nan -> exists c, SFcompare a b = Some c.
Proof.
  destruct a as [sa|sa| |sa ma ea], b as [sb|sb| |sb mb eb]; try congruence; intros _ _;
    rewrite ?SFcompare_finite; try (destruct sa); try (destruct sb); simpl; eauto.
Qed.

Lemma not_nan (x : float) : is_nan x = false -> Prim2SF x <> S754_nan.
Proof. intros H C. apply is_nan_spec in C. congruence. Qed.

(** Two numbers that are not [NaN] are comparable. *)
Lemma ltb_false_leb (x y : float) :
  is_nan x = false -> is_nan y = false ->
  (x <? y)%float = false -> (y <=? x)%float = true.
Proof.
  intros Hx Hy. rewrite ltb_spec, leb_spec. unfold SFltb, SFleb.
  destruct (SFcompare_some _ _ (not_nan _ Hx) (not_nan _ Hy)) as [c E].
  rewrite E, (SFcompare_antisym _ _ _ E). destruct c; simpl; congruence.
Qed.

Lemma leb_false_ltb (x y : float) :
  is_nan x = false -> is_nan y = false ->
  (x <=? y)%float = false -> (y <? x)%float = true.
Proof.
  intros Hx Hy. rewrite ltb_spec, leb_spec. unfold SFltb, SFleb.
  destruct (SFcompare_some _ _ (not_nan _ Hx) (not_nan _ Hy)) as [c E].
  rewrite E, (SFcompare_antisym _ _ _ E). destruct c; simpl; congruence.
Qed.

(** [NaN] fails every comparison. *)
Lemma nan_compares_false (x y : float) :
  is_nan x = true ->
  (x <=? y)%float = false /\ (y <=? x)%float = false /\
  (x <? y)%float = false /\ (y <? x)%float = false.
Proof.
  intros H. apply is_nan_spec in H.
  rewrite !ltb_spec, !leb_spec. unfold SFltb, SFleb. rewrite H.
  destruct (Prim2SF y) as [s|s| |s m e]; try (destruct s); simpl; auto.
Qed.

(** What is compared true with something is not [NaN]. *)
Lemma leb_not_nan (x y : float) :
  (x <=? y)%float = true -> is_nan x = false /\ is_nan y = false.
Proof.
  intros H. split.
  - destruct (is_nan x) eqn:E; [|reflexivity].
    destruct (nan_compares_false x y E) as [C _]. congruence.
  - destruct (is_nan y) eqn:E; [|reflexivity].
    destruct (nan_compares_false y x E) as [_ [C _]]. congruence.
Qed.

Lemma ltb_trans (x y z : float) :
  (x <? y)%float = true -> (y <? z)%float = true -> (x <? z)%float = true.
Proof. intros H1 H2. apply ltb_leb_trans with y; [exact H1 | now apply ltb_leb]. Qed.

(** ** Integers as floats and the order in the real numbers *)

Lemma finite_not_nan (x : float) : finite x = true -> is_nan x = false.
Proof.
  intros H. destruct (is_nan x) eqn:E; [|reflexivity].
  apply is_nan_spec in E. unfold finite in H. rewrite E in H. discriminate.
Qed.

Lemma ltb_real (x y : float) :
  finite x = true -> finite y = true ->
  ((x <? y)%float = true <-> (F2R x < F2R y)%R).
Proof.
  intros Fx Fy. pose proof (leb_real y x Fy Fx) as L. split.
  - intros H. apply ltb_not_leb in H.
    destruct (Rlt_le_dec (F2R x) (F2R y)) as [|C]; [assumption|].
    apply L in C. congruence.
  - intros H. apply leb_false_ltb; try now apply finite_not_nan.
    apply not_true_is_false. intros E. apply L in E. lra.
Qed.

Lemma Z2F_spec (z : Z) :
  0 <= z < 2 ^ 63 -> Prim2SF (Z2F z) = binary_normalize prec emax z 0 false.
Proof.
  intros H. unfold Z2F. apply Prim2SF_SF2Prim.
  assert (E : Uint63Axioms.to_Z (Uint63Axioms.of_Z z) = z).
  { rewrite Uint63.of_Z_spec. apply Z.mod_small. exact H. }
  rewrite <- E, <- of_uint63_spec. apply Prim2SF_valid.
Qed.

(** A natural number below 2^62 is read as a float within one unit in
    the last place. *)
Lemma Z2F_value (z : Z) :
  0 <= z < 2 ^ 62 -> finite (Z2F z) = true /\ close (F2R (Z2F z)) (IZR z).
Proof.
  intros H. unfold finite, F2R. rewrite Z2F_spec by lia.
  replace (IZR z) with (IZR z * p2 0)%R by (unfold p2; simpl; lra).
  apply binary_normalize_value; [lia|].
  replace (IZR z * p2 0)%R with (IZR z) by (unfold p2; simpl; lra).
  assert (A : (0 <= IZR z < IZR (2 ^ 62))%R) by (split; [apply IZR_le | apply IZR_lt]; lia).
  rewrite <- (p2_IZR 62) in A by lia.
  assert (B : (p2 62 <= p2 1023)%R) by (apply p2_le; lia).
  rewrite Rabs_pos_eq; lra.
Qed.

Lemma Z2F_bounds (z : Z) :
  0 <= z <= 4096 ->
  finite (Z2F z) = true /\ (IZR z - 1 / 1000000 <= F2R (Z2F z) <= IZR z + 1 / 1000000)%R.
Proof.
  intros H. destruct (Z2F_value z) as [F C]; [lia|]. split; [exact F|].
  assert (A : (0 <= IZR z <= 4096)%R) by (split; apply IZR_le; lia).
  apply close_bound with (B := 4096%R) in C; [|lra].
  pose proof eps_small. lra.
Qed.

Lemma In_upTo (n : nat) (z : Z) : 0 <= z < Z.of_nat n -> In z (upTo n).
Proof.
  intros H. unfold upTo. apply in_map_iff. exists (Z.to_nat z).
  split; [lia|]. apply in_seq. lia.
Qed.

(** The sum of two small natural numbers, computed in binary64. *)
Lemma sum_bounds (a b : Z) :
  0 <= a <= 1000 -> 0 <= b <= 1000 ->
  finite (Z2F a + Z2F b) = true /\
  (IZR (a + b) - 1 / 100000 <= F2R (Z2F a + Z2F b) <= IZR (a + b) + 1 / 100000)%R.
Proof.
  intros Ha Hb.
  destruct (Z2F_bounds a) as [Fa Va]; [lia|]. destruct (Z2F_bounds b) as [Fb Vb]; [lia|].
  assert (A : (0 <= IZR a <= 1000)%R) by (split; apply IZR_le; lia).
  assert (B : (0 <= IZR b <= 1000)%R) by (split; apply IZR_le; lia).
  destruct (add_close (Z2F a) (Z2F b) Fa Fb) as [F C]; [apply small_sum; lra|].
  split; [exact F|]. rewrite plus_IZR.
  apply close_bound with (B := 2048%R) in C; [|lra].
  pose proof eps_small. lra.
Qed.

Lemma inRangeR_wide (v : R) : (1 / 1048576 <= v <= 1048576)%R -> inRangeR v.
Proof.
  intros [L U]. unfold inRangeR.
  assert (A : (p2 (-500) <= p2 (-20))%R) by (apply p2_le; lia).
  assert (B : (p2 20 <= p2 500)%R) by (apply p2_le; lia).
  replace (p2 (-20)) with (/ IZR (2 ^ 20))%R in A by (symmetry; apply (p2_neg 20); lia).
  rewrite (p2_IZR 20) in B by lia.
  change (2 ^ 20) with 1048576 in A, B. lra.
Qed.

Lemma moderate_sum (v : R) : (- 1000000 <= v <= 1000000)%R -> (Rabs v < p2 1023)%R.
Proof.
  intros H. assert (B : (p2 20 <= p2 1023)%R) by (apply p2_le; lia).
  rewrite (p2_IZR 20) in B by lia. change (2 ^ 20) with 1048576 in B.
  assert (Rabs v <= 1000000)%R by (apply Rabs_le; lra). lra.
Qed.

Lemma eps_lower : (2 / 10000000000000000 <= eps)%R.
Proof.
  unfold eps.
  replace (p2 (-52)) with (/ IZR (2 ^ 52))%R by (symmetry; apply (p2_neg 52); lia).
  change (2 ^ 52) with 4503599627370496. lra.
Qed.

Lemma eps_upper : (eps <= 23 / 100000000000000000)%R.
Proof.
  unfold eps.
  replace (p2 (-52)) with (/ IZR (2 ^ 52))%R by (symmetry; apply (p2_neg 52); lia).
  change (2 ^ 52) with 4503599627370496. lra.
Qed.

Lemma F2R_33 : F2R 33 = 33%R.
Proof. literal_value. Qed.

Lemma F2R_1000 : F2R 1000 = 1000%R.
Proof. literal_value. Qed.

Lemma F2R_1e9 : (9 / 10000000000 <= F2R 1e-9)%R.
Proof. literal_value. Qed.

Lemma F2R_22 : F2R 22 = 22%R.
Proof. literal_value. Qed.

Lemma F2R_99 : F2R 99 = 99%R.
Proof. literal_value. Qed.

Lemma F2R_12 : (1199 / 1000 <= F2R 1.2)%R.
Proof. literal_value. Qed.

Lemma F2R_16 : (F2R 1.6 <= 1601 / 1000)%R.
Proof. literal_value. Qed.

Lemma F2R_079_tight :
  (79 / 100 - 1 / 10000000000000000 <= F2R 0.79 <= 79 / 100 + 1 / 10000000000000000)%R.
Proof. literal_value. Qed.

Lemma F2R_001 : (99 / 10000 <= F2R 0.01)%R.
Proof. literal_value. Qed.

Lemma F2R_099 : (F2R 0.99 <= 9901 / 10000)%R.
Proof. literal_value. Qed.

(** ** Depth normalization, continued *)

Lemma firstDepthAtLeast_none (depth : float) (l : list Z) :
  (forall k, In k l -> (depth <=? Z2F k)%float = false) -> firstDepthAtLeast depth l = -1.
Proof.
  induction l as [|d rest IH]; intros H; simpl; [reflexivity|].
  rewrite (H d) by now left. apply IH. intros k Hk. apply H. now right.
Qed.

Lemma depths_within (k : Z) : In k depths -> 10 <= k <= 130 /\ (Z2F k <=? 130)%float = true
  /\ (10 <=? Z2F k)%float = true.
Proof.
  rewrite depths_eq. simpl.
  intros H; repeat (destruct H as [<-|H]; [split; [lia|split; reflexivity]|]); destruct H.
Qed.

Lemma findClosestDepth_unfold (depth : float) :
  findClosestDepth depth =
    if (depth <? 10)%float then 10
    else if (130 <? depth)%float then -1
    else firstDepthAtLeast depth depths.
Proof. reflexivity. Qed.

Lemma findClosestDepth_least (depth : float) :
  (depth <=? 130)%float = true ->
  In (findClosestDepth depth) depths /\
  (depth <=? Z2F (findClosestDepth depth))%float = true /\
  forall k, In k depths -> (depth <=? Z2F k)%float = true -> findClosestDepth depth <= k.
Proof.
  intros H. rewrite findClosestDepth_unfold.
  destruct (depth <? 10)%float eqn:E.
  - split; [rewrite depths_eq; simpl; now left|].
    split; [change (Z2F 10) with 10%float; now apply ltb_leb|].
    intros k Hk _. apply depths_within in Hk. lia.
  - rewrite (leb_not_ltb _ _ H).
    apply firstDepthAtLeast_least; [apply depths_sorted|].
    exists 130. split; [rewrite depths_eq; simpl; tauto | exact H].
Qed.

Lemma findClosestDepth_beyond (depth : float) :
  (depth <=? 130)%float = false -> findClosestDepth depth = -1.
Proof.
  intros H. rewrite findClosestDepth_unfold.
  destruct (depth <? 10)%float eqn:E.
  - assert (C : (depth <=? 130)%float = true).
    { apply leb_trans with 10%float; [now apply ltb_leb | reflexivity]. }
    congruence.
  - destruct (130 <? depth)%float; [reflexivity|].
    apply firstDepthAtLeast_none. intros k Hk.
    destruct (depth <=? Z2F k)%float eqn:C; [|reflexivity].
    apply depths_within in Hk. destruct Hk as [_ [Hk _]].
    rewrite (leb_trans _ _ _ C Hk) in H. discriminate.
Qed.

Lemma findClosestDepth_upper (hi : Z) (depth : float) :
  In hi depths -> (depth <=? Z2F hi)%float = true -> findClosestDepth depth <= hi.
Proof.
  intros Hhi Hle.
  assert (H : (depth <=? 130)%float = true).
  { apply leb_trans with (Z2F hi); [exact Hle|]. now apply depths_within. }
  destruct (findClosestDepth_least depth H) as [_ [_ M]]. now apply M.
Qed.

Lemma findClosestDepth_from_20 (depth : float) :
  (15 <? depth)%float = true -> (depth <=? 130)%float = true -> 20 <= findClosestDepth depth.
Proof.
  intros H15 H.
  destruct (findClosestDepth_least depth H) as [I [L _]].
  pose proof (ltb_leb_trans _ _ _ H15 L) as C.
  revert I C. generalize (findClosestDepth depth). intros k. rewrite depths_eq. simpl.
  intros I; repeat (destruct I as [<-|I]; [try lia; vm_compute; discriminate|]); destruct I.
Qed.

Lemma findClosestDepth_between (lo hi : Z) (depth : float) :
  In hi depths ->
  (forall k, In k depths -> (Z2F lo <? Z2F k)%float = true -> hi <= k) ->
  (Z2F lo <? depth)%float = true -> (depth <=? Z2F hi)%float = true ->
  findClosestDepth depth = hi.
Proof.
  intros Hhi Hnext Hlo Hle.
  assert (H : (depth <=? 130)%float = true).
  { apply leb_trans with (Z2F hi); [exact Hle|]. now apply depths_within. }
  destruct (findClosestDepth_least depth H) as [I [L M]].
  pose proof (M hi Hhi Hle). pose proof (Hnext _ I (ltb_leb_trans _ _ _ Hlo L)). lia.
Qed.

Lemma next_depth (lo hi : Z) :
  forallb (fun k => negb (Z2F lo <? Z2F k)%float || (hi <=? k)) depths = true ->
  forall k, In k depths -> (Z2F lo <? Z2F k)%float = true -> hi <= k.
Proof.
  intros A k Hk Hlt. rewrite forallb_forall in A. specialize (A k Hk).
  rewrite Hlt in A. now apply Z.leb_le.
Qed.

Lemma findClosestDepth_order (d1 d2 : float) :
  (d1 <=? d2)%float = true -> (d2 <=? 130)%float = true ->
  findClosestDepth d1 <= findClosestDepth d2.
Proof.
  intros H12 H2.
  destruct (findClosestDepth_least d2 H2) as [I2 [L2 _]].
  destruct (findClosestDepth_least d1 (leb_trans _ _ _ H12 H2)) as [_ [_ M1]].
  apply M1; [exact I2|]. now apply leb_trans with d2.
Qed.

(** (X1) [findClosestDepth] returns -1 exactly when [depth <= 130] fails, that
    is for a depth beyond 130 ft and for [NaN]; in every other case it
    returns a depth of table 1, and such a result normalizes to itself.
    The sentinel does not: it normalizes to the 10 ft band. *)
Theorem findClosestDepth_sentinel_iff (depth : float) :
  (findClosestDepth depth = -1 <-> (depth <=? 130)%float = false) /\
  (findClosestDepth depth <> -1 ->
     In (findClosestDepth depth) depths /\
     findClosestDepth (Z2F (findClosestDepth depth)) = findClosestDepth depth) /\
  (findClosestDepth depth = -1 ->
     findClosestDepth (Z2F (findClosestDepth depth)) = 10).
Proof.
  assert (A : findClosestDepth depth = -1 <-> (depth <=? 130)%float = false).
  { split.
    - intros E. destruct (depth <=? 130)%float eqn:H; [|reflexivity].
      destruct (findClosestDepth_least depth H) as [I _].
      rewrite E in I. apply depths_within in I. lia.
    - apply findClosestDepth_beyond. }
  split; [exact A|]. split.
  - intros N. destruct (findClosestDepth_key depth) as [E|I]; [contradiction|].
    split; [exact I | now apply findClosestDepth_fixed].
  - intros ->. apply findClosestDepth_sentinel.
Qed.

Lemma findClosestDepth_sentinel_iff_witness :
  (findClosestDepth 131 = -1 <-> (131 <=? 130)%float = false) /\
  (In (findClosestDepth 42) depths /\
   findClosestDepth (Z2F (findClosestDepth 42)) = findClosestDepth 42) /\
  findClosestDepth (Z2F (findClosestDepth nan)) = 10.
Proof.
  split; [exact (proj1 (findClosestDepth_sentinel_iff 131))|]. split.
  - apply (proj1 (proj2 (findClosestDepth_sentinel_iff 42))). vm_compute. discriminate.
  - apply (proj2 (proj2 (findClosestDepth_sentinel_iff nan))). vm_compute. reflexivity.
Defined.

(** (X2) [findClosestDepth] is monotone: of two depths within the table,
    the deeper one never normalizes to a shallower band. *)
Theorem findClosestDepth_monotone (d1 d2 : float) :
  (d1 <=? d2)%float = true -> (d2 <=? 130)%float = true ->
  findClosestDepth d1 <= findClosestDepth d2.
Proof.
  intros H12 H2.
  destruct (findClosestDepth_least d2 H2) as [I2 [L2 _]].
  destruct (findClosestDepth_least d1 (leb_trans _ _ _ H12 H2)) as [_ [_ M1]].
  apply M1; [exact I2|]. now apply leb_trans with d2.
Qed.

Lemma findClosestDepth_monotone_witness :
  (33 <=? 61.5)%float = true /\ (61.5 <=? 130)%float = true /\
  findClosestDepth 33 <= findClosestDepth 61.5.
Proof.
  split; [reflexivity|]. split; [reflexivity|].
  exact (findClosestDepth_monotone 33 61.5 eq_refl eq_refl).
Defined.

(** ** Single dive, continued *)

Lemma findPressureGroup_found (bottomTime : float) timeGroups times x :
  forallb (fun x => match assoc Z.eqb x timeGroups with Some _ => true | None => false end)
    times = true ->
  In x times -> (bottomTime <=? Z2F x)%float = true ->
  exists g, findPressureGroup bottomTime timeGroups times = Some g.
Proof.
  induction times as [|y rest IH]; simpl; [tauto|].
  intros H Hin Hle. apply andb_true_iff in H. destruct H as [Hy Hrest].
  destruct (bottomTime <=? Z2F y)%float eqn:E.
  - destruct (assoc Z.eqb y timeGroups) as [g|]; [now exists g | discriminate].
  - destruct Hin as [->|Hin]; [congruence|]. now apply IH.
Qed.

Lemma findPressureGroup_nan (bottomTime : float) timeGroups times :
  is_nan bottomTime = true -> findPressureGroup bottomTime timeGroups times = None.
Proof.
  intros H. induction times as [|y rest IH]; simpl; [reflexivity|].
  destruct (nan_compares_false bottomTime (Z2F y) H) as [-> _]. exact IH.
Qed.

Lemma findPressureGroup_threshold (bottomTime : float) timeGroups times g :
  findPressureGroup bottomTime timeGroups times = Some g ->
  exists y, In y times /\ assoc Z.eqb y timeGroups = Some g /\
            (bottomTime <=? Z2F y)%float = true.
Proof.
  induction times as [|x rest IH]; simpl; [discriminate|].
  destruct (bottomTime <=? Z2F x)%float eqn:E.
  - intros H. exists x. split; [now left | split; [exact H | exact E]].
  - intros H. destruct (IH H) as [y [Hy Ha]]. exists y. split; [now right | exact Ha].
Qed.

Lemma findPressureGroup_no_later (bottomTime : float) timeGroups times g x' g' :
  groupsAscending timeGroups times = true ->
  findPressureGroup bottomTime timeGroups times = Some g ->
  In x' times -> assoc Z.eqb x' timeGroups = Some g' ->
  (bottomTime <=? Z2F x')%float = true ->
  String.leb g g' = true.
Proof.
  intros Hasc. induction times as [|x rest IH]; simpl; [discriminate|].
  simpl in Hasc. apply andb_true_iff in Hasc. destruct Hasc as [Hx Hrest].
  destruct (bottomTime <=? Z2F x)%float eqn:E.
  - intros H [->|Hin] Ha _.
    + rewrite H in Ha. inversion Ha. apply String_leb_refl.
    + rewrite forallb_forall in Hx. specialize (Hx _ Hin). now rewrite H, Ha in Hx.
  - intros H [->|Hin] Ha Hle; [congruence|]. now apply IH.
Qed.

Lemma navyTable1_complete depth maxNDL timeGroups :
  In (depth, (maxNDL, timeGroups)) navyTable1 -> bandComplete maxNDL timeGroups = true.
Proof.
  intros H.
  assert (A : forallb (fun '(_, (n, tg)) => bandComplete n tg) navyTable1 = true)
    by (vm_compute; reflexivity).
  rewrite forallb_forall in A. exact (A _ H).
Qed.

Lemma navyTable1_letters depth maxNDL timeGroups t g :
  In (depth, (maxNDL, timeGroups)) navyTable1 -> In (t, g) timeGroups -> In g groupLetters.
Proof.
  intros H1 H2.
  assert (A : forallb (fun '(_, _, _, g) => existsb (String.eqb g) groupLetters) table1Entries
              = true) by (vm_compute; reflexivity).
  rewrite forallb_forall in A. specialize (A _ (table1Entries_In _ _ _ _ _ H1 H2)).
  cbv beta iota in A. apply existsb_exists in A. destruct A as [x [Hx E]].
  apply String.eqb_eq in E. now subst.
Qed.

Lemma groupLetters_leb_trans (a b c : string) :
  In a groupLetters -> In b groupLetters -> In c groupLetters ->
  String.leb a b = true -> String.leb b c = true -> String.leb a c = true.
Proof.
  intros Ha Hb Hc.
  assert (A : forallb (fun a => forallb (fun b => forallb (fun c =>
                 negb (String.leb a b && String.leb b c) || String.leb a c)
                 groupLetters) groupLetters) groupLetters = true) by (vm_compute; reflexivity).
  rewrite forallb_forall in A. specialize (A a Ha).
  rewrite forallb_forall in A. specialize (A b Hb).
  rewrite forallb_forall in A. specialize (A c Hc). cbv beta in A.
  intros H1 H2. rewrite H1, H2 in A. exact A.
Qed.

Lemma min3_cases (t : float) (a b c : Z) :
  (t <=? Z2F a)%float = true -> (t <=? Z2F b)%float = true -> (t <=? Z2F c)%float = true ->
  (t <=? Z2F (Z.min (Z.min a b) c))%float = true.
Proof.
  intros Ha Hb Hc.
  destruct (Z.min_spec a b) as [[_ ->]|[_ ->]];
    match goal with |- context [Z.min ?x c] =>
      destruct (Z.min_spec x c) as [[_ ->]|[_ ->]] end; assumption.
Qed.

Lemma singleDiveInBand_limit tableDepth maxNDL timeGroups bottomTime :
  noDecoLimit (singleDiveInBand tableDepth maxNDL timeGroups bottomTime) = maxNDL.
Proof. unfold singleDiveInBand. destruct (_ <? _)%float; reflexivity. Qed.

Lemma singleDiveInBand_some tableDepth maxNDL timeGroups (t : float) g :
  pressureGroup (singleDiveInBand tableDepth maxNDL timeGroups t) = Some g ->
  (Z2F maxNDL <? t)%float = false /\ findPressureGroup t timeGroups (keys timeGroups) = Some g.
Proof.
  unfold singleDiveInBand. destruct (Z2F maxNDL <? t)%float; simpl; [discriminate | auto].
Qed.

Lemma singleDiveInBand_exceeded tableDepth maxNDL timeGroups (t : float) :
  isExceeded (singleDiveInBand tableDepth maxNDL timeGroups t) = (Z2F maxNDL <? t)%float.
Proof. unfold singleDiveInBand. destruct (Z2F maxNDL <? t)%float; reflexivity. Qed.

Lemma singleDiveInBand_group (tableDepth maxNDL : Z) timeGroups (bottomTime : float) :
  bandComplete maxNDL timeGroups = true ->
  (bottomTime <=? Z2F maxNDL)%float = true ->
  exists g, pressureGroup (singleDiveInBand tableDepth maxNDL timeGroups bottomTime) = Some g.
Proof.
  intros C H. unfold singleDiveInBand. rewrite (leb_not_ltb _ _ H). simpl.
  unfold bandComplete in C. rewrite !andb_true_iff in C. destruct C as [[_ C2] C3].
  apply existsb_exists in C3. destruct C3 as [x [Hx Hle]].
  apply (findPressureGroup_found _ _ _ x); [exact C2 | exact Hx |].
  now apply leb_trans with (Z2F maxNDL).
Qed.

Lemma getSingleDiveInfo_assoc (depth bottomTime : float) (maxNDL : Z) timeGroups :
  findClosestDepth depth <> -1 ->
  assoc Z.eqb (findClosestDepth depth) navyTable1 = Some (maxNDL, timeGroups) ->
  getSingleDiveInfo depth bottomTime
    = singleDiveInBand (findClosestDepth depth) maxNDL timeGroups bottomTime.
Proof.
  intros Hn Ha. unfold getSingleDiveInfo, singleDiveInBand. cbv zeta.
  pose proof (assoc_In Z.eqb _ _ _ Z_eqb_true Ha) as Hin.
  apply Z.eqb_neq in Hn. rewrite Hn, Ha, (navyTable1_times_ascending _ _ _ Hin). reflexivity.
Qed.

Lemma getSingleDiveInfo_limit (depth bottomTime : float) (maxNDL : Z) timeGroups :
  findClosestDepth depth <> -1 ->
  assoc Z.eqb (findClosestDepth depth) navyTable1 = Some (maxNDL, timeGroups) ->
  noDecoLimit (getSingleDiveInfo depth bottomTime) = maxNDL.
Proof.
  intros Hn Ha. unfold getSingleDiveInfo. cbv zeta.
  apply Z.eqb_neq in Hn. rewrite Hn, Ha.
  destruct (_ <? _)%float; reflexivity.
Qed.

(** (X3) When the bottom time is a number, [getSingleDiveInfo] gives a
    pressure group exactly when it does not report the dive as exceeded:
    a dive within the limits always gets a group. *)
Theorem getSingleDiveInfo_group_iff_within (depth bottomTime : float) :
  is_nan bottomTime = false ->
  (isExceeded (getSingleDiveInfo depth bottomTime) = false <->
   exists g, pressureGroup (getSingleDiveInfo depth bottomTime) = Some g).
Proof.
  intros Hn.
  destruct (findClosestDepth_key depth) as [E|Hk].
  - unfold getSingleDiveInfo. rewrite E. simpl.
    split; [discriminate | intros [g H]; discriminate].
  - destruct (getSingleDiveInfo_band depth Hk) as [maxNDL [timeGroups [Hin Hband]]].
    rewrite Hband. unfold singleDiveInBand.
    pose proof (navyTable1_complete _ _ _ Hin) as C. unfold bandComplete in C.
    rewrite !andb_true_iff in C. destruct C as [[C1 C2] C3].
    apply negb_true_iff in C1.
    destruct (Z2F maxNDL <? bottomTime)%float eqn:X; simpl.
    + split; [discriminate | intros [g H]; discriminate].
    + split; [intros _ | reflexivity].
      apply existsb_exists in C3. destruct C3 as [x [Hx Hle]].
      apply (findPressureGroup_found _ _ _ x); [exact C2 | exact Hx |].
      apply leb_trans with (Z2F maxNDL); [|exact Hle].
      now apply ltb_false_leb.
Qed.

Lemma getSingleDiveInfo_group_iff_within_witness :
  is_nan 37 = false /\
  (isExceeded (getSingleDiveInfo 72 37) = false <->
   exists g, pressureGroup (getSingleDiveInfo 72 37) = Some g).
Proof.
  split; [reflexivity|]. exact (getSingleDiveInfo_group_iff_within 72 37 eq_refl).
Defined.

(** (X4) A bottom time that is [NaN] passes the limit test: at a depth
    within the table the dive is reported as not exceeded, with the
    band's limit, and the group stays [null]. *)
Theorem getSingleDiveInfo_nan_time (depth bottomTime : float) :
  (depth <=? 130)%float = true -> is_nan bottomTime = true ->
  isExceeded (getSingleDiveInfo depth bottomTime) = false /\
  pressureGroup (getSingleDiveInfo depth bottomTime) = None /\
  message (getSingleDiveInfo depth bottomTime)
    = "No-decompression limit: " ++ showZ (noDecoLimit (getSingleDiveInfo depth bottomTime))
      ++ " minutes. Pressure group: null.".
Proof.
  intros Hd Hn.
  destruct (findClosestDepth_least depth Hd) as [Hk _].
  destruct (getSingleDiveInfo_band depth Hk) as [maxNDL [timeGroups [Hin Hband]]].
  rewrite Hband. unfold singleDiveInBand.
  destruct (nan_compares_false bottomTime (Z2F maxNDL) Hn) as [_ [_ [_ ->]]].
  rewrite (findPressureGroup_nan _ _ _ Hn). simpl. auto.
Qed.

Lemma getSingleDiveInfo_nan_time_witness :
  (60 <=? 130)%float = true /\ is_nan nan = true /\
  isExceeded (getSingleDiveInfo 60 nan) = false /\
  pressureGroup (getSingleDiveInfo 60 nan) = None /\
  message (getSingleDiveInfo 60 nan)
    = "No-decompression limit: " ++ showZ (noDecoLimit (getSingleDiveInfo 60 nan))
      ++ " minutes. Pressure group: null.".
Proof.
  split; [reflexivity|]. split; [reflexivity|].
  exact (getSingleDiveInfo_nan_time 60 nan eq_refl eq_refl).
Defined.

(** (X5) From the 20 ft band on, a deeper dive never has a longer
    no-decompression limit, whatever the bottom times.  The 15 ft band is
    the exception: its limit of 300 minutes is shorter than the 325
    minutes of the deeper 20 ft band. *)
Theorem noDecoLimit_antitone :
  (forall d1 d2 t1 t2 : float,
     (15 <? d1)%float = true -> (d1 <=? d2)%float = true -> (d2 <=? 130)%float = true ->
     noDecoLimit (getSingleDiveInfo d2 t2) <= noDecoLimit (getSingleDiveInfo d1 t1)) /\
  (forall t1 t2 : float,
     noDecoLimit (getSingleDiveInfo 15 t1) = 300 /\
     noDecoLimit (getSingleDiveInfo 20 t2) = 325).
Proof.
  split.
  - intros d1 d2 t1 t2 H15 H12 H2.
    pose proof (findClosestDepth_order d1 d2 H12 H2) as M.
    destruct (findClosestDepth_least d2 H2) as [I2 _].
    destruct (findClosestDepth_least d1 (leb_trans _ _ _ H12 H2)) as [I1 [L1 _]].
    pose proof (findClosestDepth_from_20 d1 H15 (leb_trans _ _ _ H12 H2)) as K.
    destruct (getSingleDiveInfo_band d1 I1) as [n1 [tg1 [Hin1 Hb1]]].
    destruct (getSingleDiveInfo_band d2 I2) as [n2 [tg2 [Hin2 Hb2]]].
    rewrite Hb1, Hb2, !singleDiveInBand_limit.
    assert (A : forallb (fun '(k1, (n1, _)) =>
                  forallb (fun '(k2, (n2, _)) =>
                     negb ((20 <=? k1) && (k1 <=? k2)) || (n2 <=? n1)) navyTable1)
                navyTable1 = true) by (vm_compute; reflexivity).
    rewrite forallb_forall in A. specialize (A _ Hin1). cbv beta iota in A.
    rewrite forallb_forall in A. specialize (A _ Hin2). cbv beta iota in A.
    apply orb_true_iff in A. destruct A as [A|A]; [|now apply Z.leb_le].
    apply negb_true_iff, andb_false_iff in A. destruct A as [A|A]; apply Z.leb_gt in A; lia.
  - intros t1 t2. split.
    + assert (I : In (findClosestDepth 15) depths) by (vm_compute; tauto).
      destruct (getSingleDiveInfo_band 15 I) as [n [tg [Hin Hb]]].
      rewrite Hb, singleDiveInBand_limit.
      change (findClosestDepth 15) with 15 in Hin. simpl in Hin.
      repeat (destruct Hin as [Hin|Hin]; [inversion Hin; try reflexivity|]). destruct Hin.
    + assert (I : In (findClosestDepth 20) depths) by (vm_compute; tauto).
      destruct (getSingleDiveInfo_band 20 I) as [n [tg [Hin Hb]]].
      rewrite Hb, singleDiveInBand_limit.
      change (findClosestDepth 20) with 20 in Hin. simpl in Hin.
      repeat (destruct Hin as [Hin|Hin]; [inversion Hin; try reflexivity|]). destruct Hin.
Qed.

Lemma noDecoLimit_antitone_witness :
  (15 <? 38)%float = true /\ (38 <=? 95)%float = true /\ (95 <=? 130)%float = true /\
  noDecoLimit (getSingleDiveInfo 95 10) <= noDecoLimit (getSingleDiveInfo 38 60).
Proof.
  repeat (split; [reflexivity|]).
  exact (proj1 noDecoLimit_antitone 38 95 60 10 eq_refl eq_refl eq_refl)%float.
Defined.

(** (X6) Down to 100 ft a deeper dive of the same duration never gets an
    earlier pressure group; and from the 20 ft band on, a duration that
    exceeds the limit at one depth exceeds it at every deeper one.  Below
    100 ft the first fails: 13 minutes give group E at 90 ft and group D
    at 110 ft. *)
Theorem getSingleDiveInfo_deeper (d1 d2 t : float) :
  (d1 <=? d2)%float = true ->
  ((d2 <=? 100)%float = true ->
   forall g1 g2,
     pressureGroup (getSingleDiveInfo d1 t) = Some g1 ->
     pressureGroup (getSingleDiveInfo d2 t) = Some g2 ->
     String.leb g1 g2 = true) /\
  ((15 <? d1)%float = true -> (d2 <=? 130)%float = true ->
   isExceeded (getSingleDiveInfo d1 t) = true ->
   isExceeded (getSingleDiveInfo d2 t) = true) /\
  pressureGroup (getSingleDiveInfo 90 13) = Some "E" /\
  pressureGroup (getSingleDiveInfo 110 13) = Some "D".
Proof.
  intros H12.
  split; [|split; [|split; vm_compute; reflexivity]].
  - intros H2 g1 g2.
    assert (H130 : (d2 <=? 130)%float = true)
      by (apply leb_trans with 100%float; [exact H2 | reflexivity]).
    pose proof (findClosestDepth_order d1 d2 H12 H130) as M.
    assert (U : findClosestDepth d2 <= 100).
    { apply findClosestDepth_upper; [rewrite depths_eq; simpl; tauto | exact H2]. }
    destruct (findClosestDepth_least d2 H130) as [I2 _].
    destruct (findClosestDepth_least d1 (leb_trans _ _ _ H12 H130)) as [I1 _].
    destruct (getSingleDiveInfo_band d1 I1) as [n1 [tg1 [Hin1 Hb1]]].
    destruct (getSingleDiveInfo_band d2 I2) as [n2 [tg2 [Hin2 Hb2]]].
    rewrite Hb1, Hb2. intros G1 G2.
    apply singleDiveInBand_some in G1, G2. destruct G1 as [X1 G1]. destruct G2 as [X2 G2].
    assert (A : forallb (fun '(k1, (n1, tg1)) =>
                  forallb (fun '(k2, (n2, tg2)) =>
                     negb ((k1 <=? k2) && (k2 <=? 100)) || bandCovers n1 tg1 n2 tg2) navyTable1)
                navyTable1 = true) by (vm_compute; reflexivity).
    rewrite forallb_forall in A. specialize (A _ Hin1). cbv beta iota in A.
    rewrite forallb_forall in A. specialize (A _ Hin2). cbv beta iota in A.
    apply orb_true_iff in A. destruct A as [A|A].
    { apply negb_true_iff, andb_false_iff in A. destruct A as [A|A]; apply Z.leb_gt in A; lia. }
    destruct (findPressureGroup_threshold _ _ _ _ G2) as [y2 [Hy2 [Ha2 Hle2]]].
    apply assoc_In in Ha2; [|exact Z_eqb_true].
    unfold bandCovers in A. rewrite forallb_forall in A. specialize (A _ Ha2). cbv beta iota in A.
    apply existsb_exists in A. destruct A as [[x1 g1'] [Hx1 A]].
    rewrite !andb_true_iff in A. destruct A as [[A1 A2] A3].
    destruct (assoc Z.eqb x1 tg1) as [g|] eqn:Ea; [|discriminate].
    apply String.eqb_eq in A3. subst g.
    destruct (leb_not_nan _ _ Hle2) as [Nt _].
    pose proof (navyTable1_complete _ _ _ Hin1) as C1. unfold bandComplete in C1.
    pose proof (navyTable1_complete _ _ _ Hin2) as C2. unfold bandComplete in C2.
    rewrite !andb_true_iff in C1, C2. destruct C1 as [[C1 _] _]. destruct C2 as [[C2 _] _].
    apply negb_true_iff in C1, C2.
    pose proof (ltb_false_leb _ _ C1 Nt X1) as L1.
    pose proof (ltb_false_leb _ _ C2 Nt X2) as L2.
    pose proof (min3_cases t y2 n2 n1 Hle2 L2 L1) as L.
    assert (K : In x1 (keys tg1)).
    { unfold keys. apply in_map_iff. now exists (x1, g1'). }
    pose proof (findPressureGroup_no_later t tg1 (keys tg1) g1 x1 g1'
                  (navyTable1_groups_ascending _ _ _ Hin1) G1 K Ea (leb_trans _ _ _ L A1)) as R.
    apply (groupLetters_leb_trans g1 g1' g2); try assumption.
    + destruct (findPressureGroup_threshold _ _ _ _ G1) as [y1 [_ [Ha1 _]]].
      apply assoc_In in Ha1; [|exact Z_eqb_true]. exact (navyTable1_letters _ _ _ _ _ Hin1 Ha1).
    + exact (navyTable1_letters _ _ _ _ _ Hin1 Hx1).
    + exact (navyTable1_letters _ _ _ _ _ Hin2 Ha2).
  - intros H15 H130.
    pose proof (findClosestDepth_order d1 d2 H12 H130) as M.
    pose proof (findClosestDepth_from_20 d1 H15 (leb_trans _ _ _ H12 H130)) as K.
    destruct (findClosestDepth_least d2 H130) as [I2 _].
    destruct (findClosestDepth_least d1 (leb_trans _ _ _ H12 H130)) as [I1 _].
    destruct (getSingleDiveInfo_band d1 I1) as [n1 [tg1 [Hin1 Hb1]]].
    destruct (getSingleDiveInfo_band d2 I2) as [n2 [tg2 [Hin2 Hb2]]].
    rewrite Hb1, Hb2, !singleDiveInBand_exceeded. intros X.
    assert (A : forallb (fun '(k1, (n1, _)) =>
                  forallb (fun '(k2, (n2, _)) =>
                     negb ((20 <=? k1) && (k1 <=? k2)) || (Z2F n2 <=? Z2F n1)%float) navyTable1)
                navyTable1 = true) by (vm_compute; reflexivity).
    rewrite forallb_forall in A. specialize (A _ Hin1). cbv beta iota in A.
    rewrite forallb_forall in A. specialize (A _ Hin2). cbv beta iota in A.
    apply orb_true_iff in A. destruct A as [A|A].
    { apply negb_true_iff, andb_false_iff in A. destruct A as [A|A]; apply Z.leb_gt in A; lia. }
    now apply leb_ltb_trans with (Z2F n1).
Qed.

Lemma getSingleDiveInfo_deeper_witness :
  (42 <=? 77)%float = true /\ (77 <=? 100)%float = true /\
  pressureGroup (getSingleDiveInfo 42 20) = Some "D" /\
  pressureGroup (getSingleDiveInfo 77 20) = Some "E" /\
  String.leb "D" "E" = true.
Proof.
  repeat (split; [reflexivity|]).
  exact (proj1 (getSingleDiveInfo_deeper 42 77 20 eq_refl) eq_refl "D" "E" eq_refl eq_refl).
Defined.

(** ** Surface interval, continued *)

Lemma findNewGroup_some (t : float) entries g :
  findNewGroup t entries = Some (Some g) ->
  exists mn mx lo hi,
    In (g, (mn, mx)) entries /\ g <> "None" /\ rangeBounds mn mx = Some (lo, hi) /\
    (lo <=? t)%float = true /\ (t <? hi)%float = true.
Proof.
  induction entries as [|[g0 [mn mx]] rest IH]; simpl; [discriminate|].
  unfold inRange. destruct (rangeBounds mn mx) as [[lo hi]|] eqn:B; [|discriminate].
  destruct ((lo <=? t)%float && (t <? hi)%float) eqn:E.
  - destruct (String.eqb g0 "None") eqn:N; [discriminate|].
    intros H. inversion H; subst. apply andb_true_iff in E. destruct E as [E1 E2].
    exists mn, mx, lo, hi. split; [now left|]. split; [|auto].
    intros C. subst. discriminate.
  - intros H. destruct (IH H) as [mn' [mx' [lo' [hi' [I R]]]]].
    exists mn', mx', lo', hi'. split; [now right | exact R].
Qed.

Lemma navyTable2_ordered (currentGroup : string) entries :
  In (currentGroup, entries) navyTable2 -> orderedRanges entries = true.
Proof.
  intros H.
  assert (A : forallb (fun '(_, entries) => orderedRanges entries) navyTable2 = true)
    by (vm_compute; reflexivity).
  rewrite forallb_forall in A. exact (A _ H).
Qed.

Lemma navyTable2_bounds (currentGroup : string) entries :
  In (currentGroup, entries) navyTable2 ->
  forallb (fun '(_, (mn, mx)) => match rangeBounds mn mx with Some _ => true | None => false end)
          entries = true.
Proof.
  intros H.
  assert (A : forallb (fun '(_, entries) =>
                forallb (fun '(_, (mn, mx)) =>
                   match rangeBounds mn mx with Some _ => true | None => false end) entries)
              navyTable2 = true) by (vm_compute; reflexivity).
  rewrite forallb_forall in A. exact (A _ H).
Qed.

Lemma String_leb_of_not (a b : string) : String.leb a b = false -> String.leb b a = true.
Proof. intros H. destruct (String.leb_total a b) as [C|C]; [congruence | exact C]. Qed.

Lemma findNewGroup_monotone (t1 t2 : float) entries g1 g2 :
  orderedRanges entries = true ->
  (t1 <=? t2)%float = true ->
  findNewGroup t1 entries = Some (Some g1) ->
  findNewGroup t2 entries = Some (Some g2) ->
  String.leb g2 g1 = true.
Proof.
  intros Hord Hle. induction entries as [|[g [mn mx]] rest IH]; simpl; [discriminate|].
  simpl in Hord. unfold inRange.
  destruct (rangeBounds mn mx) as [[lo hi]|] eqn:B; [|discriminate].
  apply andb_true_iff in Hord. destruct Hord as [Hhead Hrest].
  rewrite forallb_forall in Hhead.
  destruct ((lo <=? t1)%float && (t1 <? hi)%float) eqn:E1.
  - destruct (String.eqb g "None") eqn:N; [discriminate|].
    intros H1. inversion H1; subst g1.
    destruct ((lo <=? t2)%float && (t2 <? hi)%float) eqn:E2.
    + intros H2. inversion H2. apply String_leb_refl.
    + intros H2. destruct (findNewGroup_some _ _ _ H2) as [mn' [mx' [lo' [hi' [I [Nn [B' _]]]]]]].
      specialize (Hhead _ I). simpl in Hhead. rewrite B' in Hhead.
      apply andb_true_iff in Hhead. destruct Hhead as [_ Hg].
      apply orb_true_iff in Hg. destruct Hg as [Hg|Hg].
      * apply String.eqb_eq in Hg. contradiction.
      * apply negb_true_iff in Hg. now apply String_leb_of_not.
  - destruct ((lo <=? t2)%float && (t2 <? hi)%float) eqn:E2; [|now apply IH].
    intros H1 _. exfalso.
    destruct (findNewGroup_some _ _ _ H1) as [mn' [mx' [lo' [hi' [I [_ [B' [L1 _]]]]]]]].
    specialize (Hhead _ I). simpl in Hhead. rewrite B' in Hhead.
    apply andb_true_iff in Hhead. destruct Hhead as [Hlo _].
    apply andb_true_iff in E2. destruct E2 as [_ E2].
    rewrite (leb_trans _ _ _ Hlo L1), (leb_ltb_trans _ _ _ Hle E2) in E1. discriminate.
Qed.

Lemma findNewGroup_nan (t : float) entries :
  forallb (fun '(_, (mn, mx)) => match rangeBounds mn mx with Some _ => true | None => false end)
          entries = true ->
  is_nan t = true -> findNewGroup t entries = Some None.
Proof.
  intros H Hn. induction entries as [|[g [mn mx]] rest IH]; simpl; [reflexivity|].
  simpl in H. unfold inRange. destruct (rangeBounds mn mx) as [[lo hi]|]; [|discriminate].
  destruct (nan_compares_false t lo Hn) as [_ [-> _]]. simpl. now apply IH.
Qed.

Lemma findNewGroup_before (t : float) entries target mn mx lo hi g :
  orderedRanges entries = true ->
  In (target, (mn, mx)) entries -> target <> "None" ->
  rangeBounds mn mx = Some (lo, hi) ->
  (t <? lo)%float = true ->
  findNewGroup t entries = Some (Some g) ->
  String.leb g target = false.
Proof.
  intros Hord Hin Hn B Hlt.
  induction entries as [|[g0 [mn0 mx0]] rest IH]; [destruct Hin|].
  simpl in Hord. simpl. unfold inRange.
  destruct (rangeBounds mn0 mx0) as [[lo0 hi0]|] eqn:B0; [|discriminate].
  apply andb_true_iff in Hord. destruct Hord as [Hhead Hrest].
  rewrite forallb_forall in Hhead.
  destruct Hin as [E|Hin].
  - inversion E; subst. rewrite B in B0. inversion B0; subst.
    rewrite (ltb_not_leb _ _ Hlt). simpl.
    intros H. exfalso.
    destruct (findNewGroup_some _ _ _ H) as [mn' [mx' [lo' [hi' [I [_ [B' [L1 _]]]]]]]].
    specialize (Hhead _ I). simpl in Hhead. rewrite B' in Hhead.
    apply andb_true_iff in Hhead. destruct Hhead as [Hlo _].
    pose proof (leb_trans _ _ _ Hlo L1) as C. rewrite (ltb_not_leb _ _ Hlt) in C. discriminate.
  - destruct ((lo0 <=? t)%float && (t <? hi0)%float) eqn:E0; [|now apply IH].
    destruct (String.eqb g0 "None") eqn:N; [discriminate|].
    intros H. inversion H; subst g.
    specialize (Hhead _ Hin). simpl in Hhead. rewrite B in Hhead.
    apply andb_true_iff in Hhead. destruct Hhead as [_ Hg].
    apply orb_true_iff in Hg. destruct Hg as [Hg|Hg].
    + apply String.eqb_eq in Hg. contradiction.
    + now apply negb_true_iff in Hg.
Qed.

Lemma getNewPressureGroup_letter (currentGroup surfaceInterval g : string) :
  getNewPressureGroup currentGroup surfaceInterval = Some (Some g) ->
  In g groupLetters /\ String.leb g currentGroup = true.
Proof.
  unfold getNewPressureGroup.
  destruct (assoc String.eqb currentGroup navyTable2) as [entries|] eqn:A; [|discriminate].
  destruct (parseTimeToMinutes surfaceInterval) as [t|]; [|discriminate].
  intros H. destruct (findNewGroup_some _ _ _ H) as [mn [mx [lo [hi [I [N _]]]]]].
  apply navyTable2_assoc in A.
  assert (C : forallb (fun '(cg, entries) =>
                forallb (fun '(g, _) =>
                   String.eqb g "None" ||
                   (existsb (String.eqb g) groupLetters && String.leb g cg)) entries)
              navyTable2 = true) by (vm_compute; reflexivity).
  rewrite forallb_forall in C. specialize (C _ A). cbv beta iota in C.
  rewrite forallb_forall in C. specialize (C _ I). cbv beta iota in C.
  apply orb_true_iff in C. destruct C as [C|C]; [apply String.eqb_eq in C; contradiction|].
  apply andb_true_iff in C. destruct C as [C1 C2]. split; [|exact C2].
  apply existsb_exists in C1. destruct C1 as [x [Hx E]]. apply String.eqb_eq in E. now subst.
Qed.

(** (X7) A longer surface interval never leaves the diver in a later
    group: when two intervals both yield a group from the same starting
    group, the group of the longer one is the same or earlier in the
    alphabet. *)
Theorem getNewPressureGroup_monotone (currentGroup s1 s2 : string) (t1 t2 : float) (g1 g2 : string) :
  parseTimeToMinutes s1 = Some t1 -> parseTimeToMinutes s2 = Some t2 ->
  (t1 <=? t2)%float = true ->
  getNewPressureGroup currentGroup s1 = Some (Some g1) ->
  getNewPressureGroup currentGroup s2 = Some (Some g2) ->
  String.leb g2 g1 = true.
Proof.
  intros P1 P2 Hle. unfold getNewPressureGroup.
  destruct (assoc String.eqb currentGroup navyTable2) as [entries|] eqn:A; [|discriminate].
  rewrite P1, P2. apply findNewGroup_monotone; [|exact Hle].
  apply (navyTable2_ordered currentGroup). now apply navyTable2_assoc.
Qed.

Lemma getNewPressureGroup_monotone_witness :
  parseTimeToMinutes "0:45" = Some 45%float /\ parseTimeToMinutes "3:30" = Some 210%float /\
  (45 <=? 210)%float = true /\
  getNewPressureGroup "H" "0:45" = Some (Some "G") /\
  getNewPressureGroup "H" "3:30" = Some (Some "C") /\
  String.leb "C" "G" = true.
Proof.
  assert (P1 : parseTimeToMinutes "0:45" = Some 45%float) by (vm_compute; reflexivity).
  assert (P2 : parseTimeToMinutes "3:30" = Some 210%float) by (vm_compute; reflexivity).
  assert (G1 : getNewPressureGroup "H" "0:45" = Some (Some "G")) by (vm_compute; reflexivity).
  assert (G2 : getNewPressureGroup "H" "3:30" = Some (Some "C")) by (vm_compute; reflexivity).
  repeat (split; [assumption || reflexivity|]).
  exact (getNewPressureGroup_monotone "H" "0:45" "3:30" 45 210 "G" "C" P1 P2 eq_refl G1 G2).
Defined.

(** (X8) A surface interval never moves the diver to a later group: the
    group [getNewPressureGroup] returns is one of A to K and is the
    starting group or an earlier one.  After exactly ten minutes it is
    the starting group itself. *)
Theorem getNewPressureGroup_never_later :
  (forall currentGroup surfaceInterval g,
     getNewPressureGroup currentGroup surfaceInterval = Some (Some g) ->
     In g groupLetters /\ String.leb g currentGroup = true) /\
  (forall currentGroup,
     In currentGroup (keys navyTable2) ->
     getNewPressureGroup currentGroup "0:10" = Some (Some currentGroup)).
Proof.
  split.
  - apply getNewPressureGroup_letter.
  - intros cg H. simpl in H.
    repeat (destruct H as [<-|H]; [vm_compute; reflexivity|]). destruct H.
Qed.

Lemma getNewPressureGroup_never_later_witness :
  (getNewPressureGroup "F" "2:00" = Some (Some "D") /\
   In "D" groupLetters /\ String.leb "D" "F" = true) /\
  (In "F" (keys navyTable2) /\ getNewPressureGroup "F" "0:10" = Some (Some "F")).
Proof.
  assert (G : getNewPressureGroup "F" "2:00" = Some (Some "D")) by (vm_compute; reflexivity).
  assert (K : In "F" (keys navyTable2)) by (simpl; tauto).
  split.
  - split; [exact G|]. exact (proj1 getNewPressureGroup_never_later "F" "2:00" "D" G).
  - split; [exact K|]. exact (proj2 getNewPressureGroup_never_later "F" K).
Defined.

Lemma split_no_separator (sep : ascii) (s : string) :
  containsChar sep s = false -> split sep s = [s].
Proof.
  induction s as [|c r IH]; simpl; [reflexivity|].
  intros H. apply orb_false_iff in H. destruct H as [H1 H2].
  rewrite H1, (IH H2). reflexivity.
Qed.

(** (X9) A surface interval written without a colon, such as a plain
    number of minutes, parses to [NaN], and [getNewPressureGroup] then
    returns [null] for every starting group. *)
Theorem getNewPressureGroup_without_colon (currentGroup surfaceInterval : string) :
  containsChar ":" surfaceInterval = false ->
  (exists t, parseTimeToMinutes surfaceInterval = Some t /\ is_nan t = true) /\
  getNewPressureGroup currentGroup surfaceInterval = Some None.
Proof.
  intros H.
  assert (P : parseTimeToMinutes surfaceInterval = Some nan).
  { unfold parseTimeToMinutes. now rewrite (split_no_separator _ _ H). }
  split; [exists nan; split; [exact P | reflexivity]|].
  unfold getNewPressureGroup.
  destruct (assoc String.eqb currentGroup navyTable2) as [entries|] eqn:A; [|reflexivity].
  rewrite P. apply findNewGroup_nan; [|reflexivity].
  apply (navyTable2_bounds currentGroup). now apply navyTable2_assoc.
Qed.

Lemma getNewPressureGroup_without_colon_witness :
  containsChar ":" "90" = false /\
  (exists t, parseTimeToMinutes "90" = Some t /\ is_nan t = true) /\
  getNewPressureGroup "K" "90" = Some None.
Proof.
  split; [reflexivity|]. exact (getNewPressureGroup_without_colon "K" "90" eq_refl).
Defined.

(** ** Reading a time *)

Lemma digit_not_space (c : ascii) : isDigit c = true -> isWhiteSpace c = false.
Proof.
  unfold isDigit, isWhiteSpace. intros H. apply andb_true_iff in H. destruct H as [H1 H2].
  apply Z.leb_le in H1, H2.
  repeat (apply orb_false_iff; split); try apply andb_false_iff;
    try (apply Z.eqb_neq; lia). right. apply Z.leb_gt. lia.
Qed.

Lemma digit_not_char (c x : ascii) :
  isDigit c = true -> isDigit x = false -> Ascii.eqb c x = false.
Proof.
  intros H1 H2. destruct (Ascii.eqb c x) eqn:E; [|reflexivity].
  apply Ascii.eqb_eq in E. subst. congruence.
Qed.

Lemma rev_string_involutive (s : string) : rev_string "" (rev_string "" s) = s.
Proof.
  assert (G : forall acc, rev_string "" (rev_string acc s) = rev_string s acc).
  { induction s as [|c r IH]; intros acc; simpl; [reflexivity|]. now rewrite IH. }
  rewrite G. reflexivity.
Qed.

Lemma digitsOnly_rev (acc s : string) :
  digitsOnly acc = true -> digitsOnly s = true -> digitsOnly (rev_string acc s) = true.
Proof.
  revert acc. induction s as [|c r IH]; intros acc Ha Hs; simpl; [exact Ha|].
  simpl in Hs. apply andb_true_iff in Hs. destruct Hs as [Hc Hr].
  apply IH; [|exact Hr]. simpl. now rewrite Hc.
Qed.

Lemma trimStart_digits (s : string) : digitsOnly s = true -> trimStart s = s.
Proof.
  destruct s as [|c r]; simpl; [reflexivity|].
  intros H. apply andb_true_iff in H. destruct H as [Hc _].
  now rewrite (digit_not_space c Hc).
Qed.

Lemma trim_digits (s : string) : digitsOnly s = true -> trim s = s.
Proof.
  intros H. unfold trim. rewrite (trimStart_digits s H).
  rewrite trimStart_digits by now apply digitsOnly_rev.
  apply rev_string_involutive.
Qed.

Lemma allDigits_digits (s : string) (acc : Z) :
  digitsOnly s = true -> exists v, allDigits acc s = Some v.
Proof.
  revert acc. induction s as [|c r IH]; intros acc H; simpl; [now exists acc|].
  simpl in H. apply andb_true_iff in H. destruct H as [Hc Hr]. rewrite Hc. now apply IH.
Qed.

Lemma allDigits_nonneg (s : string) (acc v : Z) :
  0 <= acc -> allDigits acc s = Some v -> 0 <= v.
Proof.
  revert acc. induction s as [|c r IH]; intros acc Ha; cbn [allDigits].
  - intros H. inversion H. now subst.
  - destruct (isDigit c) eqn:Hc; [|discriminate].
    apply IH. unfold isDigit in Hc. cbv zeta in Hc.
    apply andb_true_iff in Hc. destruct Hc as [H1 _].
    apply Z.leb_le in H1. unfold digitValue. lia.
Qed.

(** [Number] reads a numeral as its value. *)
Lemma Number_numeral (s : string) (v : Z) :
  isNumeral s = true -> allDigits 0 s = Some v -> Number_ s = Some (Z2F v).
Proof.
  intros H Hv. unfold Number_.
  destruct s as [|c r]; [discriminate|]. simpl in H.
  rewrite (trim_digits (String c r)) by exact H.
  apply andb_true_iff in H. destruct H as [Hc Hr].
  rewrite (digit_not_char c "-" Hc eq_refl), (digit_not_char c "+" Hc eq_refl).
  now rewrite Hv.
Qed.

Lemma digits_no_colon (s : string) : digitsOnly s = true -> containsChar ":" s = false.
Proof.
  induction s as [|c r IH]; simpl; [reflexivity|].
  intros H. apply andb_true_iff in H. destruct H as [Hc Hr].
  rewrite (digit_not_char c ":" Hc eq_refl). now apply IH.
Qed.

Lemma split_two (sep : ascii) (a b : string) :
  containsChar sep a = false -> containsChar sep b = false ->
  split sep (a ++ String sep b) = [a; b].
Proof.
  intros Ha Hb. induction a as [|c r IH]; simpl.
  - rewrite Ascii.eqb_refl. now rewrite (split_no_separator _ _ Hb).
  - simpl in Ha. apply orb_false_iff in Ha. destruct Ha as [H1 H2].
    rewrite H1, (IH H2). reflexivity.
Qed.

Lemma isNumeral_digits (s : string) : isNumeral s = true -> digitsOnly s = true.
Proof. destruct s; [discriminate | auto]. Qed.

Lemma minutes_exact (h m : Z) :
  0 <= h < 100 -> 0 <= m < 60 -> (Z2F h * 60 + Z2F m)%float = Z2F (60 * h + m).
Proof.
  intros Hh Hm.
  assert (A : forallb (fun h => forallb (fun m =>
                 PrimFloat.Leibniz.eqb (Z2F h * 60 + Z2F m)%float (Z2F (60 * h + m)))
                 (upTo 60)) (upTo 100) = true) by (vm_compute; reflexivity).
  rewrite forallb_forall in A. specialize (A h (In_upTo 100 h Hh)).
  rewrite forallb_forall in A. specialize (A m (In_upTo 60 m Hm)).
  now apply FloatAxioms.Leibniz.eqb_spec.
Qed.

(** (X10) [parseTimeToMinutes] reads a time written as hours, a colon and
    minutes, each a run of decimal digits, as sixty times the hours plus
    the minutes (for hours below 100 and minutes below 60). *)
Theorem parseTimeToMinutes_clock (hours minutes : string) (h m : Z) :
  isNumeral hours = true -> isNumeral minutes = true ->
  allDigits 0 hours = Some h -> allDigits 0 minutes = Some m ->
  h < 100 -> m < 60 ->
  parseTimeToMinutes (hours ++ ":" ++ minutes) = Some (Z2F (60 * h + m)).
Proof.
  intros Nh Nm Vh Vm Hh Hm. unfold parseTimeToMinutes.
  change (hours ++ ":" ++ minutes) with (hours ++ String ":" minutes).
  rewrite split_two by (apply digits_no_colon; now apply isNumeral_digits).
  rewrite (Number_numeral _ _ Nh Vh), (Number_numeral _ _ Nm Vm).
  pose proof (allDigits_nonneg _ _ _ (Z.le_refl 0) Vh).
  pose proof (allDigits_nonneg _ _ _ (Z.le_refl 0) Vm).
  rewrite minutes_exact by lia. reflexivity.
Qed.

Lemma parseTimeToMinutes_clock_witness :
  isNumeral "11" = true /\ isNumeral "59" = true /\
  allDigits 0 "11" = Some 11 /\ allDigits 0 "59" = Some 59 /\ 11 < 100 /\ 59 < 60 /\
  parseTimeToMinutes ("11" ++ ":" ++ "59") = Some (Z2F (60 * 11 + 59)).
Proof.
  repeat (split; [reflexivity|]).
  exact (parseTimeToMinutes_clock "11" "59" 11 59 eq_refl eq_refl eq_refl eq_refl eq_refl eq_refl).
Defined.

(** ** Minimum surface interval *)

(** (X11) For pressure groups A to K, [calculateMinimumSurfaceInterval]
    returns a time exactly when the target group is the starting group or
    an earlier one, and [null] otherwise; and after a surface interval of
    exactly that time [getNewPressureGroup] yields the target group. *)
Theorem calculateMinimumSurfaceInterval_reaches_target (startGroup targetGroup : string) :
  In startGroup groupLetters -> In targetGroup groupLetters ->
  (String.leb targetGroup startGroup = true <->
   exists minTime,
     calculateMinimumSurfaceInterval (Some startGroup) (Some targetGroup) = Some (Some minTime)) /\
  (String.leb targetGroup startGroup = false <->
   calculateMinimumSurfaceInterval (Some startGroup) (Some targetGroup) = Some None) /\
  (forall minTime,
     calculateMinimumSurfaceInterval (Some startGroup) (Some targetGroup) = Some (Some minTime) ->
     getNewPressureGroup startGroup minTime = Some (Some targetGroup)).
Proof.
  intros Hs Ht.
  assert (A : forallb (fun '(s, t) =>
                match calculateMinimumSurfaceInterval (Some s) (Some t) with
                | Some (Some m) =>
                    String.leb t s
                    && match getNewPressureGroup s m with
                       | Some (Some g) => String.eqb g t
                       | _ => false
                       end
                | Some None => negb (String.leb t s)
                | None => false
                end) (list_prod groupLetters groupLetters) = true) by (vm_compute; reflexivity).
  rewrite forallb_forall in A.
  specialize (A _ (proj2 (in_prod_iff groupLetters groupLetters startGroup targetGroup)
                     (conj Hs Ht))).
  cbv beta iota in A.
  destruct (calculateMinimumSurfaceInterval (Some startGroup) (Some targetGroup))
    as [[m|]|]; [| |discriminate].
  - apply andb_true_iff in A. destruct A as [A1 A2]. rewrite A1.
    split; [split; [intros _; now exists m | reflexivity]|].
    split; [split; discriminate|].
    intros m' E. inversion E; subst m'.
    destruct (getNewPressureGroup startGroup m) as [[g|]|]; try discriminate.
    apply String.eqb_eq in A2. now subst.
  - apply negb_true_iff in A. rewrite A.
    split; [split; [discriminate | intros [m E]; discriminate]|].
    split; [split; reflexivity | discriminate].
Qed.

Lemma calculateMinimumSurfaceInterval_reaches_target_witness :
  In "H" groupLetters /\ In "D" groupLetters /\
  calculateMinimumSurfaceInterval (Some "H") (Some "D") = Some (Some "2:24") /\
  getNewPressureGroup "H" "2:24" = Some (Some "D").
Proof.
  assert (A : In "H" groupLetters) by (simpl; tauto).
  assert (B : In "D" groupLetters) by (simpl; tauto).
  assert (C : calculateMinimumSurfaceInterval (Some "H") (Some "D") = Some (Some "2:24"))
    by (vm_compute; reflexivity).
  split; [exact A|]. split; [exact B|]. split; [exact C|].
  exact (proj2 (proj2 (calculateMinimumSurfaceInterval_reaches_target "H" "D" A B)) "2:24" C).
Defined.

(** (X12) The time [calculateMinimumSurfaceInterval] returns is a minimum:
    a surface interval shorter than it never reaches the target group,
    nor an earlier one; whatever group [getNewPressureGroup] gives for it
    comes strictly later in the alphabet than the target. *)
Theorem calculateMinimumSurfaceInterval_is_minimum
    (startGroup targetGroup minTime surfaceInterval g : string) (lo t : float) :
  In targetGroup groupLetters ->
  calculateMinimumSurfaceInterval (Some startGroup) (Some targetGroup) = Some (Some minTime) ->
  parseTimeToMinutes minTime = Some lo ->
  parseTimeToMinutes surfaceInterval = Some t ->
  (t <? lo)%float = true ->
  getNewPressureGroup startGroup surfaceInterval = Some (Some g) ->
  String.leb g targetGroup = false.
Proof.
  intros Ht Hm Plo Pt Hlt. unfold calculateMinimumSurfaceInterval in Hm.
  destruct (String.eqb startGroup "" || String.eqb targetGroup ""); [discriminate|].
  cbv zeta in Hm. destruct (_ <=? _); [|discriminate].
  unfold getNewPressureGroup.
  destruct (assoc String.eqb startGroup navyTable2) as [entries|] eqn:A;
    [|destruct (isInherited startGroup); discriminate].
  destruct (assoc String.eqb targetGroup entries) as [[mn mx]|] eqn:T;
    [|destruct (isInherited targetGroup); discriminate].
  inversion Hm; subst mn. rewrite Pt.
  apply navyTable2_assoc in A.
  pose proof (navyTable2_bounds _ _ A) as Bs.
  apply assoc_In in T; [|exact String_eqb_true].
  rewrite forallb_forall in Bs. pose proof (Bs _ T) as B. cbv beta iota in B.
  unfold rangeBounds in B. rewrite Plo in B.
  destruct (if String.eqb mx "--" then Some infinity else parseTimeToMinutes mx) as [hi|] eqn:Hhi;
    [|discriminate].
  apply (findNewGroup_before t entries targetGroup minTime mx lo hi).
  - now apply (navyTable2_ordered startGroup).
  - exact T.
  - intros C. subst. simpl in Ht. repeat (destruct Ht as [Ht|Ht]; [discriminate|]). exact Ht.
  - unfold rangeBounds. now rewrite Plo, Hhi.
  - exact Hlt.
Qed.

Lemma calculateMinimumSurfaceInterval_is_minimum_witness :
  In "D" groupLetters /\
  calculateMinimumSurfaceInterval (Some "H") (Some "D") = Some (Some "2:24") /\
  parseTimeToMinutes "2:24" = Some 144%float /\
  parseTimeToMinutes "2:00" = Some 120%float /\
  (120 <? 144)%float = true /\
  getNewPressureGroup "H" "2:00" = Some (Some "E") /\
  String.leb "E" "D" = false.
Proof.
  assert (A : In "D" groupLetters) by (simpl; tauto).
  assert (B : calculateMinimumSurfaceInterval (Some "H") (Some "D") = Some (Some "2:24"))
    by (vm_compute; reflexivity).
  assert (P1 : parseTimeToMinutes "2:24" = Some 144%float) by (vm_compute; reflexivity).
  assert (P2 : parseTimeToMinutes "2:00" = Some 120%float) by (vm_compute; reflexivity).
  assert (G : getNewPressureGroup "H" "2:00" = Some (Some "E")) by (vm_compute; reflexivity).
  repeat (split; [assumption || reflexivity|]).
  exact (calculateMinimumSurfaceInterval_is_minimum "H" "D" "2:24" "2:00" "E" 144 120
           A B P1 P2 eq_refl G).
Defined.

(** ** Repetitive dive, continued *)

Lemma assoc_keys {K V : Type} (eqb : K -> K -> bool) (key : K) (obj : list (K * V)) (v : V) :
  (forall a b, eqb a b = true -> a = b) ->
  assoc eqb key obj = Some v -> In key (keys obj).
Proof.
  intros Heq H. apply (assoc_In eqb key obj v Heq) in H.
  unfold keys. apply in_map_iff. now exists (key, v).
Qed.

Lemma assoc_none_keys {K V : Type} (eqb : K -> K -> bool) (key : K) (obj : list (K * V)) :
  (forall a, eqb a a = true) ->
  assoc eqb key obj = None -> ~ In key (keys obj).
Proof.
  intros Hrefl H C. destruct (In_keys_assoc eqb key obj Hrefl C) as [v E]. congruence.
Qed.

(** The cases of [getRepetitiveDiveInfo], by what the look-ups find. *)
Lemma getRepetitiveDiveInfo_found (pressureGroup : option string) (depth : float) row rnt andl :
  findClosestDepth depth <> -1 ->
  assoc Z.eqb (findClosestDepth depth) navyTable3 = Some row ->
  assoc String.eqb (showGroup pressureGroup) row = Some (rnt, andl) ->
  exists exceeded message,
    getRepetitiveDiveInfo pressureGroup depth =
      Return {| residualNitrogenTime := Some rnt; adjustedNoDecoLimit := Some andl;
                repIsExceeded := exceeded; repMessage := message |} /\
    exceeded = isNL rnt || isZeroCell andl.
Proof.
  intros Hn Hr Hg. unfold getRepetitiveDiveInfo. cbv zeta.
  apply Z.eqb_neq in Hn. rewrite Hn, Hr, Hg.
  destruct (isNL rnt || isZeroCell andl); eexists; eexists; split; reflexivity.
Qed.

Lemma getRepetitiveDiveInfo_returns (pressureGroup : option string) (depth : float) r :
  getRepetitiveDiveInfo pressureGroup depth = Return r ->
  r = invalidRepetitiveDive \/
  exists row rnt andl,
    In (findClosestDepth depth, row) navyTable3 /\
    In (showGroup pressureGroup, (rnt, andl)) row /\
    residualNitrogenTime r = Some rnt /\ adjustedNoDecoLimit r = Some andl /\
    repIsExceeded r = isNL rnt || isZeroCell andl.
Proof.
  unfold getRepetitiveDiveInfo. cbv zeta.
  destruct (findClosestDepth depth =? -1); [intros H; inversion H; now left|].
  destruct (assoc Z.eqb (findClosestDepth depth) navyTable3) as [row|] eqn:Hr;
    [|intros H; inversion H; now left].
  destruct (assoc String.eqb (showGroup pressureGroup) row) as [[rnt andl]|] eqn:Hg.
  - apply assoc_In in Hr; [|exact Z_eqb_true]. apply assoc_In in Hg; [|exact String_eqb_true].
    intros H. right. exists row, rnt, andl.
    destruct (isNL rnt || isZeroCell andl); inversion H; simpl; auto.
  - destruct (isInherited (showGroup pressureGroup)); [discriminate|].
    intros H; inversion H; now left.
Qed.

Lemma getRepetitiveDiveInfo_letter (g : string) (depth : float) row :
  In g groupLetters -> In (findClosestDepth depth, row) navyTable3 ->
  exists rnt andl exceeded message,
    In (g, (rnt, andl)) row /\
    getRepetitiveDiveInfo (Some g) depth =
      Return {| residualNitrogenTime := Some rnt; adjustedNoDecoLimit := Some andl;
                repIsExceeded := exceeded; repMessage := message |} /\
    exceeded = isNL rnt || isZeroCell andl.
Proof.
  intros Hg Hrow.
  assert (A : forallb (fun '(d, row) =>
                negb (d =? -1)
                && match assoc Z.eqb d navyTable3 with
                   | Some row' =>
                       forallb (fun g => match assoc String.eqb g row, assoc String.eqb g row' with
                                         | Some (a, b), Some (a', b') =>
                                             match a, a' with
                                             | Minutes x, Minutes y => x =? y
                                             | NL, NL => true
                                             | _, _ => false
                                             end
                                             && match b, b' with
                                                | Minutes x, Minutes y => x =? y
                                                | NL, NL => true
                                                | _, _ => false
                                                end
                                         | _, _ => false
                                         end) groupLetters
                   | None => false
                   end) navyTable3 = true) by (vm_compute; reflexivity).
  rewrite forallb_forall in A. specialize (A _ Hrow). cbv beta iota in A.
  apply andb_true_iff in A. destruct A as [A1 A2].
  apply negb_true_iff, Z.eqb_neq in A1.
  destruct (assoc Z.eqb (findClosestDepth depth) navyTable3) as [row'|] eqn:Er; [|discriminate].
  rewrite forallb_forall in A2. specialize (A2 g Hg). cbv beta in A2.
  destruct (assoc String.eqb g row) as [[a b]|] eqn:E1; [|discriminate].
  destruct (assoc String.eqb g row') as [[a' b']|] eqn:E2; [|discriminate].
  apply andb_true_iff in A2. destruct A2 as [Ea Eb].
  assert (a = a').
  { destruct a, a'; try discriminate; [apply Z.eqb_eq in Ea; now subst | reflexivity]. }
  assert (b = b').
  { destruct b, b'; try discriminate; [apply Z.eqb_eq in Eb; now subst | reflexivity]. }
  subst a' b'.
  destruct (getRepetitiveDiveInfo_found (Some g) depth row' a b A1 Er E2) as [ex [msg [R1 R2]]].
  exists a, b, ex, msg. split; [|split; assumption].
  now apply (assoc_In String.eqb g row (a, b) String_eqb_true).
Qed.

Lemma navyTable3_ordered depth row : In (depth, row) navyTable3 -> rowOrdered row = true.
Proof.
  intros H.
  assert (A : forallb (fun '(_, row) => rowOrdered row) navyTable3 = true)
    by (vm_compute; reflexivity).
  rewrite forallb_forall in A. exact (A _ H).
Qed.

(** (X13) The adjusted limit is what is left of the limit of table 1: when
    [getRepetitiveDiveInfo] allows a repetitive dive and gives the
    adjusted limit in minutes, residual nitrogen time and adjusted limit
    add up to the no-decompression limit [getSingleDiveInfo] reports for
    the same depth. *)
Theorem getRepetitiveDiveInfo_limits_add_up
    (pressureGroup : option string) (depth bottomTime : float) (r : RepetitiveDiveInfo)
    (rnt andl : Z) :
  getRepetitiveDiveInfo pressureGroup depth = Return r ->
  repIsExceeded r = false ->
  residualNitrogenTime r = Some (Minutes rnt) ->
  adjustedNoDecoLimit r = Some (Minutes andl) ->
  rnt + andl = noDecoLimit (getSingleDiveInfo depth bottomTime).
Proof.
  intros H He Hr Ha.
  destruct (getRepetitiveDiveInfo_returns _ _ _ H) as [->|[row [c1 [c2 [I1 [I2 [R1 [R2 R3]]]]]]]];
    [discriminate|].
  rewrite Hr in R1. rewrite Ha in R2. inversion R1; inversion R2; subst c1 c2.
  rewrite He in R3. symmetry in R3. apply orb_false_iff in R3. destruct R3 as [_ Z0].
  assert (A : forallb (fun '(d, _, rnt, andl) =>
                match rnt, andl with
                | Minutes a, Minutes b =>
                    (b =? 0) ||
                    match assoc Z.eqb d navyTable1 with
                    | Some (n, _) => (a + b =? n) && negb (d =? -1)
                    | None => false
                    end
                | _, _ => true
                end) table3Entries = true) by (vm_compute; reflexivity).
  rewrite forallb_forall in A.
  specialize (A _ (table3Entries_In _ _ _ _ _ I1 I2)). cbv beta iota in A.
  simpl in Z0. rewrite Z0 in A. cbn [orb] in A.
  destruct (assoc Z.eqb (findClosestDepth depth) navyTable1) as [[n tg]|] eqn:E; [|discriminate].
  apply andb_true_iff in A. destruct A as [A1 A2].
  apply Z.eqb_eq in A1. apply negb_true_iff, Z.eqb_neq in A2.
  rewrite (getSingleDiveInfo_limit depth bottomTime n tg A2 E). exact A1.
Qed.

Lemma getRepetitiveDiveInfo_limits_add_up_witness :
  getRepetitiveDiveInfo (Some "D") 58 =
    Return {| residualNitrogenTime := Some (Minutes 24); adjustedNoDecoLimit := Some (Minutes 26);
              repIsExceeded := false;
              repMessage := "Residual nitrogen time: 24 minutes. Adjusted no-decompression limit: 26 minutes." |} /\
  24 + 26 = noDecoLimit (getSingleDiveInfo 58 0).
Proof.
  assert (A : getRepetitiveDiveInfo (Some "D") 58 =
    Return {| residualNitrogenTime := Some (Minutes 24); adjustedNoDecoLimit := Some (Minutes 26);
              repIsExceeded := false;
              repMessage := "Residual nitrogen time: 24 minutes. Adjusted no-decompression limit: 26 minutes." |})
    by (vm_compute; reflexivity).
  split; [exact A|].
  exact (getRepetitiveDiveInfo_limits_add_up (Some "D") 58 0 _ 24 26 A eq_refl eq_refl eq_refl).
Defined.

(** (X14) Table 3 has no rows for 15, 25 and 35 ft.  A depth that table 1
    rounds up to one of them (above 10 and up to 15 ft, above 20 and up
    to 25 ft, above 30 and up to 35 ft) is an invalid depth for
    [getRepetitiveDiveInfo], whatever the pressure group, although
    [getSingleDiveInfo] accepts it. *)
Theorem getRepetitiveDiveInfo_missing_rows (pressureGroup : option string) (depth : float) :
  ((10 <? depth)%float = true /\ (depth <=? 15)%float = true) \/
  ((20 <? depth)%float = true /\ (depth <=? 25)%float = true) \/
  ((30 <? depth)%float = true /\ (depth <=? 35)%float = true) ->
  getRepetitiveDiveInfo pressureGroup depth = Return invalidRepetitiveDive /\
  isExceeded (getSingleDiveInfo depth 0) = false.
Proof.
  intros H.
  assert (K : findClosestDepth depth = 15 \/ findClosestDepth depth = 25
              \/ findClosestDepth depth = 35).
  { assert (D : forall k, In k [15; 25; 35] -> In k depths)
      by (intros k Hk; rewrite depths_eq; simpl in *; tauto).
    destruct H as [[H1 H2]|[[H1 H2]|[H1 H2]]]; [left | right; left | right; right].
    - apply (findClosestDepth_between 10 15);
        [apply D; simpl; tauto | apply next_depth; vm_compute; reflexivity | exact H1 | exact H2].
    - apply (findClosestDepth_between 20 25);
        [apply D; simpl; tauto | apply next_depth; vm_compute; reflexivity | exact H1 | exact H2].
    - apply (findClosestDepth_between 30 35);
        [apply D; simpl; tauto | apply next_depth; vm_compute; reflexivity | exact H1 | exact H2]. }
  split.
  - unfold getRepetitiveDiveInfo. cbv zeta.
    destruct K as [-> | [-> | ->]]; reflexivity.
  - rewrite (getSingleDiveInfo_normalized depth (Z2F (findClosestDepth depth))).
    + destruct K as [-> | [-> | ->]]; vm_compute; reflexivity.
    + destruct K as [E|[E|E]]; rewrite E; vm_compute; reflexivity.
Qed.

Lemma getRepetitiveDiveInfo_missing_rows_witness :
  ((10 <? 12)%float = true /\ (12 <=? 15)%float = true) /\
  getRepetitiveDiveInfo (Some "B") 12 = Return invalidRepetitiveDive /\
  isExceeded (getSingleDiveInfo 12 0) = false.
Proof.
  split; [split; reflexivity|].
  exact (getRepetitiveDiveInfo_missing_rows (Some "B") 12 (or_introl (conj eq_refl eq_refl))).
Defined.

(** (X15) [getRepetitiveDiveInfo] throws exactly when the depth has a row
    in table 3 and the pressure group is the name of a property every
    object inherits; for a pressure group A to K, [null], or any other
    string it returns. *)
Theorem getRepetitiveDiveInfo_throws_iff (pressureGroup : option string) (depth : float) :
  (exists message, getRepetitiveDiveInfo pressureGroup depth = Throw message) <->
  In (findClosestDepth depth) (keys navyTable3) /\ isInherited (showGroup pressureGroup) = true.
Proof.
  unfold getRepetitiveDiveInfo. cbv zeta.
  destruct (findClosestDepth depth =? -1) eqn:N.
  - apply Z.eqb_eq in N. rewrite N. split; [intros [m H]; discriminate|].
    intros [H _]. simpl in H. repeat (destruct H as [H|H]; [discriminate|]). destruct H.
  - destruct (assoc Z.eqb (findClosestDepth depth) navyTable3) as [row|] eqn:Hr.
    + pose proof (assoc_keys _ _ _ _ Z_eqb_true Hr) as Hk.
      destruct (assoc String.eqb (showGroup pressureGroup) row) as [[rnt andl]|] eqn:Hg.
      * assert (A : forallb (fun '(_, g, _, _) => negb (isInherited g)) table3Entries = true)
          by (vm_compute; reflexivity).
        rewrite forallb_forall in A.
        apply assoc_In in Hr; [|exact Z_eqb_true]. apply assoc_In in Hg; [|exact String_eqb_true].
        specialize (A _ (table3Entries_In _ _ _ _ _ Hr Hg)). cbv beta iota in A.
        apply negb_true_iff in A.
        split; [destruct (isNL rnt || isZeroCell andl); intros [m H]; discriminate|].
        intros [_ C]. congruence.
      * destruct (isInherited (showGroup pressureGroup)).
        -- split; [auto | intros _; eexists; reflexivity].
        -- split; [intros [m H]; discriminate | intros [_ C]; discriminate].
    + split; [intros [m H]; discriminate|].
      intros [C _]. exfalso. revert C. apply assoc_none_keys with (eqb := Z.eqb); [|exact Hr].
      apply Z.eqb_refl.
Qed.

Lemma getRepetitiveDiveInfo_throws_iff_witness :
  In (findClosestDepth 30) (keys navyTable3) /\ isInherited (showGroup (Some "toString")) = true /\
  exists message, getRepetitiveDiveInfo (Some "toString") 30 = Throw message.
Proof.
  assert (A : In (findClosestDepth 30) (keys navyTable3)) by (vm_compute; tauto).
  assert (B : isInherited (showGroup (Some "toString")) = true) by reflexivity.
  split; [exact A|]. split; [exact B|].
  exact (proj2 (getRepetitiveDiveInfo_throws_iff (Some "toString") 30) (conj A B)).
Defined.

(** (X16) At a given depth a later pressure group is never better off: if
    [getRepetitiveDiveInfo] allows the repetitive dive for a group, it
    allows it for every earlier group, with a residual nitrogen time
    that is no longer and an adjusted limit that is no shorter. *)
Theorem getRepetitiveDiveInfo_later_group (g1 g2 : string) (depth : float)
    (r1 r2 : RepetitiveDiveInfo) :
  In g1 groupLetters -> In g2 groupLetters -> String.leb g1 g2 = true ->
  getRepetitiveDiveInfo (Some g1) depth = Return r1 ->
  getRepetitiveDiveInfo (Some g2) depth = Return r2 ->
  repIsExceeded r2 = false ->
  repIsExceeded r1 = false /\
  (forall a1 a2, residualNitrogenTime r1 = Some (Minutes a1) ->
                 residualNitrogenTime r2 = Some (Minutes a2) -> a1 <= a2) /\
  (forall b1 b2, adjustedNoDecoLimit r1 = Some (Minutes b1) ->
                 adjustedNoDecoLimit r2 = Some (Minutes b2) -> b2 <= b1).
Proof.
  intros H1 H2 Hle R1 R2 E2.
  destruct (getRepetitiveDiveInfo_returns _ _ _ R2)
    as [->|[row [rnt2 [andl2 [Irow [I2 [T2 [A2 X2]]]]]]]]; [discriminate|].
  destruct (getRepetitiveDiveInfo_letter g1 depth row H1 Irow)
    as [rnt1 [andl1 [ex [msg [I1 [R1' X1]]]]]].
  rewrite R1' in R1. inversion R1; subst r1. clear R1. simpl.
  pose proof (navyTable3_ordered _ _ Irow) as O. unfold rowOrdered in O.
  cbn [showGroup] in I2.
  rewrite forallb_forall in O. specialize (O _ I1). cbv beta iota in O.
  rewrite forallb_forall in O. specialize (O _ I2). cbv beta iota in O.
  rewrite Hle in O. rewrite E2 in X2. rewrite <- X2 in O. cbn [negb orb] in O.
  rewrite !andb_true_iff in O. destruct O as [[O1 O2] O3].
  apply negb_true_iff in O1. rewrite O1 in X1. split; [exact X1|].
  rewrite T2, A2. split.
  - intros a1 a2 Ha1 Ha2. inversion Ha1; inversion Ha2; subst. now apply Z.leb_le.
  - intros b1 b2 Hb1 Hb2. inversion Hb1; inversion Hb2; subst. now apply Z.leb_le.
Qed.

Lemma getRepetitiveDiveInfo_later_group_witness :
  In "C" groupLetters /\ In "F" groupLetters /\ String.leb "C" "F" = true /\
  getRepetitiveDiveInfo (Some "C") 60 =
    Return {| residualNitrogenTime := Some (Minutes 17); adjustedNoDecoLimit := Some (Minutes 33);
              repIsExceeded := false;
              repMessage := "Residual nitrogen time: 17 minutes. Adjusted no-decompression limit: 33 minutes." |} /\
  getRepetitiveDiveInfo (Some "F") 60 =
    Return {| residualNitrogenTime := Some (Minutes 36); adjustedNoDecoLimit := Some (Minutes 14);
              repIsExceeded := false;
              repMessage := "Residual nitrogen time: 36 minutes. Adjusted no-decompression limit: 14 minutes." |} /\
  17 <= 36 /\ 14 <= 33.
Proof.
  assert (A : In "C" groupLetters) by (simpl; tauto).
  assert (B : In "F" groupLetters) by (simpl; tauto).
  assert (R1 : getRepetitiveDiveInfo (Some "C") 60 =
    Return {| residualNitrogenTime := Some (Minutes 17); adjustedNoDecoLimit := Some (Minutes 33);
              repIsExceeded := false;
              repMessage := "Residual nitrogen time: 17 minutes. Adjusted no-decompression limit: 33 minutes." |})
    by (vm_compute; reflexivity).
  assert (R2 : getRepetitiveDiveInfo (Some "F") 60 =
    Return {| residualNitrogenTime := Some (Minutes 36); adjustedNoDecoLimit := Some (Minutes 14);
              repIsExceeded := false;
              repMessage := "Residual nitrogen time: 36 minutes. Adjusted no-decompression limit: 14 minutes." |})
    by (vm_compute; reflexivity).
  destruct (getRepetitiveDiveInfo_later_group "C" "F" 60 _ _ A B eq_refl R1 R2 eq_refl)
    as [_ [Ha Hb]].
  split; [exact A|]. split; [exact B|]. split; [reflexivity|].
  split; [exact R1|]. split; [exact R2|].
  split; [exact (Ha 17 36 eq_refl eq_refl) | exact (Hb 33 14 eq_refl eq_refl)].
Defined.

(** (X17) The three tables fit together: a pressure group that
    [getSingleDiveInfo] returns is a starting group of table 2, and a
    group that [getNewPressureGroup] returns has an entry in every row of
    table 3, so that [getRepetitiveDiveInfo] finds it at every depth that
    has a row. *)
Theorem pressure_groups_chain :
  (forall depth bottomTime g,
     pressureGroup (getSingleDiveInfo depth bottomTime) = Some g ->
     In g (keys navyTable2)) /\
  (forall currentGroup surfaceInterval g depth,
     getNewPressureGroup currentGroup surfaceInterval = Some (Some g) ->
     In (findClosestDepth depth) (keys navyTable3) ->
     exists r rnt andl,
       getRepetitiveDiveInfo (Some g) depth = Return r /\
       residualNitrogenTime r = Some rnt /\ adjustedNoDecoLimit r = Some andl).
Proof.
  assert (L : forall g, In g groupLetters -> In g (keys navyTable2)) by (simpl; tauto).
  split.
  - intros depth bottomTime g H. apply L.
    destruct (findClosestDepth_key depth) as [E|Hk].
    + unfold getSingleDiveInfo in H. rewrite E in H. discriminate.
    + destruct (getSingleDiveInfo_band depth Hk) as [n [tg [Hin Hb]]].
      rewrite Hb in H. apply singleDiveInBand_some in H. destruct H as [_ H].
      destruct (findPressureGroup_threshold _ _ _ _ H) as [y [_ [Ha _]]].
      apply assoc_In in Ha; [|exact Z_eqb_true]. exact (navyTable1_letters _ _ _ _ _ Hin Ha).
  - intros cg si g depth H Hk.
    destruct (getNewPressureGroup_letter cg si g H) as [Hg _].
    destruct (In_keys_assoc Z.eqb _ navyTable3 Z.eqb_refl Hk) as [row Hr].
    apply assoc_In in Hr; [|exact Z_eqb_true].
    destruct (getRepetitiveDiveInfo_letter g depth row Hg Hr) as [rnt [andl [ex [msg [_ [R _]]]]]].
    eexists. exists rnt, andl. split; [exact R|]. split; reflexivity.
Qed.

Lemma pressure_groups_chain_witness :
  pressureGroup (getSingleDiveInfo 60 30) = Some "F" /\ In "F" (keys navyTable2) /\
  getNewPressureGroup "F" "1:30" = Some (Some "D") /\
  In (findClosestDepth 50) (keys navyTable3) /\
  exists r rnt andl,
    getRepetitiveDiveInfo (Some "D") 50 = Return r /\
    residualNitrogenTime r = Some rnt /\ adjustedNoDecoLimit r = Some andl.
Proof.
  assert (A : pressureGroup (getSingleDiveInfo 60 30) = Some "F") by (vm_compute; reflexivity).
  assert (B : getNewPressureGroup "F" "1:30" = Some (Some "D")) by (vm_compute; reflexivity).
  assert (C : In (findClosestDepth 50) (keys navyTable3)) by (vm_compute; tauto).
  split; [exact A|]. split; [exact (proj1 pressure_groups_chain 60 30 "F" A)%float|].
  split; [exact B|]. split; [exact C|].
  exact (proj2 pressure_groups_chain "F" "1:30" "D" 50%float B C).
Defined.

Lemma parseInt_minutes (actual : Z) :
  0 <= actual < 1000 -> parseInt (VStr (showZ actual)) = Some (Z2F actual).
Proof.
  intros H.
  assert (A : forallb (fun a =>
                match parseInt (VStr (showZ a)) with
                | Some p => PrimFloat.Leibniz.eqb p (Z2F a)
                | None => false
                end) (upTo 1000) = true) by (vm_compute; reflexivity).
  rewrite forallb_forall in A. specialize (A actual (In_upTo 1000 actual H)). cbv beta in A.
  destruct (parseInt (VStr (showZ actual))) as [p|]; [|discriminate].
  apply FloatAxioms.Leibniz.eqb_spec in A. now subst.
Qed.

(** (X18) Staying within the adjusted limit keeps the repetitive dive
    within the table: when [getRepetitiveDiveInfo] allows the dive with a
    residual nitrogen time and an adjusted limit in minutes, then for an
    actual bottom time typed as a whole number of minutes (below 1000)
    [getFinalPressureGroup] returns a group if that time is at most the
    adjusted limit, and [null] if it is longer. *)
Theorem getFinalPressureGroup_adjusted_limit
    (group : option string) (depth : float) (r : RepetitiveDiveInfo)
    (rnt andl actual : Z) :
  getRepetitiveDiveInfo group depth = Return r ->
  repIsExceeded r = false ->
  residualNitrogenTime r = Some (Minutes rnt) ->
  adjustedNoDecoLimit r = Some (Minutes andl) ->
  0 <= actual < 1000 ->
  (actual <= andl ->
   exists g, getFinalPressureGroup depth (VStr (showZ actual)) (VNum (Z2F rnt)) = Some (Some g)) /\
  (andl < actual ->
   getFinalPressureGroup depth (VStr (showZ actual)) (VNum (Z2F rnt)) = Some None).
Proof.
  intros H He Hr Ha Hact.
  destruct (getRepetitiveDiveInfo_returns _ _ _ H) as [->|[row [c1 [c2 [I1 [I2 [R1 [R2 R3]]]]]]]];
    [discriminate|].
  rewrite Hr in R1. rewrite Ha in R2. inversion R1; inversion R2; subst c1 c2.
  rewrite He in R3. symmetry in R3. apply orb_false_iff in R3. destruct R3 as [_ Z0].
  simpl in Z0.
  assert (A : forallb (fun '(d, _, rnt, andl) =>
                match rnt, andl with
                | Minutes a, Minutes b =>
                    (b =? 0) ||
                    (existsb (Z.eqb d) depths &&
                     match assoc Z.eqb d navyTable1 with
                     | Some (n, tg) =>
                         (a + b =? n) && (0 <=? a) && (a <=? 400) && (0 <=? b) && (b <=? 400)
                         && bandComplete n tg
                         && match parseInt (VNum (Z2F a)) with
                            | Some q => PrimFloat.Leibniz.eqb q (Z2F a)
                            | None => false
                            end
                         && match pressureGroup
                                    (singleDiveInBand d n tg (Z2F b + Z2F a)%float) with
                            | Some _ => true
                            | None => false
                            end
                     | None => false
                     end)
                | _, _ => true
                end) table3Entries = true) by (vm_compute; reflexivity).
  rewrite forallb_forall in A.
  specialize (A _ (table3Entries_In _ _ _ _ _ I1 I2)). cbv beta iota in A.
  rewrite Z0 in A. cbn [orb] in A.
  apply andb_true_iff in A. destruct A as [A1 A2].
  apply existsb_exists in A1. destruct A1 as [k [Hk E]]. apply Z.eqb_eq in E. subst k.
  destruct (assoc Z.eqb (findClosestDepth depth) navyTable1) as [[n tg]|] eqn:T; [|discriminate].
  rewrite !andb_true_iff in A2.
  destruct A2 as [[[[[[[S1 S2] S3] S4] S5] S6] S7] S8].
  apply Z.eqb_eq in S1. apply Z.leb_le in S2, S3, S4, S5.
  destruct (parseInt (VNum (Z2F rnt))) as [q|] eqn:Q; [|discriminate].
  apply FloatAxioms.Leibniz.eqb_spec in S7. subst q.
  assert (N : findClosestDepth depth <> -1).
  { intros C. rewrite C in Hk. apply depths_within in Hk. lia. }
  unfold getFinalPressureGroup. rewrite (parseInt_minutes actual Hact), Q.
  assert (F : findClosestDepth (Z2F (findClosestDepth depth)) = findClosestDepth depth)
    by now apply findClosestDepth_fixed.
  rewrite (getSingleDiveInfo_assoc (Z2F (findClosestDepth depth)) _ n tg), F
    by (rewrite F; assumption).
  set (total := (Z2F actual + Z2F rnt)%float).
  destruct (sum_bounds actual rnt) as [Ft Vt]; [lia | lia |]. fold total in Ft, Vt.
  destruct (Z2F_bounds n) as [Fn Vn]; [lia|].
  rewrite plus_IZR in Vt.
  assert (Sn : IZR n = (IZR rnt + IZR andl)%R) by (rewrite <- S1; apply plus_IZR).
  split.
  - intros Hle. destruct (Z.eq_dec actual andl) as [->|Hne].
    + unfold total. destruct (pressureGroup _) as [g|]; [now exists g | discriminate].
    + assert (L : (IZR actual <= IZR andl - 1)%R).
      { replace (IZR andl - 1)%R with (IZR (andl - 1)) by (rewrite minus_IZR; reflexivity).
        apply IZR_le. lia. }
      destruct (singleDiveInBand_group (findClosestDepth depth) n tg total S6) as [g Hg].
      * apply leb_real; [assumption | assumption | lra].
      * exists g. now rewrite Hg.
  - intros Hlt.
    assert (L : (IZR andl + 1 <= IZR actual)%R).
    { replace (IZR andl + 1)%R with (IZR (andl + 1)) by (rewrite plus_IZR; reflexivity).
      apply IZR_le. lia. }
    assert (X : (Z2F n <? total)%float = true) by (apply ltb_real; [assumption | assumption | lra]).
    unfold singleDiveInBand. rewrite X. reflexivity.
Qed.

Lemma getFinalPressureGroup_adjusted_limit_witness :
  getRepetitiveDiveInfo (Some "D") 58 =
    Return {| residualNitrogenTime := Some (Minutes 24); adjustedNoDecoLimit := Some (Minutes 26);
              repIsExceeded := false;
              repMessage := "Residual nitrogen time: 24 minutes. Adjusted no-decompression limit: 26 minutes." |} /\
  0 <= 20 < 1000 /\ 20 <= 26 /\
  exists g, getFinalPressureGroup 58 (VStr (showZ 20)) (VNum (Z2F 24)) = Some (Some g).
Proof.
  assert (A : getRepetitiveDiveInfo (Some "D") 58 =
    Return {| residualNitrogenTime := Some (Minutes 24); adjustedNoDecoLimit := Some (Minutes 26);
              repIsExceeded := false;
              repMessage := "Residual nitrogen time: 24 minutes. Adjusted no-decompression limit: 26 minutes." |})
    by (vm_compute; reflexivity).
  assert (B : 0 <= 20 < 1000) by lia.
  assert (C : 20 <= 26) by lia.
  split; [exact A|]. split; [exact B|]. split; [exact C|].
  exact (proj1 (getFinalPressureGroup_adjusted_limit (Some "D") 58 _ 24 26 20
                  A eq_refl eq_refl eq_refl B) C).
Defined.

(** ** Unit conversions and Nitrox, continued *)

(** (X19) Converting a depth to a pressure and back gives the depth again:
    for every depth from 1 to 1000 ft, [ataToFT (ftToATA depth)] is within
    a billionth of a foot of [depth]. *)
Theorem ataToFT_ftToATA (feet : float) :
  (1 <=? feet)%float = true -> (feet <=? 1000)%float = true ->
  (abs (ataToFT (ftToATA feet) - feet) <=? 1e-9)%float = true.
Proof.
  intros H1 H1000.
  assert (Fd : finite feet = true) by (apply (finite_between 1 feet 1000); auto).
  apply leb_real in H1, H1000; auto.
  rewrite F2R_1 in H1. rewrite F2R_1000 in H1000.
  pose proof eps_small as He. set (D := F2R feet) in *.
  unfold ataToFT, ftToATA.
  (* feet / 33 *)
  set (q := (feet / 33)%float).
  destruct (div_close feet 33) as [F1 C1].
  { apply inRangeR_wide. fold D. lra. }
  { apply inRangeR_wide. rewrite F2R_33. lra. }
  fold q in F1, C1. fold D in C1. rewrite F2R_33 in C1.
  apply close_bound with (B := 31%R) in C1; [|lra].
  (* 1 + feet / 33 *)
  set (a := (1 + q)%float).
  destruct (add_close 1 q) as [F2 C2]; auto.
  { apply small_sum. rewrite F2R_1. lra. }
  fold a in F2, C2. rewrite F2R_1 in C2.
  apply close_bound with (B := 33%R) in C2; [|lra].
  (* ata - 1 *)
  set (b := (a - 1)%float).
  destruct (sub_close a 1) as [F3 C3]; auto.
  { apply small_sum. rewrite F2R_1. lra. }
  fold b in F3, C3. rewrite F2R_1 in C3.
  apply close_bound with (B := 33%R) in C3; [|lra].
  assert (B3 : (- (100 * eps) <= F2R b - D / 33 <= 100 * eps)%R) by lra.
  clear C1 C2 C3.
  (* (ata - 1) * 33 *)
  set (c := (b * 33)%float).
  destruct (mul_close b 33) as [F4 C4].
  { apply inRangeR_wide. lra. }
  { apply inRangeR_wide. rewrite F2R_33. lra. }
  fold c in F4, C4. rewrite F2R_33 in C4.
  apply close_bound with (B := 1100%R) in C4; [|lra].
  assert (B4 : (- (5000 * eps) <= F2R c - D <= 5000 * eps)%R) by lra.
  clear C4.
  (* ... - feet *)
  set (z := (c - feet)%float).
  destruct (sub_close c feet) as [F5 C5]; auto.
  { apply small_sum. fold D. lra. }
  fold z in F5, C5. fold D in C5.
  apply close_bound with (B := 1%R) in C5; [|lra].
  destruct (abs_real z F5) as [Fa Va].
  apply leb_real; auto.
  rewrite Va. pose proof F2R_1e9. apply Rle_trans with (9 / 10000000000)%R; [|assumption].
  apply Rabs_le. lra.
Qed.

Lemma ataToFT_ftToATA_witness :
  (1 <=? 66)%float = true /\ (66 <=? 1000)%float = true /\
  (abs (ataToFT (ftToATA 66) - 66) <=? 1e-9)%float = true.
Proof.
  repeat (split; [reflexivity|]). exact (ataToFT_ftToATA 66 eq_refl eq_refl).
Defined.

(** (X20) A percentage converted to a fraction and back is the percentage
    again: for every percentage from 1 to 100,
    [decimalToPercent (percentToDecimal percent)] is within a billionth
    of [percent]. *)
Theorem decimalToPercent_percentToDecimal (percent : float) :
  (1 <=? percent)%float = true -> (percent <=? 100)%float = true ->
  (abs (decimalToPercent (percentToDecimal percent) - percent) <=? 1e-9)%float = true.
Proof.
  intros H1 H100.
  assert (Fp : finite percent = true) by (apply (finite_between 1 percent 100); auto).
  apply leb_real in H1, H100; auto.
  rewrite F2R_1 in H1. rewrite F2R_100 in H100.
  pose proof eps_small as He. set (P := F2R percent) in *.
  unfold decimalToPercent, percentToDecimal.
  set (q := (percent / 100)%float).
  destruct (div_close percent 100) as [F1 C1].
  { apply inRangeR_wide. fold P. lra. }
  { apply inRangeR_wide. rewrite F2R_100. lra. }
  fold q in F1, C1. fold P in C1. rewrite F2R_100 in C1.
  apply close_bound with (B := 1%R) in C1; [|lra].
  set (c := (q * 100)%float).
  destruct (mul_close q 100) as [F2 C2].
  { apply inRangeR_wide. lra. }
  { apply inRangeR_wide. rewrite F2R_100. lra. }
  fold c in F2, C2. rewrite F2R_100 in C2.
  apply close_bound with (B := 101%R) in C2; [|lra].
  set (z := (c - percent)%float).
  destruct (sub_close c percent) as [F3 C3]; auto.
  { apply small_sum. fold P. lra. }
  fold z in F3, C3. fold P in C3.
  apply close_bound with (B := 1%R) in C3; [|lra].
  destruct (abs_real z F3) as [Fa Va].
  apply leb_real; auto.
  rewrite Va. pose proof F2R_1e9. apply Rle_trans with (9 / 10000000000)%R; [|assumption].
  apply Rabs_le. lra.
Qed.

Lemma decimalToPercent_percentToDecimal_witness :
  (1 <=? 32)%float = true /\ (32 <=? 100)%float = true /\
  (abs (decimalToPercent (percentToDecimal 32) - 32) <=? 1e-9)%float = true.
Proof.
  repeat (split; [reflexivity|]). exact (decimalToPercent_percentToDecimal 32 eq_refl eq_refl).
Defined.

(** (X21) [calculateMOD] computes the depth at which the oxygen of the mix
    reaches the limit, 33 (limit / (percentage / 100) - 1): for an oxygen
    percentage from 21 to 100 and a limit from 1.2 to 1.6 ATA the result
    is within a billionth of a foot of that value. *)
Theorem calculateMOD_value (o2Percentage pO2Limit : float) :
  (21 <=? o2Percentage)%float = true -> (o2Percentage <=? 100)%float = true ->
  (1.2 <=? pO2Limit)%float = true -> (pO2Limit <=? 1.6)%float = true ->
  (Rabs (F2R (calculateMOD o2Percentage pO2Limit)
         - 33 * (F2R pO2Limit / (F2R o2Percentage / 100) - 1)) <= 1 / 1000000000)%R.
Proof.
  intros H21 H100 H12 H16.
  assert (Fo : finite o2Percentage = true) by (apply (finite_between 21 o2Percentage 100); auto).
  assert (Fl : finite pO2Limit = true) by (apply (finite_between 1.2 pO2Limit 1.6); auto).
  apply leb_real in H21, H100, H12, H16; auto.
  rewrite F2R_21 in H21. rewrite F2R_100 in H100.
  pose proof F2R_12. pose proof F2R_16. pose proof eps_small as He.
  set (O := F2R o2Percentage) in *. set (L := F2R pO2Limit) in *.
  unfold calculateMOD, ataToFT. cbv zeta.
  (* o2Percentage / 100 *)
  set (f := (o2Percentage / 100)%float).
  destruct (div_close o2Percentage 100) as [F1 C1].
  { apply inRangeR_wide. fold O. lra. }
  { apply inRangeR_wide. rewrite F2R_100. lra. }
  fold f in F1, C1. fold O in C1. rewrite F2R_100 in C1.
  apply close_bound with (B := 1%R) in C1; [|lra].
  (* pO2Limit / o2Fraction *)
  set (p := (pO2Limit / f)%float).
  destruct (div_close pO2Limit f) as [F2 C2].
  { apply inRangeR_wide. fold L. lra. }
  { apply inRangeR_wide. lra. }
  fold p in F2, C2. fold L in C2.
  set (P0 := (L / (O / 100))%R).
  assert (P0b : (119 / 100 <= P0 <= 8)%R).
  { unfold P0. apply div_bounds; [lra|]. split; nra. }
  assert (P0e : (P0 * (O / 100) = L)%R) by (unfold P0; field; lra).
  assert (Q2 : (- (50 * eps) <= L / F2R f - P0 <= 50 * eps)%R).
  { apply (div_error L (F2R f) P0 L (O / 100) 0 eps 8 (2 / 10)); try lra. }
  apply close_bound with (B := 9%R) in C2; [|lra].
  assert (B2 : (- (60 * eps) <= F2R p - P0 <= 60 * eps)%R) by lra.
  clear C1 C2 Q2.
  (* pressure - 1 *)
  set (b := (p - 1)%float).
  destruct (sub_close p 1) as [F3 C3]; auto.
  { apply small_sum. rewrite F2R_1. lra. }
  fold b in F3, C3. rewrite F2R_1 in C3.
  apply close_bound with (B := 8%R) in C3; [|lra].
  (* ... * 33 *)
  set (c := (b * 33)%float).
  destruct (mul_close b 33) as [F4 C4].
  { apply inRangeR_wide. lra. }
  { apply inRangeR_wide. rewrite F2R_33. lra. }
  fold c in F4, C4. rewrite F2R_33 in C4.
  apply close_bound with (B := 300%R) in C4; [|lra].
  apply Rabs_le. lra.
Qed.

Lemma calculateMOD_value_witness :
  (21 <=? 32)%float = true /\ (32 <=? 100)%float = true /\
  (1.2 <=? 1.4)%float = true /\ (1.4 <=? 1.6)%float = true /\
  (Rabs (F2R (calculateMOD 32 1.4) - 33 * (F2R 1.4 / (F2R 32 / 100) - 1)) <= 1 / 1000000000)%R.
Proof.
  repeat (split; [reflexivity|]).
  exact (calculateMOD_value 32 1.4 eq_refl eq_refl eq_refl eq_refl).
Defined.

(** (X22) A richer mix has a shallower maximum operating depth: over the
    whole percentages from 21 to 100, [calculateMOD] at the default limit
    of 1.4 ATA strictly decreases as the oxygen percentage grows, and it
    stays above 13 ft. *)
Theorem calculateMOD_decreasing (n1 n2 : Z) :
  21 <= n1 -> n1 < n2 -> n2 <= 100 ->
  (calculateMOD (Z2F n2) 1.4 <? calculateMOD (Z2F n1) 1.4)%float = true /\
  (13 <? calculateMOD (Z2F n2) 1.4)%float = true.
Proof.
  intros H1 H12 H2.
  assert (A : forallb (fun k =>
                (modOfPercent (21 + k + 1) <? modOfPercent (21 + k))%float
                && (13 <? modOfPercent (21 + k + 1))%float) (upTo 79) = true)
    by (vm_compute; reflexivity).
  rewrite forallb_forall in A.
  assert (S : forall n, 21 <= n < 100 ->
                (modOfPercent (n + 1) <? modOfPercent n)%float = true /\
                (13 <? modOfPercent (n + 1))%float = true).
  { intros n Hn. specialize (A (n - 21) (In_upTo 79 (n - 21) ltac:(lia))).
    cbv beta in A. replace (21 + (n - 21)) with n in A by lia.
    now apply andb_true_iff in A. }
  fold (modOfPercent n1). fold (modOfPercent n2).
  split; [|replace n2 with (n2 - 1 + 1) by lia; apply S; lia].
  assert (G : forall d, 0 <= d -> forall n, 21 <= n -> n + d + 1 <= 100 ->
                (modOfPercent (n + d + 1) <? modOfPercent n)%float = true).
  { apply (natlike_ind (fun d => forall n, 21 <= n -> n + d + 1 <= 100 ->
                (modOfPercent (n + d + 1) <? modOfPercent n)%float = true)).
    - intros n Hn Hm. replace (n + 0 + 1) with (n + 1) by lia. apply S. lia.
    - intros d Hd IH n Hn Hm.
      apply ltb_trans with (modOfPercent (n + d + 1)).
      + replace (n + Z.succ d + 1) with (n + d + 1 + 1) by lia. apply S. lia.
      + apply IH; lia. }
  replace n2 with (n1 + (n2 - n1 - 1) + 1) by lia. apply G; lia.
Qed.

Lemma calculateMOD_decreasing_witness :
  21 <= 32 /\ 32 < 36 /\ 36 <= 100 /\
  (calculateMOD (Z2F 36) 1.4 <? calculateMOD (Z2F 32) 1.4)%float = true /\
  (13 <? calculateMOD (Z2F 36) 1.4)%float = true.
Proof.
  assert (A : 21 <= 32) by lia. assert (B : 32 < 36) by lia. assert (C : 36 <= 100) by lia.
  split; [exact A|]. split; [exact B|]. split; [exact C|].
  exact (calculateMOD_decreasing 32 36 A B C).
Defined.

(** The value [calculateEAD] computes. *)
Lemma calculateEAD_close (d o : float) :
  (0 <=? d)%float = true -> (d <=? 130)%float = true ->
  (21 <=? o)%float = true -> (o <=? 99)%float = true ->
  finite (calculateEAD d o) = true /\
  (- (1 / 10000000000) <= F2R (calculateEAD d o) - eadFormula (F2R d) (F2R o)
     <= 1 / 10000000000)%R.
Proof.
  intros H0 H130 H21 H99.
  assert (Fd : finite d = true) by (apply (finite_between 0 d 130); auto).
  assert (Fo : finite o = true) by (apply (finite_between 21 o 99); auto).
  apply leb_real in H0, H130, H21, H99; auto.
  rewrite F2R_0 in H0. rewrite F2R_130 in H130. rewrite F2R_21 in H21. rewrite F2R_99 in H99.
  pose proof F2R_079_tight as Hc. pose proof eps_small as He. pose proof eps_lower as Hl.
  set (D := F2R d) in *. set (O := F2R o) in *. set (c := F2R 0.79) in *.
  unfold calculateEAD, eadFormula. cbv zeta.
  (* 100 - o *)
  set (a1 := (100 - o)%float).
  destruct (sub_close 100 o) as [F1 C1]; auto.
  { apply small_sum. rewrite F2R_100. fold O. lra. }
  fold a1 in F1, C1. rewrite F2R_100 in C1. fold O in C1.
  apply close_bound with (B := 79%R) in C1; [|lra].
  (* (100 - o) / 100 *)
  set (n2 := (a1 / 100)%float).
  destruct (div_close a1 100) as [F2 C2].
  { apply inRangeR_wide. lra. }
  { apply inRangeR_wide. rewrite F2R_100. lra. }
  fold n2 in F2, C2. rewrite F2R_100 in C2.
  apply close_bound with (B := 1%R) in C2; [|lra].
  set (B0 := ((100 - O) / 100)%R).
  assert (B0b : (1 / 100 <= B0 <= 79 / 100)%R) by (unfold B0; lra).
  assert (N2 : (- (2 * eps) <= F2R n2 - B0 <= 2 * eps)%R) by (unfold B0; lra).
  clear C1 C2.
  (* n2Fraction / 0.79 *)
  set (r := (n2 / 0.79)%float).
  destruct (div_close n2 0.79) as [F3 C3].
  { apply inRangeR_wide. lra. }
  { apply inRangeR_wide. fold c. lra. }
  fold r in F3, C3. fold c in C3.
  set (R0 := (B0 / (79 / 100))%R).
  assert (R0b : (1 / 100 <= R0 <= 1)%R).
  { unfold R0. apply div_bounds; [lra|]. split; lra. }
  assert (R0c : (R0 * (79 / 100) = B0)%R) by (unfold R0; field).
  assert (Q3 : (- (4 * eps) <= F2R n2 / c - R0 <= 4 * eps)%R).
  { apply (div_error (F2R n2) c R0 B0 (79 / 100) (2 * eps) (eps / 2) 1 (78 / 100)); try lra. }
  apply close_bound with (B := 2%R) in C3; [|lra].
  assert (R3 : (- (6 * eps) <= F2R r - R0 <= 6 * eps)%R) by lra.
  clear C3 Q3.
  (* depth + 10 *)
  set (s := (d + 10)%float).
  destruct (add_close d 10) as [F4 C4]; auto.
  { apply small_sum. rewrite F2R_10. fold D. lra. }
  fold s in F4, C4. rewrite F2R_10 in C4. fold D in C4.
  apply close_bound with (B := 140%R) in C4; [|lra].
  (* (depth + 10) * (n2Fraction / 0.79) *)
  set (p := (s * r)%float).
  destruct (mul_close s r) as [F5 C5].
  { apply inRangeR_wide. lra. }
  { apply inRangeR_wide. lra. }
  fold p in F5, C5.
  set (P0 := ((D + 10) * R0)%R).
  assert (P0b : (1 / 10 <= P0 <= 140)%R) by (unfold P0; split; nra).
  assert (Q5 : (- (1200 * eps) <= F2R s * F2R r - P0 <= 1200 * eps)%R).
  { unfold P0. apply (mul_error (F2R s) (D + 10) (F2R r) R0 (140 * eps) (6 * eps) 140 2); lra. }
  apply close_bound with (B := 142%R) in C5; [|lra].
  assert (P5 : (- (1400 * eps) <= F2R p - P0 <= 1400 * eps)%R) by lra.
  clear C5 Q5.
  (* ... - 10 *)
  set (ead := (p - 10)%float).
  destruct (sub_close p 10) as [F6 C6]; auto.
  { apply small_sum. rewrite F2R_10. lra. }
  fold ead in F6, C6. rewrite F2R_10 in C6.
  apply close_bound with (B := 132%R) in C6; [|lra].
  split; [exact F6|].
  replace ((D + 10) * B0 / (79 / 100) - 10)%R with (P0 - 10)%R
    by (unfold P0, R0; field).
  lra.
Qed.

(** (X23) [calculateEAD] computes the equivalent air depth
    (depth + 10) (1 - percentage / 100) / 0.79 - 10 to within a billionth
    of a foot, for depths from 0 to 130 ft and oxygen percentages from 21
    to 99; and for a mix of 22 percent oxygen or more the equivalent air
    depth is shallower than the depth itself. *)
Theorem calculateEAD_value (depth o2Percentage : float) :
  (0 <=? depth)%float = true -> (depth <=? 130)%float = true ->
  (21 <=? o2Percentage)%float = true -> (o2Percentage <=? 99)%float = true ->
  (Rabs (F2R (calculateEAD depth o2Percentage) - eadFormula (F2R depth) (F2R o2Percentage))
     <= 1 / 1000000000)%R /\
  ((22 <=? o2Percentage)%float = true ->
   (calculateEAD depth o2Percentage <? depth)%float = true).
Proof.
  intros H0 H130 H21 H99.
  destruct (calculateEAD_close depth o2Percentage H0 H130 H21 H99) as [F C].
  split; [apply Rabs_le; lra|].
  intros H22.
  assert (Fd : finite depth = true) by (apply (finite_between 0 depth 130); auto).
  assert (Fo : finite o2Percentage = true) by (apply (finite_between 21 o2Percentage 99); auto).
  apply leb_real in H0, H130, H22, H99; auto.
  rewrite F2R_0 in H0. rewrite F2R_130 in H130. rewrite F2R_22 in H22. rewrite F2R_99 in H99.
  apply ltb_real; auto.
  unfold eadFormula in C.
  set (D := F2R depth) in *. set (O := F2R o2Percentage) in *.
  assert (E : ((D + 10) * ((100 - O) / 100) / (79 / 100) - 10 <= D - 1 / 10)%R).
  { replace ((D + 10) * ((100 - O) / 100) / (79 / 100))%R
      with ((D + 10) * (100 - O) / 79)%R by field.
    assert (X : ((D + 10) * (100 - O) <= (D + 10) * 78)%R) by nra.
    lra. }
  lra.
Qed.

Lemma calculateEAD_value_witness :
  (0 <=? 100)%float = true /\ (100 <=? 130)%float = true /\
  (21 <=? 36)%float = true /\ (36 <=? 99)%float = true /\ (22 <=? 36)%float = true /\
  (Rabs (F2R (calculateEAD 100 36) - eadFormula (F2R 100) (F2R 36)) <= 1 / 1000000000)%R /\
  (calculateEAD 100 36 <? 100)%float = true.
Proof.
  repeat (split; [reflexivity|]).
  destruct (calculateEAD_value 100 36 eq_refl eq_refl eq_refl eq_refl) as [A B].
  split; [exact A | exact (B eq_refl)].
Defined.

(** The value [calculateActualDepthFromEAD] computes. *)
Lemma calculateActualDepthFromEAD_close (e o : float) :
  (0 <=? e)%float = true -> (e <=? 130)%float = true ->
  (21 <=? o)%float = true -> (o <=? 99)%float = true ->
  finite (calculateActualDepthFromEAD e o) = true /\
  (- (1 / 1000000000) <= F2R (calculateActualDepthFromEAD e o)
                          - actualDepthFormula (F2R e) (F2R o)
     <= 1 / 1000000000)%R.
Proof.
  intros H0 H130 H21 H99.
  assert (Fe : finite e = true) by (apply (finite_between 0 e 130); auto).
  assert (Fo : finite o = true) by (apply (finite_between 21 o 99); auto).
  apply leb_real in H0, H130, H21, H99; auto.
  rewrite F2R_0 in H0. rewrite F2R_130 in H130. rewrite F2R_21 in H21. rewrite F2R_99 in H99.
  pose proof F2R_079_tight as Hc. pose proof eps_small as He. pose proof eps_lower as Hl.
  pose proof eps_upper as Hu.
  set (E := F2R e) in *. set (O := F2R o) in *. set (c := F2R 0.79) in *.
  unfold calculateActualDepthFromEAD, actualDepthFormula.
  (* ead + 10 *)
  set (t := (e + 10)%float).
  destruct (add_close e 10) as [F1 C1]; auto.
  { apply small_sum. rewrite F2R_10. fold E. lra. }
  fold t in F1, C1. rewrite F2R_10 in C1. fold E in C1.
  apply close_bound with (B := 140%R) in C1; [|lra].
  (* (ead + 10) * 0.79 *)
  set (u := (t * 0.79)%float).
  destruct (mul_close t 0.79) as [F2 C2].
  { apply inRangeR_wide. lra. }
  { apply inRangeR_wide. fold c. lra. }
  fold u in F2, C2. fold c in C2.
  set (U0 := ((E + 10) * (79 / 100))%R).
  assert (U0b : (79 / 10 <= U0 <= 111)%R) by (unfold U0; lra).
  assert (Q2 : (- (220 * eps) <= F2R t * c - U0 <= 220 * eps)%R).
  { unfold U0. apply (mul_error (F2R t) (E + 10) c (79 / 100) (140 * eps) (eps / 2) 140 1); lra. }
  apply close_bound with (B := 112%R) in C2; [|lra].
  assert (U2 : (- (340 * eps) <= F2R u - U0 <= 340 * eps)%R) by lra.
  clear C1 C2 Q2.
  (* o / 100 *)
  set (q := (o / 100)%float).
  destruct (div_close o 100) as [F3 C3].
  { apply inRangeR_wide. fold O. lra. }
  { apply inRangeR_wide. rewrite F2R_100. lra. }
  fold q in F3, C3. fold O in C3. rewrite F2R_100 in C3.
  apply close_bound with (B := 1%R) in C3; [|lra].
  (* 1 - o / 100 *)
  set (b := (1 - q)%float).
  destruct (sub_close 1 q) as [F4 C4]; auto.
  { apply small_sum. rewrite F2R_1. lra. }
  fold b in F4, C4. rewrite F2R_1 in C4.
  apply close_bound with (B := 1%R) in C4; [|lra].
  set (B0 := (1 - O / 100)%R).
  assert (B0b : (1 / 100 <= B0 <= 79 / 100)%R) by (unfold B0; lra).
  assert (B4 : (- (2 * eps) <= F2R b - B0 <= 2 * eps)%R) by (unfold B0; lra).
  clear C3 C4.
  (* ... / (1 - o / 100) *)
  set (w := (u / b)%float).
  destruct (div_close u b) as [F5 C5].
  { apply inRangeR_wide. lra. }
  { apply inRangeR_wide. lra. }
  fold w in F5, C5.
  set (W0 := (U0 / B0)%R).
  assert (W0b : (10 <= W0 <= 11100)%R).
  { unfold W0. apply div_bounds; [lra|]. split; nra. }
  assert (W0e : (W0 * B0 = U0)%R) by (unfold W0; field; lra).
  assert (Q5 : (- (2300000 * eps) <= F2R u / F2R b - W0 <= 2300000 * eps)%R).
  { apply (div_error (F2R u) (F2R b) W0 U0 B0 (340 * eps) (2 * eps) 11100 (99 / 10000));
      try lra. }
  apply close_bound with (B := 11101%R) in C5; [|lra].
  assert (W5 : (- (2320000 * eps) <= F2R w - W0 <= 2320000 * eps)%R) by lra.
  clear C5 Q5.
  (* ... - 10 *)
  set (res := (w - 10)%float).
  destruct (sub_close w 10) as [F6 C6]; auto.
  { apply moderate_sum. rewrite F2R_10. lra. }
  fold res in F6, C6. rewrite F2R_10 in C6.
  apply close_bound with (B := 11100%R) in C6; [|lra].
  split; [exact F6|].
  replace ((E + 10) * (79 / 100) / B0 - 10)%R with (W0 - 10)%R by (unfold W0, U0; reflexivity).
  lra.
Qed.

(** (X24) [calculateActualDepthFromEAD] computes the depth
    (ead + 10) 0.79 / (1 - percentage / 100) - 10 to within a billionth of
    a foot, for equivalent air depths from 0 to 130 ft and oxygen
    percentages from 21 to 99; and for a mix of 22 percent oxygen or more
    that depth is deeper than the equivalent air depth. *)
Theorem calculateActualDepthFromEAD_value (ead o2Percentage : float) :
  (0 <=? ead)%float = true -> (ead <=? 130)%float = true ->
  (21 <=? o2Percentage)%float = true -> (o2Percentage <=? 99)%float = true ->
  (Rabs (F2R (calculateActualDepthFromEAD ead o2Percentage)
         - actualDepthFormula (F2R ead) (F2R o2Percentage)) <= 1 / 1000000000)%R /\
  ((22 <=? o2Percentage)%float = true ->
   (ead <? calculateActualDepthFromEAD ead o2Percentage)%float = true).
Proof.
  intros H0 H130 H21 H99.
  destruct (calculateActualDepthFromEAD_close ead o2Percentage H0 H130 H21 H99) as [F C].
  split; [apply Rabs_le; lra|].
  intros H22.
  assert (Fe : finite ead = true) by (apply (finite_between 0 ead 130); auto).
  assert (Fo : finite o2Percentage = true) by (apply (finite_between 21 o2Percentage 99); auto).
  apply leb_real in H0, H130, H22, H99; auto.
  rewrite F2R_0 in H0. rewrite F2R_130 in H130. rewrite F2R_22 in H22. rewrite F2R_99 in H99.
  apply ltb_real; auto.
  unfold actualDepthFormula in C.
  set (E := F2R ead) in *. set (O := F2R o2Percentage) in *.
  assert (X : (E + 1 / 10 <= (E + 10) * (79 / 100) / (1 - O / 100) - 10)%R).
  { assert (Y : (E + 10 + 1 / 10 <= (E + 10) * (79 / 100) / (1 - O / 100))%R).
    { apply div_bounds with (lo := (E + 10 + 1 / 10)%R) (hi := 20000%R); [lra|]. split; nra. }
    lra. }
  lra.
Qed.

Lemma calculateActualDepthFromEAD_value_witness :
  (0 <=? 60)%float = true /\ (60 <=? 130)%float = true /\
  (21 <=? 32)%float = true /\ (32 <=? 99)%float = true /\ (22 <=? 32)%float = true /\
  (Rabs (F2R (calculateActualDepthFromEAD 60 32) - actualDepthFormula (F2R 60) (F2R 32))
     <= 1 / 1000000000)%R /\
  (60 <? calculateActualDepthFromEAD 60 32)%float = true.
Proof.
  repeat (split; [reflexivity|]).
  destruct (calculateActualDepthFromEAD_value 60 32 eq_refl eq_refl eq_refl eq_refl) as [A B].
  split; [exact A | exact (B eq_refl)].
Defined.

(** ** Dalton's triangle, continued *)

Lemma positive_cases (p : float) :
  (0 <? p)%float = true ->
  Prim2SF p = S754_infinity false \/ exists m e, Prim2SF p = S754_finite false m e.
Proof.
  rewrite ltb_spec. change (Prim2SF 0) with (S754_zero false). unfold SFltb.
  destruct (Prim2SF p) as [s|s| |s m e]; simpl; try discriminate.
  - destruct s; [discriminate | now left].
  - destruct s; [discriminate | right; now exists m, e].
Qed.

Lemma div_by_zero (p : float) : (0 <? p)%float = true -> (p / 0)%float = infinity.
Proof.
  intros H. apply Prim2SF_inj. rewrite div_spec.
  change (Prim2SF 0) with (S754_zero false). change (Prim2SF infinity) with (S754_infinity false).
  destruct (positive_cases p H) as [->|[m [e ->]]]; reflexivity.
Qed.

(** (X25) [calculateDaltonsTriangle] does not reject an oxygen fraction of
    zero: given that fraction and a positive partial pressure of oxygen
    it divides by zero and, instead of throwing, returns an infinite
    pressure, depth and partial pressure of nitrogen. *)
Theorem calculateDaltonsTriangle_zero_fraction (p : float) :
  (0 <? p)%float = true ->
  Dalton.calculateDaltonsTriangle
    {| Dalton.depth := None; Dalton.fO2 := Some 0%float; Dalton.pO2 := Some p |}
  = Return {| Dalton.r_depth := infinity; Dalton.r_fO2 := 0; Dalton.r_pressure := infinity;
              Dalton.r_pO2 := roundTo2 p; Dalton.r_pN2 := infinity |}.
Proof.
  intros H. unfold Dalton.calculateDaltonsTriangle. cbn [Dalton.depth Dalton.fO2 Dalton.pO2].
  cbv zeta. rewrite (div_by_zero p H). unfold Dalton.format.
  cbn [Dalton.r_depth Dalton.r_fO2 Dalton.r_pressure Dalton.r_pO2 Dalton.r_pN2].
  f_equal; f_equal; vm_compute; reflexivity.
Qed.

Lemma calculateDaltonsTriangle_zero_fraction_witness :
  (0 <? 1.4)%float = true /\
  Dalton.calculateDaltonsTriangle
    {| Dalton.depth := None; Dalton.fO2 := Some 0%float; Dalton.pO2 := Some 1.4%float |}
  = Return {| Dalton.r_depth := infinity; Dalton.r_fO2 := 0; Dalton.r_pressure := infinity;
              Dalton.r_pO2 := roundTo2 1.4; Dalton.r_pN2 := infinity |}.
Proof.
  split; [reflexivity|]. exact (calculateDaltonsTriangle_zero_fraction 1.4 eq_refl).
Defined.

Lemma is_infinity_finite (x : float) : finite x = true -> is_infinity x = false.
Proof.
  unfold finite, is_infinity. rewrite eqb_spec, abs_spec.
  change (Prim2SF infinity) with (S754_infinity false).
  destruct (Prim2SF x) as [s|s| |s m e]; try discriminate; reflexivity.
Qed.

Lemma opp_real (y : float) :
  finite y = true -> finite (- y) = true /\ F2R (- y) = (- F2R y)%R.
Proof.
  unfold finite, F2R. rewrite opp_spec.
  destruct (Prim2SF y) as [s|s| |s m e]; try discriminate; intros _.
  - split; [reflexivity|]. simpl. lra.
  - split; [reflexivity|]. cbn [SFopp SF2R]. destruct s; simpl; lra.
Qed.

(** The integer [toFixed(2)] prints: a hundred times the magnitude,
    rounded to the nearest integer, the larger one at a tie. *)
Lemma hundredths (m : positive) (k : Z) :
  0 < k ->
  (IZR ((Zpos m * 200 + 2 ^ k) / 2 ^ (1 + k)) <= 100 * (IZR (Zpos m) / IZR (2 ^ k)) + 1 / 2
     < IZR ((Zpos m * 200 + 2 ^ k) / 2 ^ (1 + k)) + 1)%R.
Proof.
  intros Hk.
  assert (P : 0 < 2 ^ k) by (apply Z.pow_pos_nonneg; lia).
  assert (E : 2 ^ (1 + k) = 2 * 2 ^ k) by (rewrite Z.pow_add_r by lia; reflexivity).
  rewrite E.
  set (N := Zpos m * 200 + 2 ^ k). set (D := 2 * 2 ^ k).
  pose proof (Z.div_mod N D ltac:(unfold D; lia)) as DM.
  pose proof (Z.mod_pos_bound N D ltac:(unfold D; lia)) as MB.
  set (n := N / D) in *. set (r := N mod D) in *.
  assert (RN : (IZR N = IZR D * IZR n + IZR r)%R).
  { rewrite <- mult_IZR, <- plus_IZR. now rewrite <- DM. }
  assert (RB : (0 <= IZR r < IZR D)%R) by (split; [apply IZR_le | apply IZR_lt]; lia).
  assert (RD : (IZR D = 2 * IZR (2 ^ k))%R) by (unfold D; rewrite mult_IZR; reflexivity).
  assert (RP : (0 < IZR (2 ^ k))%R) by (apply IZR_lt; lia).
  assert (RNe : (IZR N = IZR (Zpos m) * 200 + IZR (2 ^ k))%R).
  { unfold N. rewrite plus_IZR, mult_IZR. reflexivity. }
  set (M := IZR (Zpos m)) in *. set (T := IZR (2 ^ k)) in *.
  assert (Q : (100 * (M / T) + 1 / 2 = IZR n + IZR r / IZR D)%R).
  { rewrite RD. apply Rmult_eq_reg_r with (2 * T)%R; [|lra].
    replace ((100 * (M / T) + 1 / 2) * (2 * T))%R with (M * 200 + T)%R by (field; lra).
    replace ((IZR n + IZR r / (2 * T)) * (2 * T))%R with (2 * T * IZR n + IZR r)%R
      by (field; lra).
    rewrite <- RD, <- RN, RNe. reflexivity. }
  assert (F : (0 <= IZR r / IZR D < 1)%R).
  { split.
    - apply Rmult_le_pos; [lra|]. apply Rlt_le, Rinv_0_lt_compat. lra.
    - apply Rmult_lt_reg_r with (IZR D); [lra|].
      replace (IZR r / IZR D * IZR D)%R with (IZR r) by (field; lra). lra. }
  lra.
Qed.

Lemma hundredthsOf_value (x : float) :
  finite x = true ->
  0 <= hundredthsOf x /\
  (- (1 / 2) <= IZR (hundredthsOf x) - 100 * Rabs (F2R x) <= 1 / 2)%R.
Proof.
  unfold finite, hundredthsOf, F2R.
  destruct (Prim2SF x) as [s|s| |s m e]; try discriminate; intros _.
  - simpl. rewrite Rabs_R0. split; [lia | lra].
  - assert (A : Rabs (SF2R (S754_finite s m e)) = (IZR (Zpos m) * p2 e)%R).
    { rewrite SF2R_finite. pose proof (magnitude_pos m e) as P. unfold magnitude in *.
      destruct s; [rewrite Rabs_Ropp|]; rewrite Rabs_pos_eq; lra. }
    rewrite A. destruct (0 <=? e) eqn:E.
    + apply Z.leb_le in E. rewrite Z.shiftl_mul_pow2 by lia.
      assert (P : 0 < 2 ^ e) by (apply Z.pow_pos_nonneg; lia).
      split; [nia|].
      rewrite !mult_IZR, <- (p2_IZR e) by lia. lra.
    + apply Z.leb_gt in E.
      assert (P : 0 < 2 ^ (1 - e)) by (apply Z.pow_pos_nonneg; lia).
      assert (Q : 0 < 2 ^ (- e)) by (apply Z.pow_pos_nonneg; lia).
      split; [apply Z.div_pos; lia|].
      pose proof (hundredths m (- e) ltac:(lia)) as H.
      replace (1 + - e) with (1 - e) in H by lia.
      replace (p2 e) with (/ IZR (2 ^ (- e)))%R
        by (symmetry; replace e with (- - e) at 1 by lia; apply p2_neg; lia).
      unfold Rdiv in H. lra.
Qed.

Lemma roundTo2_unfold (x : float) :
  roundTo2 x =
    if is_nan x || is_infinity x then x
    else if (Z2F (2 ^ 46) <=? abs x)%float then x
    else let y := (Z2F (hundredthsOf x) / 100)%float in
         if (x <? 0)%float then (- y)%float else y.
Proof. reflexivity. Qed.

(** [parseFloat(x.toFixed(2))] is a whole number of hundredths, read
    back as a float, and that number is within half a hundredth of [x]. *)
Lemma roundTo2_value (x : float) :
  finite x = true -> (Rabs (F2R x) <= 1000)%R ->
  exists n : Z,
    finite (roundTo2 x) = true /\
    (- (1 / 10000000000) <= F2R (roundTo2 x) - IZR n / 100 <= 1 / 10000000000)%R /\
    (- (1 / 200) <= IZR n / 100 - F2R x <= 1 / 200)%R.
Proof.
  intros Fx Bx. rewrite roundTo2_unfold.
  rewrite (finite_not_nan x Fx), (is_infinity_finite x Fx). cbn [orb].
  destruct (abs_real x Fx) as [Fa Va].
  pose proof eps_small as He.
  assert (Big : (Z2F (2 ^ 46) <=? abs x)%float = false).
  { apply not_true_is_false. intros C.
    destruct (Z2F_value (2 ^ 46)) as [Fb Cb]; [lia|].
    apply leb_real in C; auto. rewrite Va in C.
    apply close_bound with (B := IZR (2 ^ 46)) in Cb.
    - change (2 ^ 46) with 70368744177664 in Cb, C. lra.
    - change (2 ^ 46) with 70368744177664. lra. }
  rewrite Big. cbv zeta.
  destruct (hundredthsOf_value x Fx) as [N0 NV].
  set (n0 := hundredthsOf x) in *.
  assert (NB : (0 <= IZR n0 <= 100001)%R) by (split; [apply IZR_le; lia | lra]).
  assert (Y : finite (Z2F n0 / 100) = true /\
              (- (1 / 10000000000) <= F2R (Z2F n0 / 100) - IZR n0 / 100 <= 1 / 10000000000)%R).
  { destruct (Z.eq_dec n0 0) as [->|Hne].
    - split; [reflexivity|]. change (F2R (Z2F 0 / 100)) with 0%R. lra.
    - assert (N1 : (1 <= IZR n0)%R) by (apply IZR_le; lia).
      assert (N2 : n0 < 2 ^ 62).
      { apply lt_IZR. change (2 ^ 62) with 4611686018427387904. lra. }
      destruct (Z2F_value n0) as [Fz Cz]; [lia|].
      apply close_bound with (B := 100001%R) in Cz; [|lra].
      destruct (div_close (Z2F n0) 100) as [Fq Cq].
      { apply inRangeR_wide. lra. }
      { apply inRangeR_wide. rewrite F2R_100. lra. }
      split; [exact Fq|]. rewrite F2R_100 in Cq.
      apply close_bound with (B := 1001%R) in Cq; [|lra].
      lra. }
  destruct Y as [Fy Vy].
  destruct (x <? 0)%float eqn:S.
  - apply ltb_real in S; auto. rewrite F2R_0 in S.
    rewrite Rabs_left in NV by assumption.
    destruct (opp_real _ Fy) as [Fo Vo].
    exists (- n0). split; [exact Fo|]. rewrite Vo, opp_IZR. lra.
  - assert (P : (0 <= F2R x)%R).
    { destruct (Rle_lt_dec 0 (F2R x)) as [|C]; [assumption|].
      rewrite <- F2R_0 in C. apply ltb_real in C; auto. congruence. }
    rewrite Rabs_pos_eq in NV by assumption.
    exists n0. split; [exact Fy|]. lra.
Qed.

(** (X26) Dalton's law survives the rounding of the results: when
    [calculateDaltonsTriangle] is given a depth from 1 to 1000 ft and an
    oxygen fraction from 0.01 to 0.99, the partial pressures of oxygen
    and nitrogen it returns add up to the pressure it returns, up to one
    unit of the second decimal. *)
Theorem calculateDaltonsTriangle_partial_pressures (depth fO2 : float) (result : Dalton.Result) :
  (1 <=? depth)%float = true -> (depth <=? 1000)%float = true ->
  (0.01 <=? fO2)%float = true -> (fO2 <=? 0.99)%float = true ->
  Dalton.calculateDaltonsTriangle
    {| Dalton.depth := Some depth; Dalton.fO2 := Some fO2; Dalton.pO2 := None |}
  = Return result ->
  (Rabs (F2R (Dalton.r_pO2 result) + F2R (Dalton.r_pN2 result)
         - F2R (Dalton.r_pressure result)) <= 1 / 100 + 1 / 1000000000)%R.
Proof.
  intros H1 H1000 Hlo Hhi HR.
  unfold Dalton.calculateDaltonsTriangle in HR.
  cbn [Dalton.depth Dalton.fO2 Dalton.pO2] in HR. cbv zeta in HR.
  inversion HR as [HR']. clear HR HR'.
  unfold Dalton.format. cbn [Dalton.r_depth Dalton.r_fO2 Dalton.r_pressure Dalton.r_pO2 Dalton.r_pN2].
  assert (Fd : finite depth = true) by (apply (finite_between 1 depth 1000); auto).
  assert (Ff : finite fO2 = true) by (apply (finite_between 0.01 fO2 0.99); auto).
  apply leb_real in H1, H1000, Hlo, Hhi; auto.
  rewrite F2R_1 in H1. rewrite F2R_1000 in H1000.
  pose proof F2R_001. pose proof F2R_099. pose proof eps_small as He.
  set (D := F2R depth) in *. set (F := F2R fO2) in *.
  unfold ftToATA.
  (* depth / 33 *)
  set (q := (depth / 33)%float).
  destruct (div_close depth 33) as [F1 C1].
  { apply inRangeR_wide. fold D. lra. }
  { apply inRangeR_wide. rewrite F2R_33. lra. }
  fold q in F1, C1. fold D in C1. rewrite F2R_33 in C1.
  apply close_bound with (B := 31%R) in C1; [|lra].
  (* 1 + depth / 33 *)
  set (p := (1 + q)%float).
  destruct (add_close 1 q) as [F2 C2]; auto.
  { apply small_sum. rewrite F2R_1. lra. }
  fold p in F2, C2. rewrite F2R_1 in C2.
  apply close_bound with (B := 33%R) in C2; [|lra].
  set (P := F2R p) in *.
  assert (Pb : (1 <= P <= 32)%R) by lra.
  clear C1 C2.
  (* pressure * fO2 *)
  set (po := (p * fO2)%float).
  destruct (mul_close p fO2) as [F3 C3].
  { apply inRangeR_wide. fold P. lra. }
  { apply inRangeR_wide. fold F. lra. }
  fold po in F3, C3. fold P F in C3.
  assert (PFb : (0 <= P * F <= 32)%R) by (split; nra).
  apply close_bound with (B := 32%R) in C3; [|lra].
  (* 1 - fO2 *)
  set (om := (1 - fO2)%float).
  destruct (sub_close 1 fO2) as [F4 C4]; auto.
  { apply small_sum. rewrite F2R_1. fold F. lra. }
  fold om in F4, C4. rewrite F2R_1 in C4. fold F in C4.
  apply close_bound with (B := 1%R) in C4; [|lra].
  (* pressure * (1 - fO2) *)
  set (pn := (p * om)%float).
  destruct (mul_close p om) as [F5 C5].
  { apply inRangeR_wide. fold P. lra. }
  { apply inRangeR_wide. lra. }
  fold pn in F5, C5. fold P in C5.
  assert (Q5 : (- (32 * eps) <= P * F2R om - P * (1 - F) <= 32 * eps)%R).
  { apply (mul_error P P (F2R om) (1 - F) 0 eps 32 1); lra. }
  assert (PNb : (0 <= P * (1 - F) <= 32)%R) by (split; nra).
  apply close_bound with (B := 33%R) in C5; [|lra].
  assert (S : (- (100 * eps) <= F2R po + F2R pn - P <= 100 * eps)%R) by lra.
  assert (Bo : (- 33 <= F2R po <= 33)%R) by lra.
  assert (Bn : (- 33 <= F2R pn <= 33)%R) by lra.
  clear C3 C4 C5 Q5.
  (* the three roundings *)
  destruct (roundTo2_value po F3) as [n1 [G1 [V1 W1]]]; [apply Rabs_le; lra|].
  destruct (roundTo2_value pn F5) as [n2 [G2 [V2 W2]]]; [apply Rabs_le; lra|].
  destruct (roundTo2_value p F2) as [n3 [G3 [V3 W3]]]; [apply Rabs_le; fold P; lra|].
  fold P in W3.
  assert (Z : -1 <= n1 + n2 - n3 <= 1).
  { assert (A : (IZR (-2) < IZR (n1 + n2 - n3) < IZR 2)%R).
    { rewrite minus_IZR, plus_IZR. lra. }
    destruct A as [A1 A2]. apply lt_IZR in A1, A2. lia. }
  assert (ZR : (-1 <= IZR n1 + IZR n2 - IZR n3 <= 1)%R).
  { rewrite <- plus_IZR, <- minus_IZR. split; apply IZR_le; lia. }
  apply Rabs_le. lra.
Qed.

Lemma calculateDaltonsTriangle_partial_pressures_witness :
  (1 <=? 99)%float = true /\ (99 <=? 1000)%float = true /\
  (0.01 <=? 0.21)%float = true /\ (0.21 <=? 0.99)%float = true /\
  (Rabs (F2R 0.84 + F2R 3.16 - F2R 4) <= 1 / 100 + 1 / 1000000000)%R.
Proof.
  repeat (split; [reflexivity|]).
  exact (calculateDaltonsTriangle_partial_pressures 99 0.21
           {| Dalton.r_depth := 99; Dalton.r_fO2 := 0.21; Dalton.r_pressure := 4;
              Dalton.r_pO2 := 0.84; Dalton.r_pN2 := 3.16 |}
           eq_refl eq_refl eq_refl eq_refl ltac:(vm_compute; reflexivity)).
Defined.

(** ** Selecting a depth in Nitrox mode *)

Lemma sameSelection_eq (a b : option Z * float) : sameSelection a b = true -> a = b.
Proof.
  destruct a as [[x|] u], b as [[y|] v]; unfold sameSelection; simpl; try discriminate;
    intros H; try (apply andb_true_iff in H; destruct H as [H1 H2]; apply Z.eqb_eq in H1);
    apply FloatAxioms.Leibniz.eqb_spec in H || apply FloatAxioms.Leibniz.eqb_spec in H2;
    now subst.
Qed.

(** (X27) In Nitrox mode the depth a row shows leads back to that row: for
    every whole oxygen percentage from 22 to 99 and every depth of
    table 1, the search of [selectDepth], given the depth the row
    displays, finds the row's air depth by exact match and keeps the
    displayed depth. *)
Theorem selectDepth_finds_row (n k : Z) :
  22 <= n <= 99 -> In k depths ->
  selectDepthSearch (Z2F n) (nitroxDepthOf k (Z2F n)) = (Some k, nitroxDepthOf k (Z2F n)).
Proof.
  intros Hn Hk.
  assert (A : forallb (fun i =>
                forallb (fun k =>
                   sameSelection (selectDepthSearch (Z2F (22 + i)) (nitroxDepthOf k (Z2F (22 + i))))
                                 (Some k, nitroxDepthOf k (Z2F (22 + i)))) depths)
                (upTo 78) = true) by (vm_compute; reflexivity).
  rewrite forallb_forall in A. specialize (A (n - 22) (In_upTo 78 (n - 22) ltac:(lia))).
  cbv beta in A. rewrite forallb_forall in A. specialize (A k Hk). cbv beta in A.
  replace (22 + (n - 22)) with n in A by lia. now apply sameSelection_eq.
Qed.

Lemma selectDepth_finds_row_witness :
  22 <= 32 <= 99 /\ In 60 depths /\
  selectDepthSearch (Z2F 32) (nitroxDepthOf 60 (Z2F 32)) = (Some 60, nitroxDepthOf 60 (Z2F 32)).
Proof.
  assert (A : 22 <= 32 <= 99) by lia.
  assert (B : In 60 depths) by (rewrite depths_eq; simpl; tauto).
  split; [exact A|]. split; [exact B|]. exact (selectDepth_finds_row 32 60 A B).
Defined.
